(** * A shallow embedding of the chess session server

    The development follows the two TypeScript units of the back end:
    the rules engine (class [ChessRules]) and the session handlers of the
    web-socket server ([createGame], [handleJoin], [handleMove],
    [updateGameStatus], ...).  JavaScript numbers that index the board are
    integers here ([Z]); the board is the array of arrays of the source,
    a list of rows, each a list of optional pieces. *)

From Stdlib Require Import ZArith Lia Bool List Sorted.
From stdpp Require Import base tactics option list strings pretty.
Import ListNotations.
Open Scope Z_scope.

(** ** Pieces and boards *)

Inductive PieceType := pawn | rook | knight | bishop | queen | king.

Inductive Color := white | black.

#[global] Instance PieceType_eq_dec : EqDecision PieceType.
Proof. solve_decision. Defined.
#[global] Instance Color_eq_dec : EqDecision Color.
Proof. solve_decision. Defined.

(** The interface [ChessPiece] itself is imported by the source files; its
    fields are the ones [createInitialBoard] writes. *)
Record ChessPiece := mkPiece {
  type : PieceType;
  color : Color;
  id : string;
  hasMoved : bool;
  row : Z;
  col : Z
}.

Abbreviation Board := (list (list (option ChessPiece))).

Abbreviation AttackMap := (list (list bool)).

Definition inBoard (r c : Z) : bool :=
  (0 <=? r) && (r <? 8) && (0 <=? c) && (c <? 8).

(** Reading and writing an array of arrays at integer indices inside the
    8 by 8 range; a read outside any row gives [None] ([undefined]). *)
Definition gridGet {A} (g : list (list A)) (r c : Z) : option A :=
  if inBoard r c then
    match g !! Z.to_nat r with
    | Some cells => cells !! Z.to_nat c
    | None => None
    end
  else None.

Definition gridSet {A} (g : list (list A)) (r c : Z) (v : A) : list (list A) :=
  if inBoard r c then alter (fun cells => <[Z.to_nat c := v]> cells) (Z.to_nat r) g
  else g.

(** [board[r][c]], read for its truthiness: [None] stands for [null] and
    for [undefined].  The source never indexes a row outside the board on
    the paths embedded below without a bounds test before it; where it
    would (a thrown [TypeError]) the caller says so. *)
Definition cell (board : Board) (r c : Z) : option ChessPiece :=
  match gridGet board r c with
  | Some x => x
  | None => None
  end.

(** [board[r][c] = v] *)
Definition setCell (board : Board) (r c : Z) (v : option ChessPiece) : Board :=
  gridSet board r c v.

(** [board[r][c] !== null]: true of a piece, and of [undefined]. *)
Definition notNull (board : Board) (r c : Z) : bool :=
  match gridGet board r c with
  | Some None => false
  | _ => true
  end.

(** [attacked[r][c]] read as a condition; [undefined] is falsy. *)
Definition attackedAt (attacked : AttackMap) (r c : Z) : bool :=
  match gridGet attacked r c with
  | Some x => x
  | None => false
  end.

(** [attacked[r][c] = true] *)
Definition markAt (attacked : AttackMap) (r c : Z) : AttackMap :=
  gridSet attacked r c true.

(** [!board[r][c]] *)
Definition isEmptyCell (o : option ChessPiece) : bool :=
  match o with Some _ => false | None => true end.

Definition opponent (c : Color) : Color :=
  match c with white => black | black => white end.

(** The squares in the order of the nested loops
    [for row = 0..7 { for col = 0..7 { ... } }]. *)
Definition squares : list (Z * Z) :=
  flat_map (fun r => map (fun c => (r, c)) (seqZ 0 8)) (seqZ 0 8).

Module ChessRules.

(** *** Path and attack predicates *)

Definition sign (a b : Z) : Z := if a <? b then 1 else if b <? a then -1 else 0.

(** The [while] loop of [isPathClear]; it ends on the destination, on a
    piece, or on leaving the board, so the nine rounds it is given are
    never used up when the origin is on the board.  (Leaving the board by
    a row is a [TypeError] in the source; the callers ask for squares of
    one line only, where the loop stays on the board.) *)
Fixpoint pathLoop (fuel : nat) (board : Board)
    (currentRow currentCol rowStep colStep toRow toCol : Z) : bool :=
  match fuel with
  | O => false
  | S fuel' =>
      if negb ((currentRow =? toRow) && (currentCol =? toCol)) then
        if notNull board currentRow currentCol then false
        else pathLoop fuel' board (currentRow + rowStep) (currentCol + colStep)
                      rowStep colStep toRow toCol
      else true
  end.

Definition isPathClear (board : Board) (fromRow fromCol toRow toCol : Z) : bool :=
  let rowStep := sign fromRow toRow in
  let colStep := sign fromCol toCol in
  pathLoop 9 board (fromRow + rowStep) (fromCol + colStep) rowStep colStep toRow toCol.

Definition direction (c : Color) : Z := match c with white => -1 | black => 1 end.

Definition canPawnAttackSquare (piece : ChessPiece) (fromRow fromCol toRow toCol : Z) : bool :=
  (Z.abs (toCol - fromCol) =? 1) && (toRow =? fromRow + direction (color piece)).

Definition canRookAttackSquare (board : Board) (fromRow fromCol toRow toCol : Z) : bool :=
  if negb (fromRow =? toRow) && negb (fromCol =? toCol) then false
  else isPathClear board fromRow fromCol toRow toCol.

Definition canKnightAttackSquare (fromRow fromCol toRow toCol : Z) : bool :=
  let rowDiff := Z.abs (toRow - fromRow) in
  let colDiff := Z.abs (toCol - fromCol) in
  ((rowDiff =? 2) && (colDiff =? 1)) || ((rowDiff =? 1) && (colDiff =? 2)).

Definition canBishopAttackSquare (board : Board) (fromRow fromCol toRow toCol : Z) : bool :=
  if negb (Z.abs (toRow - fromRow) =? Z.abs (toCol - fromCol)) then false
  else isPathClear board fromRow fromCol toRow toCol.

Definition canQueenAttackSquare (board : Board) (fromRow fromCol toRow toCol : Z) : bool :=
  let isRookMove := (fromRow =? toRow) || (fromCol =? toCol) in
  let isBishopMove := Z.abs (toRow - fromRow) =? Z.abs (toCol - fromCol) in
  if negb isRookMove && negb isBishopMove then false
  else isPathClear board fromRow fromCol toRow toCol.

Definition canKingAttackSquare (fromRow fromCol toRow toCol : Z) : bool :=
  let rowDiff := Z.abs (toRow - fromRow) in
  let colDiff := Z.abs (toCol - fromCol) in
  (rowDiff <=? 1) && (colDiff <=? 1).

Definition canPieceAttackSquare (board : Board) (piece : ChessPiece)
    (fromRow fromCol toRow toCol : Z) : bool :=
  if (fromRow =? toRow) && (fromCol =? toCol) then false
  else match type piece with
       | pawn => canPawnAttackSquare piece fromRow fromCol toRow toCol
       | rook => canRookAttackSquare board fromRow fromCol toRow toCol
       | knight => canKnightAttackSquare fromRow fromCol toRow toCol
       | bishop => canBishopAttackSquare board fromRow fromCol toRow toCol
       | queen => canQueenAttackSquare board fromRow fromCol toRow toCol
       | king => canKingAttackSquare fromRow fromCol toRow toCol
       end.

Definition isKingOf (kingColor : Color) (o : option ChessPiece) : bool :=
  match o with
  | Some piece => bool_decide (type piece = king) && bool_decide (color piece = kingColor)
  | None => false
  end.

(** The first loop nest of [isKingInCheck]: the first king of the colour
    in row-major order, [(-1, -1)] when there is none. *)
Definition findKing (board : Board) (kingColor : Color) : Z * Z :=
  match List.find (fun '(r, c) => isKingOf kingColor (cell board r c)) squares with
  | Some sq => sq
  | None => (-1, -1)
  end.

Definition isKingInCheck (board : Board) (kingColor : Color) : bool :=
  let '(kingRow, kingCol) := findKing board kingColor in
  if kingRow =? -1 then false
  else
    let opponentColor := opponent kingColor in
    existsb (fun '(r, c) =>
               match cell board r c with
               | Some piece =>
                   bool_decide (color piece = opponentColor)
                   && canPieceAttackSquare board piece r c kingRow kingCol
               | None => false
               end) squares.

(** *** The attack map *)

Definition markPawnAttacks (piece : ChessPiece) (fromRow fromCol : Z)
    (attacked : AttackMap) : AttackMap :=
  let direction := direction (color piece) in
  let attacked :=
    if 0 <? fromCol then
      let leftRow := fromRow + direction in
      let leftCol := fromCol - 1 in
      if inBoard leftRow leftCol then markAt attacked leftRow leftCol else attacked
    else attacked in
  if fromCol <? 7 then
    let rightRow := fromRow + direction in
    let rightCol := fromCol + 1 in
    if inBoard rightRow rightCol then markAt attacked rightRow rightCol else attacked
  else attacked.

(** One ray of [markRookAttacks] or [markBishopAttacks]:
    [for (...; on the board; step) { attacked[r][c] = true;
                                     if (board[r][c] !== null) break; }]. *)
Fixpoint markRay (fuel : nat) (board : Board) (r c dr dc : Z)
    (attacked : AttackMap) : AttackMap :=
  match fuel with
  | O => attacked
  | S fuel' =>
      if inBoard r c then
        let attacked := markAt attacked r c in
        if notNull board r c then attacked
        else markRay fuel' board (r + dr) (c + dc) dr dc attacked
      else attacked
  end.

Definition markRookAttacks (board : Board) (fromRow fromCol : Z)
    (attacked : AttackMap) : AttackMap :=
  let attacked := markRay 8 board (fromRow - 1) fromCol (-1) 0 attacked in
  let attacked := markRay 8 board (fromRow + 1) fromCol 1 0 attacked in
  let attacked := markRay 8 board fromRow (fromCol - 1) 0 (-1) attacked in
  markRay 8 board fromRow (fromCol + 1) 0 1 attacked.

Definition knightMoves : list (Z * Z) :=
  [(-2, -1); (-2, 1); (-1, -2); (-1, 2); (1, -2); (1, 2); (2, -1); (2, 1)].

Definition markOffsets (offsets : list (Z * Z)) (fromRow fromCol : Z)
    (attacked : AttackMap) : AttackMap :=
  fold_left (fun attacked '(rowDiff, colDiff) =>
               let toRow := fromRow + rowDiff in
               let toCol := fromCol + colDiff in
               if inBoard toRow toCol then markAt attacked toRow toCol else attacked)
            offsets attacked.

Definition markKnightAttacks (fromRow fromCol : Z) (attacked : AttackMap) : AttackMap :=
  markOffsets knightMoves fromRow fromCol attacked.

Definition markBishopAttacks (board : Board) (fromRow fromCol : Z)
    (attacked : AttackMap) : AttackMap :=
  let attacked := markRay 8 board (fromRow - 1) (fromCol - 1) (-1) (-1) attacked in
  let attacked := markRay 8 board (fromRow - 1) (fromCol + 1) (-1) 1 attacked in
  let attacked := markRay 8 board (fromRow + 1) (fromCol - 1) 1 (-1) attacked in
  markRay 8 board (fromRow + 1) (fromCol + 1) 1 1 attacked.

Definition markQueenAttacks (board : Board) (fromRow fromCol : Z)
    (attacked : AttackMap) : AttackMap :=
  markBishopAttacks board fromRow fromCol (markRookAttacks board fromRow fromCol attacked).

(** The eight neighbours in the order of the loops over [rowDiff] and
    [colDiff], the pair [(0, 0)] skipped. *)
Definition kingOffsets : list (Z * Z) :=
  [(-1, -1); (-1, 0); (-1, 1); (0, -1); (0, 1); (1, -1); (1, 0); (1, 1)].

Definition markKingAttacks (fromRow fromCol : Z) (attacked : AttackMap) : AttackMap :=
  markOffsets kingOffsets fromRow fromCol attacked.

Definition markAttackedSquares (board : Board) (piece : ChessPiece)
    (fromRow fromCol : Z) (attacked : AttackMap) : AttackMap :=
  match type piece with
  | pawn => markPawnAttacks piece fromRow fromCol attacked
  | rook => markRookAttacks board fromRow fromCol attacked
  | knight => markKnightAttacks fromRow fromCol attacked
  | bishop => markBishopAttacks board fromRow fromCol attacked
  | queen => markQueenAttacks board fromRow fromCol attacked
  | king => markKingAttacks fromRow fromCol attacked
  end.

Definition noAttacks : AttackMap := replicate 8 (replicate 8 false).

Definition getAttackedSquares (board : Board) (c : Color) : AttackMap :=
  let opponentColor := opponent c in
  fold_left (fun attacked '(r, k) =>
               match cell board r k with
               | Some piece =>
                   if bool_decide (color piece = opponentColor)
                   then markAttackedSquares board piece r k attacked
                   else attacked
               | None => attacked
               end)
            squares noAttacks.

(** *** Moves *)

(** [{...piece, row: toRow, col: toCol}] *)
Definition movedTo (piece : ChessPiece) (toRow toCol : Z) : ChessPiece :=
  {| type := type piece; color := color piece; id := id piece;
     hasMoved := hasMoved piece; row := toRow; col := toCol |}.

(** A copy of the board with the move made on it.  The callers below
    pass squares of the board; only [getKingValidMoves] never simulates its
    castling squares. *)
Definition simulateMove (board : Board) (fromRow fromCol toRow toCol : Z)
    (piece : ChessPiece) : Board :=
  let newBoard := board in
  let newBoard := setCell newBoard toRow toCol (Some (movedTo piece toRow toCol)) in
  setCell newBoard fromRow fromCol None.

Definition sameColor (o : option ChessPiece) (piece : ChessPiece) : bool :=
  match o with
  | Some target => bool_decide (color target = color piece)
  | None => false
  end.

Definition isValidPawnMove (board : Board) (piece : ChessPiece)
    (fromRow fromCol toRow toCol : Z) : bool :=
  let direction := direction (color piece) in
  let startRow := match color piece with white => 6 | black => 1 end in
  if (toCol =? fromCol)
     && ((toRow =? fromRow + direction) && isEmptyCell (cell board toRow toCol))
  then true
  else if (toCol =? fromCol)
          && ((fromRow =? startRow)
              && (toRow =? fromRow + 2 * direction)
              && isEmptyCell (cell board (fromRow + direction) fromCol)
              && isEmptyCell (cell board toRow toCol))
  then true
  else if (Z.abs (toCol - fromCol) =? 1) && (toRow =? fromRow + direction)
          && match cell board toRow toCol with
             | Some targetPiece => negb (bool_decide (color targetPiece = color piece))
             | None => false
             end
  then true
  else false.

Definition isValidRookMove (board : Board) (piece : ChessPiece)
    (fromRow fromCol toRow toCol : Z) : bool :=
  if negb (fromRow =? toRow) && negb (fromCol =? toCol) then false
  else isPathClear board fromRow fromCol toRow toCol.

Definition isValidKnightMove (board : Board) (piece : ChessPiece)
    (fromRow fromCol toRow toCol : Z) : bool :=
  let rowDiff := Z.abs (toRow - fromRow) in
  let colDiff := Z.abs (toCol - fromCol) in
  ((rowDiff =? 2) && (colDiff =? 1)) || ((rowDiff =? 1) && (colDiff =? 2)).

Definition isValidBishopMove (board : Board) (piece : ChessPiece)
    (fromRow fromCol toRow toCol : Z) : bool :=
  if negb (Z.abs (toRow - fromRow) =? Z.abs (toCol - fromCol)) then false
  else isPathClear board fromRow fromCol toRow toCol.

Definition isValidQueenMove (board : Board) (piece : ChessPiece)
    (fromRow fromCol toRow toCol : Z) : bool :=
  let isRookMove := (fromRow =? toRow) || (fromCol =? toCol) in
  let isBishopMove := Z.abs (toRow - fromRow) =? Z.abs (toCol - fromCol) in
  if negb isRookMove && negb isBishopMove then false
  else isPathClear board fromRow fromCol toRow toCol.

(** The loop [for (col = startCol; col <= endCol; col++)
    if (board[fromRow][col] !== null) return false] of [isValidCastling]. *)
Definition betweenEmpty (board : Board) (fromRow startCol endCol : Z) : bool :=
  forallb (fun c => negb (notNull board fromRow c))
          (seqZ startCol (endCol - startCol + 1)).

(** The loop [for (col = fromCol; col !== toCol; col += step)
    if (attacked[fromRow][col]) return false]: with [step] pointing at
    [toCol] it makes [|toCol - fromCol|] rounds, the fuel it is given. *)
Fixpoint transitSafe (fuel : nat) (attacked : AttackMap)
    (fromRow c toCol step : Z) : bool :=
  match fuel with
  | O => true
  | S fuel' =>
      if negb (c =? toCol) then
        if attackedAt attacked fromRow c then false
        else transitSafe fuel' attacked fromRow (c + step) toCol step
      else true
  end.

Definition isValidCastling (board : Board) (king : ChessPiece)
    (fromRow fromCol toCol : Z) : bool :=
  if isKingInCheck board (color king) then false
  else
    let isKingside := fromCol <? toCol in
    let rookCol := if isKingside then 7 else 0 in
    match cell board fromRow rookCol with
    | None => false
    | Some rook_ =>
        if negb (bool_decide (type rook_ = rook))
           || negb (bool_decide (color rook_ = color king))
           || hasMoved rook_
        then false
        else
          let startCol := Z.min fromCol rookCol + 1 in
          let endCol := Z.max fromCol rookCol - 1 in
          if negb (betweenEmpty board fromRow startCol endCol) then false
          else
            let attackedSquares := getAttackedSquares board (color king) in
            let step := if isKingside then 1 else -1 in
            if negb (transitSafe (Z.to_nat (Z.abs (toCol - fromCol))) attackedSquares
                                 fromRow fromCol toCol step)
            then false
            else if attackedAt attackedSquares fromRow toCol then false
            else true
    end.

Definition isValidKingMove (board : Board) (piece : ChessPiece)
    (fromRow fromCol toRow toCol : Z) : bool :=
  let rowDiff := Z.abs (toRow - fromRow) in
  let colDiff := Z.abs (toCol - fromCol) in
  if (rowDiff <=? 1) && (colDiff <=? 1) then
    if sameColor (cell board toRow toCol) piece then false
    else
      let attackedSquares := getAttackedSquares board (color piece) in
      if attackedAt attackedSquares toRow toCol then false
      else
        let tempBoard := simulateMove board fromRow fromCol toRow toCol piece in
        negb (isKingInCheck tempBoard (color piece))
  else if (rowDiff =? 0) && (colDiff =? 2) && negb (hasMoved piece) then
    isValidCastling board piece fromRow fromCol toCol
  else false.

Definition isValidMove (board : Board) (piece : ChessPiece)
    (fromRow fromCol toRow toCol : Z) : bool :=
  if (fromRow =? toRow) && (fromCol =? toCol) then false
  else if (toRow <? 0) || (7 <? toRow) || (toCol <? 0) || (7 <? toCol) then false
  else if sameColor (cell board toRow toCol) piece then false
  else
    let isValid :=
      match type piece with
      | pawn => isValidPawnMove board piece fromRow fromCol toRow toCol
      | rook => isValidRookMove board piece fromRow fromCol toRow toCol
      | knight => isValidKnightMove board piece fromRow fromCol toRow toCol
      | bishop => isValidBishopMove board piece fromRow fromCol toRow toCol
      | queen => isValidQueenMove board piece fromRow fromCol toRow toCol
      | king => isValidKingMove board piece fromRow fromCol toRow toCol
      end in
    if negb isValid then false
    else
      let simulatedBoard := simulateMove board fromRow fromCol toRow toCol piece in
      if isKingInCheck simulatedBoard (color piece) then false
      else true.

Definition getKingValidMoves (board : Board) (king : ChessPiece) (r c : Z)
    : list (Z * Z) :=
  let attackedSquares := getAttackedSquares board (color king) in
  let validMoves :=
    List.filter
      (fun '(toRow, toCol) =>
         if negb (inBoard toRow toCol) then false
         else if sameColor (cell board toRow toCol) king then false
         else if attackedAt attackedSquares toRow toCol then false
         else
           let tempBoard := simulateMove board r c toRow toCol king in
           negb (isKingInCheck tempBoard (color king)))
      (map (fun '(rowDiff, colDiff) => (r + rowDiff, c + colDiff)) kingOffsets) in
  if negb (hasMoved king) && negb (isKingInCheck board (color king)) then
    let validMoves :=
      if isValidCastling board king r c (c + 2)
      then validMoves ++ [(r, c + 2)] else validMoves in
    if isValidCastling board king r c (c - 2)
    then validMoves ++ [(r, c - 2)] else validMoves
  else validMoves.

Definition getValidMoves (board : Board) (piece : ChessPiece) (r c : Z)
    : list (Z * Z) :=
  if bool_decide (type piece = king) then getKingValidMoves board piece r c
  else List.filter (fun '(toRow, toCol) => isValidMove board piece r c toRow toCol) squares.

(** The scan shared by [isCheckmate] and [isStalemate]: no piece of the
    colour has a valid move. *)
Definition noValidMoves (board : Board) (c : Color) : bool :=
  forallb (fun '(r, k) =>
             match cell board r k with
             | Some piece =>
                 if bool_decide (color piece = c)
                 then negb (0 <? Z.of_nat (length (getValidMoves board piece r k)))
                 else true
             | None => true
             end) squares.

Definition isCheckmate (board : Board) (c : Color) : bool :=
  if negb (isKingInCheck board c) then false
  else noValidMoves board c.

Definition isStalemate (board : Board) (c : Color) : bool :=
  if isKingInCheck board c then false
  else noValidMoves board c.

Definition canPromotePawn (piece : ChessPiece) (toRow : Z) : bool :=
  if negb (bool_decide (type piece = pawn)) then false
  else (bool_decide (color piece = white) && (toRow =? 0))
       || (bool_decide (color piece = black) && (toRow =? 7)).

Definition getPromotionOptions : list PieceType := [queen; rook; bishop; knight].

End ChessRules.

(** ** The session server *)

Inductive Status :=
  waiting | playing | check | checkmate | stalemate | draw | finished.

#[global] Instance Status_eq_dec : EqDecision Status.
Proof. solve_decision. Defined.

Record Player := mkPlayer {
  playerId : string;
  name : string;
  playerColor : Color;
  connectedAt : Z
}.

Record CastlingRights := mkRights {
  white_kingside : bool;
  white_queenside : bool;
  black_kingside : bool;
  black_queenside : bool
}.

(** [GameState.lastMove]; positions are pairs [(row, col)]. *)
Record LastMove := mkLastMove {
  from : Z * Z;
  to : Z * Z;
  piece : ChessPiece;
  movePlayerId : string;
  timestamp : Z;
  promotion : option PieceType;
  isCastle : option bool;
  isEnPassant : option bool
}.

(** [lastMove.isCastle = true] and [lastMove.promotion = promotionType] *)
Definition set_isCastle (v : bool) (lm : LastMove) : LastMove :=
  {| from := from lm; to := to lm; piece := piece lm;
     movePlayerId := movePlayerId lm; timestamp := timestamp lm;
     promotion := promotion lm; isCastle := Some v; isEnPassant := isEnPassant lm |}.

Definition set_promotion (v : PieceType) (lm : LastMove) : LastMove :=
  {| from := from lm; to := to lm; piece := piece lm;
     movePlayerId := movePlayerId lm; timestamp := timestamp lm;
     promotion := Some v; isCastle := isCastle lm; isEnPassant := isEnPassant lm |}.

(** [GameState]; an optional field that is [undefined] is [None].  The
    flags [check], [checkmate] and [stalemate] carry a trailing underscore,
    the names being taken by the status values. *)
Record GameState := mkGame {
  gameId : string;
  players : list Player;
  board : Board;
  currentTurn : Color;
  status : Status;
  winner : option Color;
  check_ : option bool;
  checkmate_ : option bool;
  stalemate_ : option bool;
  enPassantTarget : option (Z * Z);
  castlingRights : CastlingRights;
  halfMoveClock : Z;
  fullMoveNumber : Z;
  lastMove : option LastMove
}.

Definition typeName (t : PieceType) : string :=
  match t with
  | pawn => "pawn" | rook => "rook" | knight => "knight"
  | bishop => "bishop" | queen => "queen" | king => "king"
  end.

Definition colorName (c : Color) : string :=
  match c with white => "white" | black => "black" end.

Definition pieceOrder : list PieceType :=
  [rook; knight; bishop; queen; king; bishop; knight; rook].

(** [pieceOrder.forEach((type, col) => board[r][col] = {...})] *)
Definition backRank (c : Color) (r : Z) : list (option ChessPiece) :=
  imap (fun k t =>
          Some {| type := t; color := c;
                  id := colorName c +:+ "_" +:+ typeName t +:+ "_" +:+ pretty (Z.of_nat k);
                  hasMoved := false; row := r; col := Z.of_nat k |})
       pieceOrder.

Definition pawnRank (c : Color) (r : Z) : list (option ChessPiece) :=
  map (fun k =>
         Some {| type := pawn; color := c;
                 id := colorName c +:+ "_pawn_" +:+ pretty k;
                 hasMoved := false; row := r; col := k |})
      (seqZ 0 8).

Definition createInitialBoard : Board :=
  let board : Board := replicate 8 (replicate 8 None) in
  let board := <[0%nat := backRank black 0]> board in
  let board := <[1%nat := pawnRank black 1]> board in
  let board := <[6%nat := pawnRank white 6]> board in
  <[7%nat := backRank white 7]> board.

Definition createGame (gameId : string) : GameState :=
  {| gameId := gameId;
     players := [];
     board := createInitialBoard;
     currentTurn := white;
     status := waiting;
     winner := None;
     check_ := None; checkmate_ := None; stalemate_ := None;
     enPassantTarget := None;
     castlingRights := {| white_kingside := true; white_queenside := true;
                          black_kingside := true; black_queenside := true |};
     halfMoveClock := 0;
     fullMoveNumber := 1;
     lastMove := None |}.

(** *** Field updates of the session *)

Definition set_board (f : Board -> Board) (g : GameState) : GameState :=
  {| gameId := gameId g; players := players g; board := f (board g);
     currentTurn := currentTurn g; status := status g; winner := winner g;
     check_ := check_ g; checkmate_ := checkmate_ g; stalemate_ := stalemate_ g;
     enPassantTarget := enPassantTarget g; castlingRights := castlingRights g;
     halfMoveClock := halfMoveClock g; fullMoveNumber := fullMoveNumber g;
     lastMove := lastMove g |}.

Definition set_players (f : list Player -> list Player) (g : GameState) : GameState :=
  {| gameId := gameId g; players := f (players g); board := board g;
     currentTurn := currentTurn g; status := status g; winner := winner g;
     check_ := check_ g; checkmate_ := checkmate_ g; stalemate_ := stalemate_ g;
     enPassantTarget := enPassantTarget g; castlingRights := castlingRights g;
     halfMoveClock := halfMoveClock g; fullMoveNumber := fullMoveNumber g;
     lastMove := lastMove g |}.

Definition set_currentTurn (c : Color) (g : GameState) : GameState :=
  {| gameId := gameId g; players := players g; board := board g;
     currentTurn := c; status := status g; winner := winner g;
     check_ := check_ g; checkmate_ := checkmate_ g; stalemate_ := stalemate_ g;
     enPassantTarget := enPassantTarget g; castlingRights := castlingRights g;
     halfMoveClock := halfMoveClock g; fullMoveNumber := fullMoveNumber g;
     lastMove := lastMove g |}.

Definition set_status (s : Status) (g : GameState) : GameState :=
  {| gameId := gameId g; players := players g; board := board g;
     currentTurn := currentTurn g; status := s; winner := winner g;
     check_ := check_ g; checkmate_ := checkmate_ g; stalemate_ := stalemate_ g;
     enPassantTarget := enPassantTarget g; castlingRights := castlingRights g;
     halfMoveClock := halfMoveClock g; fullMoveNumber := fullMoveNumber g;
     lastMove := lastMove g |}.

Definition set_winner (w : option Color) (g : GameState) : GameState :=
  {| gameId := gameId g; players := players g; board := board g;
     currentTurn := currentTurn g; status := status g; winner := w;
     check_ := check_ g; checkmate_ := checkmate_ g; stalemate_ := stalemate_ g;
     enPassantTarget := enPassantTarget g; castlingRights := castlingRights g;
     halfMoveClock := halfMoveClock g; fullMoveNumber := fullMoveNumber g;
     lastMove := lastMove g |}.

(** [game.check = c; game.checkmate = m; game.stalemate = s] *)
Definition set_flags (c m s : bool) (g : GameState) : GameState :=
  {| gameId := gameId g; players := players g; board := board g;
     currentTurn := currentTurn g; status := status g; winner := winner g;
     check_ := Some c; checkmate_ := Some m; stalemate_ := Some s;
     enPassantTarget := enPassantTarget g; castlingRights := castlingRights g;
     halfMoveClock := halfMoveClock g; fullMoveNumber := fullMoveNumber g;
     lastMove := lastMove g |}.

Definition set_castlingRights (f : CastlingRights -> CastlingRights) (g : GameState)
    : GameState :=
  {| gameId := gameId g; players := players g; board := board g;
     currentTurn := currentTurn g; status := status g; winner := winner g;
     check_ := check_ g; checkmate_ := checkmate_ g; stalemate_ := stalemate_ g;
     enPassantTarget := enPassantTarget g; castlingRights := f (castlingRights g);
     halfMoveClock := halfMoveClock g; fullMoveNumber := fullMoveNumber g;
     lastMove := lastMove g |}.

Definition set_halfMoveClock (n : Z) (g : GameState) : GameState :=
  {| gameId := gameId g; players := players g; board := board g;
     currentTurn := currentTurn g; status := status g; winner := winner g;
     check_ := check_ g; checkmate_ := checkmate_ g; stalemate_ := stalemate_ g;
     enPassantTarget := enPassantTarget g; castlingRights := castlingRights g;
     halfMoveClock := n; fullMoveNumber := fullMoveNumber g;
     lastMove := lastMove g |}.

Definition set_fullMoveNumber (n : Z) (g : GameState) : GameState :=
  {| gameId := gameId g; players := players g; board := board g;
     currentTurn := currentTurn g; status := status g; winner := winner g;
     check_ := check_ g; checkmate_ := checkmate_ g; stalemate_ := stalemate_ g;
     enPassantTarget := enPassantTarget g; castlingRights := castlingRights g;
     halfMoveClock := halfMoveClock g; fullMoveNumber := n;
     lastMove := lastMove g |}.

Definition set_lastMove (f : option LastMove -> option LastMove) (g : GameState)
    : GameState :=
  {| gameId := gameId g; players := players g; board := board g;
     currentTurn := currentTurn g; status := status g; winner := winner g;
     check_ := check_ g; checkmate_ := checkmate_ g; stalemate_ := stalemate_ g;
     enPassantTarget := enPassantTarget g; castlingRights := castlingRights g;
     halfMoveClock := halfMoveClock g; fullMoveNumber := fullMoveNumber g;
     lastMove := f (lastMove g) |}.

(** *** [updateGameStatus] *)

Definition updateGameStatus (game : GameState) : GameState :=
  let whiteInCheck := ChessRules.isKingInCheck (board game) white in
  let blackInCheck := ChessRules.isKingInCheck (board game) black in
  let whiteCheckmate := ChessRules.isCheckmate (board game) white in
  let blackCheckmate := ChessRules.isCheckmate (board game) black in
  let whiteStalemate := ChessRules.isStalemate (board game) white in
  let blackStalemate := ChessRules.isStalemate (board game) black in
  let game :=
    if whiteCheckmate then
      set_flags false true false (set_winner (Some black) (set_status checkmate game))
    else if blackCheckmate then
      set_flags false true false (set_winner (Some white) (set_status checkmate game))
    else if whiteStalemate || blackStalemate then
      set_winner None (set_flags false false true (set_status stalemate game))
    else if whiteInCheck && bool_decide (currentTurn game = white) then
      set_flags true false false (set_status check game)
    else if blackInCheck && bool_decide (currentTurn game = black) then
      set_flags true false false (set_status check game)
    else
      set_winner None (set_flags false false false (set_status playing game)) in
  if 100 <=? halfMoveClock game then set_status draw game else game.

(** *** Handlers: a state monad with early return

    A handler reads and assigns the fields of one [GameState] and may
    [return] early; [Returned why] records which early return was taken and
    the state is whatever the assignments made so far have left. *)

Inductive Rejection :=
  | GameFull            (* handleJoin: two players are already in *)
  | NotInPlayingState   (* handleMove: status !== 'playing' *)
  | NotYourTurn         (* handleMove: piece.color !== currentTurn *)
  | NoPieceAtFrom       (* handleMove: empty origin square *)
  | PieceMismatch       (* handleMove: the ids differ *)
  | InvalidMove         (* handleMove: isValidMove is false *)
  | NotAPawn            (* handlePromotion: nothing to promote *)
  | TypeError.          (* a row index outside the board: the exception
                           propagates to the message loop *)

Inductive Outcome (A : Type) :=
  | Finished (a : A)
  | Returned (why : Rejection).

Arguments Finished {A} a.

Arguments Returned {A} why.

Definition Handler (A : Type) : Type := GameState -> Outcome A * GameState.

#[global] Instance Handler_ret : MRet Handler :=
  fun A a g => (Finished a, g).

#[global] Instance Handler_bind : MBind Handler :=
  fun A B k m g =>
    match m g with
    | (Finished a, g') => k a g'
    | (Returned why, g') => (Returned why, g')
    end.

Definition get : Handler GameState := fun g => (Finished g, g).

Definition modify (f : GameState -> GameState) : Handler unit := fun g => (Finished tt, f g).

Definition reject {A} (why : Rejection) : Handler A := fun g => (Returned why, g).

Definition skip : Handler unit := mret tt.

Definition onBoardRow (r : Z) : bool := (0 <=? r) && (r <? 8).

(** *** [handleJoin] *)

(** [playerName] is [None] for a name that is missing or empty, [newPlayerId]
    and [now] stand for the random id and the clock of the server. *)
Definition handleJoin (newPlayerId : string) (playerName : option string) (now : Z)
    : Handler unit :=
  game ← get;
  if 2 <=? Z.of_nat (length (players game)) then reject GameFull
  else
    let c := if Z.of_nat (length (players game)) =? 0 then white else black in
    let player :=
      {| playerId := newPlayerId;
         name := default ("Player " +:+ pretty (Z.of_nat (length (players game)) + 1))
                         playerName;
         playerColor := c;
         connectedAt := now |} in
    modify (set_players (fun ps => ps ++ [player]));;
    game ← get;
    modify (set_status (if Z.of_nat (length (players game)) =? 2 then playing else waiting)).

(** *** [handleMove] and its helpers *)

(** The payload of a ['move'] message, with the sender's id. *)
Record MoveMessage := mkMove {
  payload_from : Z * Z;
  payload_to : Z * Z;
  payload_piece : ChessPiece;
  payload_promotion : option PieceType;
  message_playerId : string
}.

Definition handleCastling (from to : Z * Z) (king_ : ChessPiece) : Handler unit :=
  let isKingside := from.2 <? to.2 in
  let rookFromCol := if isKingside then 7 else 0 in
  let rookToCol := if isKingside then to.2 - 1 else to.2 + 1 in
  game ← get;
  match cell (board game) from.1 rookFromCol with
  | Some rook_ =>
      if bool_decide (type rook_ = rook) then
        let rook_ := {| type := type rook_; color := color rook_; id := id rook_;
                        hasMoved := true; row := from.1; col := rookToCol |} in
        modify (set_board (fun b => setCell b from.1 rookToCol (Some rook_)));;
        modify (set_board (fun b => setCell b from.1 rookFromCol None));;
        modify (set_lastMove (fmap (set_isCastle true)))
      else skip
  | None => skip
  end.

Definition updateCastlingRights (piece : ChessPiece) (from : Z * Z) : Handler unit :=
  if bool_decide (type piece = king) then
    if bool_decide (color piece = white) then
      modify (set_castlingRights (fun cr =>
        {| white_kingside := false; white_queenside := false;
           black_kingside := black_kingside cr; black_queenside := black_queenside cr |}))
    else
      modify (set_castlingRights (fun cr =>
        {| white_kingside := white_kingside cr; white_queenside := white_queenside cr;
           black_kingside := false; black_queenside := false |}))
  else if bool_decide (type piece = rook) then
    if bool_decide (color piece = white) then
      game ← get;
      (if (from.2 =? 0) && white_queenside (castlingRights game) then
         modify (set_castlingRights (fun cr =>
           {| white_kingside := white_kingside cr; white_queenside := false;
              black_kingside := black_kingside cr; black_queenside := black_queenside cr |}))
       else skip);;
      game ← get;
      (if (from.2 =? 7) && white_kingside (castlingRights game) then
         modify (set_castlingRights (fun cr =>
           {| white_kingside := false; white_queenside := white_queenside cr;
              black_kingside := black_kingside cr; black_queenside := black_queenside cr |}))
       else skip)
    else
      game ← get;
      (if (from.2 =? 0) && black_queenside (castlingRights game) then
         modify (set_castlingRights (fun cr =>
           {| white_kingside := white_kingside cr; white_queenside := white_queenside cr;
              black_kingside := black_kingside cr; black_queenside := false |}))
       else skip);;
      game ← get;
      (if (from.2 =? 7) && black_kingside (castlingRights game) then
         modify (set_castlingRights (fun cr =>
           {| white_kingside := white_kingside cr; white_queenside := white_queenside cr;
              black_kingside := false; black_queenside := black_queenside cr |}))
       else skip)
  else skip.

(** [`${piece.color}_${promotionType}_promoted_${Date.now()}`] *)
Definition promotedId (c : Color) (promotionType : PieceType) (now : Z) : string :=
  colorName c +:+ "_" +:+ typeName promotionType +:+ "_promoted_" +:+ pretty now.

(** The special moves of [handleMove]; the result is the payload piece as
    the promotion branch leaves it. *)
Definition specialMoves (from to : Z * Z) (piece : ChessPiece)
    (promotion : option PieceType) (now : Z) : Handler ChessPiece :=
  game ← get;
  if bool_decide (type piece = king) && (Z.abs (to.2 - from.2) =? 2) then
    handleCastling from to piece;; mret piece
  else if bool_decide (type piece = pawn) && negb (from.2 =? to.2)
          && isEmptyCell (cell (board game) to.1 to.2) then
    let capturedPawnRow :=
      if bool_decide (color piece = white) then to.1 + 1 else to.1 - 1 in
    modify (set_board (fun b => setCell b capturedPawnRow to.2 None));;
    mret piece
  else if bool_decide (type piece = pawn) && ChessRules.canPromotePawn piece to.1 then
    let promotionType := default queen promotion in
    modify (set_lastMove (fmap (set_promotion promotionType)));;
    mret {| type := promotionType; color := color piece;
            id := promotedId (color piece) promotionType now;
            hasMoved := hasMoved piece; row := row piece; col := col piece |}
  else mret piece.

(** [handleMove] past its last early return: the move is applied. *)
Definition applyMove (message : MoveMessage) (now : Z) : Handler unit :=
  let from := payload_from message in
  let to := payload_to message in
  let piece := payload_piece message in
  let promotion := payload_promotion message in
  piece ← specialMoves from to piece promotion now;
  let piece := {| type := type piece; color := color piece; id := id piece;
                  hasMoved := true; row := to.1; col := to.2 |} in
  updateCastlingRights piece from;;
  modify (set_board (fun b => setCell b to.1 to.2 (Some piece)));;
  modify (set_board (fun b => setCell b from.1 from.2 None));;
  game ← get;
  (if bool_decide (type piece = pawn)
      || negb (isEmptyCell (cell (board game) to.1 to.2))
   then modify (set_halfMoveClock 0)
   else modify (set_halfMoveClock (halfMoveClock game + 1)));;
  game ← get;
  (if bool_decide (currentTurn game = black)
   then modify (set_fullMoveNumber (fullMoveNumber game + 1))
   else skip);;
  game ← get;
  modify (set_currentTurn
            (if bool_decide (currentTurn game = white) then black else white));;
  modify updateGameStatus;;
  modify (set_lastMove (fun _ => Some
    {| from := from; to := to; piece := piece;
       movePlayerId := message_playerId message; timestamp := now;
       promotion := promotion; isCastle := None; isEnPassant := None |})).

Definition handleMove (message : MoveMessage) (now : Z) : Handler unit :=
  let from := payload_from message in
  let to := payload_to message in
  let piece := payload_piece message in
  game ← get;
  if negb (bool_decide (status game = playing)) then reject NotInPlayingState
  else if negb (bool_decide (color piece = currentTurn game)) then reject NotYourTurn
  else if negb (onBoardRow from.1) then reject TypeError
  else
    match cell (board game) from.1 from.2 with
    | None => reject NoPieceAtFrom
    | Some actualPiece =>
        if negb (bool_decide (id actualPiece = id piece)) then reject PieceMismatch
        else if negb (ChessRules.isValidMove (board game) piece from.1 from.2 to.1 to.2)
        then
          (* the diagnostics read board[to.row][to.col] before the error
             message is sent *)
          if negb (onBoardRow to.1) then reject TypeError else reject InvalidMove
        else applyMove message now
    end.

(** *** [handlePromotion] *)

Definition handlePromotion (r c : Z) (promotionType : PieceType) (now : Z)
    : Handler unit :=
  game ← get;
  if negb (onBoardRow r) then reject TypeError
  else
    match cell (board game) r c with
    | Some piece =>
        if bool_decide (type piece = pawn) then
          let piece := {| type := promotionType; color := color piece;
                          id := promotedId (color piece) promotionType now;
                          hasMoved := hasMoved piece; row := row piece; col := col piece |} in
          modify (set_board (fun b => setCell b r c (Some piece)));;
          modify updateGameStatus
        else reject NotAPawn
    | None => reject NotAPawn
    end.


(** ** The client: [GameService] *)

Module GameService.





End GameService.

(** ** The client: [ChessBoardComponent] *)

Module ChessBoardComponent.

(** [addChatMessage]: the list [chatMessages] it leaves; [time] is the
    clock of the browser, formatted. *)
Definition addChatMessage (chatMessages : list (string * string)) (time text : string)
    : list (string * string) :=
  let chatMessages := chatMessages ++ [(time, text)] in
  if 20 <? Z.of_nat (length chatMessages)
  then drop (length chatMessages - 20) chatMessages   (* slice(-20) *)
  else chatMessages.

End ChessBoardComponent.

(** * Vocabulary of the properties *)

(** ** Concrete sessions *)

(** The session after [createGame] and the two ['join'] messages. *)
Definition startedGame : GameState :=
  snd (handleJoin "player_2" None 0
         (snd (handleJoin "player_1" None 0 (createGame "default-game")))).

Definition noPiece : ChessPiece :=
  {| type := pawn; color := white; id := ""; hasMoved := false; row := 0; col := 0 |}.

(** The ['move'] message of a client that sends back the piece it was
    shown on the square [from]. *)
Definition requestOf (g : GameState) (from to : Z * Z) : MoveMessage :=
  {| payload_from := from; payload_to := to;
     payload_piece := default noPiece (cell (board g) from.1 from.2);
     payload_promotion := None;
     message_playerId := "" |}.

Fixpoint playMoves (g : GameState) (moves : list ((Z * Z) * (Z * Z))) : GameState :=
  match moves with
  | [] => g
  | (from, to) :: moves => playMoves (snd (handleMove (requestOf g from to) 0 g)) moves
  end.

(** What a board shows of its pieces: colour, kind and the moved flag. *)
Definition boardView (b : Board) : list (list (option (Color * PieceType * bool))) :=
  map (map (fmap (fun p => (color p, type p, hasMoved p)))) b.

(** After 1. e4 d6 2. Bb5+ the black king is in check. *)
Definition checkedGame : GameState :=
  playMoves startedGame [((6, 4), (4, 4)); ((1, 3), (2, 3)); ((7, 5), (3, 1))].

(** After 1. e4 a6 2. e5 d5 the black pawn has just passed the white pawn
    on e5 by a two-square advance. *)
Definition enPassantGame : GameState :=
  playMoves startedGame
    [((6, 4), (4, 4)); ((1, 0), (2, 0)); ((4, 4), (3, 4)); ((1, 3), (3, 3))].

(** After 1. f3 e5 2. g4 Qh4 white is checkmated. *)
Definition foolsMate : GameState :=
  playMoves startedGame
    [((6, 5), (5, 5)); ((1, 4), (3, 4)); ((6, 6), (4, 6)); ((0, 3), (4, 7))].


(** After 1. e4 e5 2. Nf3 Nc6 3. Bc4 Bc5 white may castle on the king's
    side. *)
Definition castleReadyGame : GameState :=
  playMoves startedGame
    [((6, 4), (4, 4)); ((1, 4), (3, 4)); ((7, 6), (5, 5)); ((0, 1), (2, 2));
     ((7, 5), (4, 2)); ((0, 5), (3, 2))].

(** The white king of [castleReadyGame], on e1. *)
Definition castleReadyKing : ChessPiece :=
  default noPiece (cell (board castleReadyGame) 7 4).

(** A black king on e8, a white pawn on a2 blocked by a black pawn on a3:
    white has no king and no move. *)
Definition kinglessBoard : Board :=
  let b : Board := replicate 8 (replicate 8 None) in
  let b := setCell b 0 4 (Some (mkPiece king black "black_king_4" false 0 4)) in
  let b := setCell b 5 0 (Some (mkPiece pawn black "black_pawn_0" true 5 0)) in
  setCell b 6 0 (Some (mkPiece pawn white "white_pawn_0" false 6 0)).

(** Two promotion requests on the start position, for the unmoved pawns
    g2 and h2, asking for a king and for a rook. *)
Definition unguardedPromotions : GameState :=
  snd (handlePromotion 6 7 rook 0 (snd (handlePromotion 6 6 king 0 startedGame))).


(** White's first move 1. e4, white's castling in [castleReadyGame] and
    black's mating move 2... Qh4 in [beforeMate], as requests. *)
Definition openingRequest : MoveMessage := requestOf startedGame (6, 4) (4, 4).

Definition castlingRequest : MoveMessage := requestOf castleReadyGame (7, 4) (7, 6).


(** ** Boards, handlers and reachable sessions *)

Definition wfGrid {A} (g : list (list A)) : Prop :=
  length g = 8%nat /\ Forall (fun cells => length cells = 8%nat) g.

Definition ensures {A} (h : Handler A) (g : GameState)
    (Q : A -> GameState -> Prop) : Prop :=
  exists a g', h g = (Finished a, g') /\ Q a g'.

(** How a handler may change the board: squares keep their piece, lose
    it, or receive a piece that is marked as moved or is no king. *)
Definition boardStep (b b' : Board) : Prop :=
  (wfGrid b -> wfGrid b') /\
  forall r c p, cell b' r c = Some p ->
                cell b r c = Some p \/ hasMoved p = true \/ type p <> king.

(** The sessions the server can be in: a session is created, players
    join, move requests of any content arrive, and promotions are
    requested to one of [getPromotionOptions]. *)
Inductive reachable : GameState -> Prop :=
  | reachable_created gameId :
      reachable (createGame gameId)
  | reachable_join g newPlayerId playerName now :
      reachable g -> reachable (snd (handleJoin newPlayerId playerName now g))
  | reachable_move g message now :
      reachable g -> reachable (snd (handleMove message now g))
  | reachable_promotion g r c promotionType now :
      reachable g -> In promotionType ChessRules.getPromotionOptions ->
      reachable (snd (handlePromotion r c promotionType now g)).

(** The boards on which the two agree: 8 by 8 boards whose kings, as long
    as they are marked unmoved, stand on column 4. *)
Definition kingsAtHome (b : Board) : Prop :=
  wfGrid b /\
  forall r c p, cell b r c = Some p -> type p = king -> hasMoved p = false -> c = 4.

(** ** Applied moves and what the handlers keep *)

(** The requests [handleMove] accepts. *)
Definition acceptable (m : MoveMessage) (g : GameState) : Prop :=
  status g = playing
  /\ color (payload_piece m) = currentTurn g
  /\ (exists actual, cell (board g) (payload_from m).1 (payload_from m).2 = Some actual
                     /\ id actual = id (payload_piece m))
  /\ ChessRules.isValidMove (board g) (payload_piece m)
       (payload_from m).1 (payload_from m).2 (payload_to m).1 (payload_to m).2 = true.

(** [piece.row = to.row; piece.col = to.col; piece.hasMoved = true] *)
Definition arrived (p : ChessPiece) (to : Z * Z) : ChessPiece :=
  {| type := type p; color := color p; id := id p;
     hasMoved := true; row := to.1; col := to.2 |}.

(** The piece a move puts on its destination: the piece of the message,
    promoted when it is a pawn that [canPromotePawn]. *)
Definition promoted (p : ChessPiece) (to : Z * Z) (promotion : option PieceType)
    (now : Z) : ChessPiece :=
  if bool_decide (type p = pawn) && ChessRules.canPromotePawn p to.1 then
    {| type := default queen promotion; color := color p;
       id := promotedId (color p) (default queen promotion) now;
       hasMoved := hasMoved p; row := row p; col := col p |}
  else p.

(** The castling rights [updateCastlingRights] leaves when the piece [p]
    has left column [fromCol]. *)
Definition rightsAfter (p : ChessPiece) (fromCol : Z) (cr : CastlingRights)
    : CastlingRights :=
  match type p, color p with
  | king, white =>
      {| white_kingside := false; white_queenside := false;
         black_kingside := black_kingside cr; black_queenside := black_queenside cr |}
  | king, black =>
      {| white_kingside := white_kingside cr; white_queenside := white_queenside cr;
         black_kingside := false; black_queenside := false |}
  | rook, white =>
      {| white_kingside := white_kingside cr && negb (fromCol =? 7);
         white_queenside := white_queenside cr && negb (fromCol =? 0);
         black_kingside := black_kingside cr; black_queenside := black_queenside cr |}
  | rook, black =>
      {| white_kingside := white_kingside cr; white_queenside := white_queenside cr;
         black_kingside := black_kingside cr && negb (fromCol =? 7);
         black_queenside := black_queenside cr && negb (fromCol =? 0) |}
  | _, _ => cr
  end.

(** No right is granted: a right that holds afterwards held before. *)
Definition revokedOnly (old new : CastlingRights) : Prop :=
  (white_kingside new = true -> white_kingside old = true)
  /\ (white_queenside new = true -> white_queenside old = true)
  /\ (black_kingside new = true -> black_kingside old = true)
  /\ (black_queenside new = true -> black_queenside old = true).

(** The fields that neither the special moves nor the update of the
    castling rights touch. *)
Definition sameTable (g g' : GameState) : Prop :=
  gameId g' = gameId g /\ players g' = players g /\ currentTurn g' = currentTurn g
  /\ status g' = status g /\ winner g' = winner g
  /\ halfMoveClock g' = halfMoveClock g /\ fullMoveNumber g' = fullMoveNumber g
  /\ enPassantTarget g' = enPassantTarget g.

(** How a handler may change a square: it keeps its piece, receives a
    piece that is marked as moved and carries the coordinates of the
    square, or has its pawn promoted. *)
Definition squareStep (b b' : Board) : Prop :=
  (wfGrid b -> wfGrid b') /\
  forall r c p, cell b' r c = Some p ->
    cell b r c = Some p
    \/ (hasMoved p = true /\ row p = r /\ col p = c)
    \/ exists q, cell b r c = Some q /\ type q = pawn /\ type p <> king
                 /\ color p = color q
                 /\ hasMoved p = hasMoved q /\ row p = row q /\ col p = col q.

(** The fields [row] and [col] of every piece are the coordinates of its
    square. *)
Definition placed (b : Board) : Prop :=
  forall r c p, cell b r c = Some p -> row p = r /\ col p = c.

(** A piece that is marked unmoved stands where [createInitialBoard] put
    it: it is that piece, or the pawn of that square promoted to a piece
    that is no king. *)
Definition unmovedAtStart (b : Board) : Prop :=
  forall r c p, cell b r c = Some p -> hasMoved p = false ->
    exists p0, cell createInitialBoard r c = Some p0 /\ color p = color p0
               /\ (p = p0 \/ (type p0 = pawn /\ type p <> king)).

(** The status, the winner and the three flags of a session say nothing
    the board does not show. *)
Definition statusSound (g : GameState) : Prop :=
  match status g with
  | checkmate =>
      exists c, ChessRules.isCheckmate (board g) c = true /\ winner g = Some (opponent c)
  | stalemate =>
      (exists c, ChessRules.isStalemate (board g) c = true) /\ winner g = None
  | check => ChessRules.isKingInCheck (board g) (currentTurn g) = true
  | waiting | playing => True
  | draw | finished => False
  end
  /\ (checkmate_ g = Some true -> exists c, ChessRules.isCheckmate (board g) c = true)
  /\ (stalemate_ g = Some true -> exists c, ChessRules.isStalemate (board g) c = true)
  /\ (check_ g = Some true ->
      ChessRules.isKingInCheck (board g) (currentTurn g) = true).


(** ** Kings, castling and attacks *)

Definition kingless (b : Board) (c : Color) : Prop :=
  forall r k p, cell b r k = Some p -> type p = king -> color p <> c.

Definition immobile (b : Board) (c : Color) : Prop :=
  forall r k p, cell b r k = Some p -> color p = c ->
                ChessRules.getValidMoves b p r k = [].

(** The five preconditions of castling, for the king [k] standing on
    [(fromRow, fromCol)] and asked to go to column [toCol]. *)
Record castlingPreconditions (b : Board) (k : ChessPiece)
    (fromRow fromCol toCol : Z) : Prop := {
  king_never_moved : hasMoved k = false;
  king_not_in_check : ChessRules.isKingInCheck b (color k) = false;
  rook_in_corner :
    exists r, cell b fromRow (if fromCol <? toCol then 7 else 0) = Some r
              /\ type r = rook /\ color r = color k /\ hasMoved r = false;
  squares_between_empty :
    forall c, Z.min fromCol (if fromCol <? toCol then 7 else 0) < c
              < Z.max fromCol (if fromCol <? toCol then 7 else 0) ->
              cell b fromRow c = None;
  transit_not_attacked :
    forall c, Z.min fromCol toCol <= c <= Z.max fromCol toCol ->
              attackedAt (ChessRules.getAttackedSquares b (color k)) fromRow c = false
}.

(** A way of marking squares that keeps the map well formed and never
    unmarks a square. *)
Definition marking (f : AttackMap -> AttackMap) : Prop :=
  forall a, wfGrid a ->
    wfGrid (f a) /\ forall r c, attackedAt a r c = true -> attackedAt (f a) r c = true.

(** The squares at distances [1 .. m-1] from [(fr, fc)] in the direction
    [(dr, dc)] are on the board and empty. *)
Definition clearLine (b : Board) (fr fc dr dc m : Z) : Prop :=
  forall i, 1 <= i < m ->
    inBoard (fr + i * dr) (fc + i * dc) = true /\ cell b (fr + i * dr) (fc + i * dc) = None.

Definition unitStep (dr dc : Z) : Prop :=
  -1 <= dr <= 1 /\ -1 <= dc <= 1 /\ (dr <> 0 \/ dc <> 0).

Definition slider (t : PieceType) : bool :=
  match t with rook | bishop | queen => true | _ => false end.

(** The directions a sliding piece moves in. *)
Definition lineOf (t : PieceType) (dr dc : Z) : Prop :=
  match t with
  | rook => dr = 0 \/ dc = 0
  | bishop => dr <> 0 /\ dc <> 0
  | queen => True
  | _ => False
  end.

Definition attacksAlong (b : Board) (t : PieceType) (pr pc tr tc : Z) : Prop :=
  exists dr dc m,
    unitStep dr dc /\ lineOf t dr dc /\ 1 <= m
    /\ tr = pr + m * dr /\ tc = pc + m * dc /\ clearLine b pr pc dr dc m.

(** The position of a square in the scan of the board. *)
Definition scanIndex (sq : Z * Z) : Z := 8 * sq.1 + sq.2.

(** * Properties *)

(** ** Arrays of arrays *)

Lemma inBoard_true r c : inBoard r c = true <-> 0 <= r < 8 /\ 0 <= c < 8.
Proof. unfold inBoard. rewrite !andb_true_iff. lia. Qed.

Lemma inBoard_false r c : inBoard r c = false <-> ~ (0 <= r < 8 /\ 0 <= c < 8).
Proof. rewrite <- inBoard_true. destruct (inBoard r c); intuition congruence. Qed.

Lemma gridGet_outside {A} (g : list (list A)) r c :
  inBoard r c = false -> gridGet g r c = None.
Proof. unfold gridGet. by intros ->. Qed.

Lemma gridGet_inside {A} (g : list (list A)) r c :
  wfGrid g -> inBoard r c = true -> is_Some (gridGet g r c).
Proof.
  intros [Hlen Hrows] Hin. unfold gridGet. rewrite Hin.
  apply inBoard_true in Hin.
  destruct (lookup_lt_is_Some_2 g (Z.to_nat r)) as [cells Hcells]; [lia|].
  rewrite Hcells. apply lookup_lt_is_Some_2.
  rewrite Forall_lookup in Hrows. rewrite (Hrows _ _ Hcells). lia.
Qed.

Lemma gridGet_gridSet_eq {A} (g : list (list A)) r c v :
  wfGrid g -> inBoard r c = true -> gridGet (gridSet g r c v) r c = Some v.
Proof.
  intros [Hlen Hrows] Hin. unfold gridGet, gridSet. rewrite Hin.
  apply inBoard_true in Hin.
  destruct (lookup_lt_is_Some_2 g (Z.to_nat r)) as [cells Hcells]; [lia|].
  rewrite list_lookup_alter_eq, Hcells. simpl.
  apply list_lookup_insert_eq.
  rewrite Forall_lookup in Hrows. rewrite (Hrows _ _ Hcells). lia.
Qed.

Lemma gridGet_gridSet_ne {A} (g : list (list A)) r c v r' c' :
  (r, c) <> (r', c') -> gridGet (gridSet g r c v) r' c' = gridGet g r' c'.
Proof.
  intros Hne. unfold gridGet, gridSet.
  destruct (inBoard r c) eqn:Hin; [|done].
  destruct (inBoard r' c') eqn:Hin'; [|done].
  apply inBoard_true in Hin, Hin'.
  destruct (decide (r = r')) as [->|Hr].
  - rewrite list_lookup_alter_eq. destruct (g !! Z.to_nat r') as [cells|]; [|done].
    simpl. apply list_lookup_insert_ne. intros Heq.
    apply Hne. f_equal. lia.
  - rewrite list_lookup_alter_ne; [done|]. lia.
Qed.

Lemma wfGrid_gridSet {A} (g : list (list A)) r c v :
  wfGrid g -> wfGrid (gridSet g r c v).
Proof.
  intros [Hlen Hrows]. unfold gridSet. destruct (inBoard r c); [|done].
  split; [by rewrite length_alter|].
  rewrite Forall_lookup in *. intros i cells.
  destruct (decide (i = Z.to_nat r)) as [->|Hi].
  - rewrite list_lookup_alter_eq. destruct (g !! Z.to_nat r) as [cells'|] eqn:E; [|done].
    simpl. intros [= <-]. rewrite length_insert. eauto.
  - rewrite list_lookup_alter_ne by done. eauto.
Qed.

Lemma cell_outside b r c : inBoard r c = false -> cell b r c = None.
Proof. intros H. unfold cell. by rewrite gridGet_outside. Qed.

Lemma cell_setCell_eq b r c v :
  wfGrid b -> inBoard r c = true -> cell (setCell b r c v) r c = v.
Proof. intros Hwf Hin. unfold cell, setCell. by rewrite gridGet_gridSet_eq. Qed.

Lemma cell_setCell_ne b r c v r' c' :
  (r, c) <> (r', c') -> cell (setCell b r c v) r' c' = cell b r' c'.
Proof. intros Hne. unfold cell, setCell. by rewrite gridGet_gridSet_ne. Qed.

Lemma wfGrid_setCell b r c v : wfGrid b -> wfGrid (setCell b r c v).
Proof. apply wfGrid_gridSet. Qed.

Lemma notNull_cell b r c :
  wfGrid b -> inBoard r c = true -> notNull b r c = negb (isEmptyCell (cell b r c)).
Proof.
  intros Hwf Hin. unfold notNull, cell.
  destruct (gridGet_inside b r c Hwf Hin) as [[p|] ->]; done.
Qed.


Lemma notNull_false b r c :
  notNull b r c = false -> inBoard r c = true /\ cell b r c = None.
Proof.
  unfold notNull, cell. destruct (inBoard r c) eqn:Hin.
  - destruct (gridGet b r c) as [[p|]|]; done.
  - by rewrite gridGet_outside.
Qed.

Lemma In_squares r c : In (r, c) squares <-> inBoard r c = true.
Proof.
  rewrite inBoard_true. unfold squares. rewrite in_flat_map. split.
  - intros (r' & Hr & Hc). apply in_map_iff in Hc as (c' & [= <- <-] & Hc).
    apply list_elem_of_In in Hr, Hc. apply elem_of_seqZ in Hr, Hc. lia.
  - intros [Hr Hc]. exists r. split.
    + apply list_elem_of_In, elem_of_seqZ. lia.
    + apply in_map. apply list_elem_of_In, elem_of_seqZ. lia.
Qed.

(** ** Handlers that run to their end *)

Lemma ensures_ret {A} (a : A) g (Q : A -> GameState -> Prop) :
  Q a g -> ensures (mret a) g Q.
Proof. intros HQ. by exists a, g. Qed.

Lemma ensures_bind {A B} (h : Handler A) (k : A -> Handler B) g
    (Q : B -> GameState -> Prop) :
  ensures h g (fun a g' => ensures (k a) g' Q) -> ensures (h ≫= k) g Q.
Proof.
  intros (a & g' & Hh & b & g'' & Hk & HQ). exists b, g''. split; [|done].
  unfold mbind, Handler_bind. by rewrite Hh.
Qed.

Lemma ensures_get g (Q : GameState -> GameState -> Prop) :
  Q g g -> ensures get g Q.
Proof. intros HQ. by exists g, g. Qed.

Lemma ensures_modify f g (Q : unit -> GameState -> Prop) :
  Q tt (f g) -> ensures (modify f) g Q.
Proof. intros HQ. by exists tt, (f g). Qed.

Lemma ensures_skip g (Q : unit -> GameState -> Prop) :
  Q tt g -> ensures skip g Q.
Proof. apply ensures_ret. Qed.

Lemma ensures_mono {A} (h : Handler A) g (Q Q' : A -> GameState -> Prop) :
  ensures h g Q -> (forall a g', Q a g' -> Q' a g') -> ensures h g Q'.
Proof. intros (a & g' & Hh & HQ) Himp. exists a, g'. eauto. Qed.

Ltac wp_step :=
  lazymatch goal with
  | |- ensures (mbind _ _) _ _ => apply ensures_bind
  | |- ensures (mret _) _ _ => apply ensures_ret
  | |- ensures get _ _ => apply ensures_get
  | |- ensures (modify _) _ _ => apply ensures_modify
  | |- ensures skip _ _ => apply ensures_skip
  | |- ensures (if ?b then _ else _) _ _ => destruct b eqn:?
  | |- ensures (match ?o with Some _ => _ | None => _ end) _ _ => destruct o eqn:?
  end.

Ltac wp := repeat wp_step.

Lemma boardStep_refl b : boardStep b b.
Proof. split; eauto. Qed.

Lemma boardStep_trans b1 b2 b3 : boardStep b1 b2 -> boardStep b2 b3 -> boardStep b1 b3.
Proof.
  intros [Hwf1 H1] [Hwf2 H2]. split; [eauto|].
  intros r c p Hp. destruct (H2 _ _ _ Hp) as [Hp'|]; eauto.
Qed.

Lemma gridGet_gridSet_cases {A} (g : list (list A)) r c v r' c' :
  gridGet (gridSet g r c v) r' c' = gridGet g r' c'
  \/ gridGet (gridSet g r c v) r' c' = Some v.
Proof.
  destruct (decide ((r, c) = (r', c'))) as [[= <- <-]|Hne].
  - unfold gridGet, gridSet. destruct (inBoard r c) eqn:Hin; [|by left].
    rewrite list_lookup_alter_eq. destruct (g !! Z.to_nat r) as [cells|]; [|by left].
    simpl. destruct (decide (Z.to_nat c < length cells)%nat).
    + right. by apply list_lookup_insert_eq.
    + left. rewrite list_insert_ge; [done|lia].
  - left. by apply gridGet_gridSet_ne.
Qed.

Lemma boardStep_clear b r c : boardStep b (setCell b r c None).
Proof.
  split; [apply wfGrid_setCell|]. intros r' c' p. unfold cell, setCell.
  destruct (gridGet_gridSet_cases b r c None r' c') as [-> | ->]; [eauto|done].
Qed.

Lemma boardStep_place b r c p :
  hasMoved p = true -> boardStep b (setCell b r c (Some p)).
Proof.
  intros Hp. split; [apply wfGrid_setCell|]. intros r' c' q. unfold cell, setCell.
  destruct (gridGet_gridSet_cases b r c (Some p) r' c') as [-> | ->]; [eauto|].
  intros [= <-]. eauto.
Qed.

Lemma boardStep_promote b r c p :
  type p <> king -> boardStep b (setCell b r c (Some p)).
Proof.
  intros Hp. split; [apply wfGrid_setCell|]. intros r' c' q. unfold cell, setCell.
  destruct (gridGet_gridSet_cases b r c (Some p) r' c') as [-> | ->]; [eauto|].
  intros [= <-]. eauto.
Qed.

Lemma handleCastling_board from to k g :
  ensures (handleCastling from to k) g
          (fun _ g' => boardStep (board g) (board g')).
Proof.
  unfold handleCastling. wp; simpl; try apply boardStep_refl.
  eapply boardStep_trans; [|apply boardStep_clear]. by apply boardStep_place.
Qed.

Lemma specialMoves_board from to p promotion now g :
  ensures (specialMoves from to p promotion now) g
          (fun _ g' => boardStep (board g) (board g')).
Proof.
  unfold specialMoves. wp; simpl; try apply boardStep_refl.
  - eapply ensures_mono; [apply handleCastling_board|].
    intros [] g' Hstep. by wp.
  - apply boardStep_clear.
Qed.

Lemma updateCastlingRights_board p from g :
  ensures (updateCastlingRights p from) g (fun _ g' => board g' = board g).
Proof. unfold updateCastlingRights. wp; done. Qed.

Lemma board_updateGameStatus g : board (updateGameStatus g) = board g.
Proof.
  unfold updateGameStatus.
  repeat match goal with |- context [if ?b then _ else _] => destruct b end; done.
Qed.

Lemma halfMoveClock_updateGameStatus g :
  halfMoveClock (updateGameStatus g) = halfMoveClock g.
Proof.
  unfold updateGameStatus.
  repeat match goal with |- context [if ?b then _ else _] => destruct b end; done.
Qed.

Lemma currentTurn_updateGameStatus g :
  currentTurn (updateGameStatus g) = currentTurn g.
Proof.
  unfold updateGameStatus.
  repeat match goal with |- context [if ?b then _ else _] => destruct b end; done.
Qed.

Lemma applyMove_spec m now g :
  ensures (applyMove m now) g
    (fun _ g' =>
       boardStep (board g) (board g') /\
       (wfGrid (board g) ->
        inBoard (payload_to m).1 (payload_to m).2 = true ->
        payload_from m <> payload_to m ->
        halfMoveClock g' = 0)).
Proof.
  unfold applyMove. wp_step.
  eapply ensures_mono; [apply specialMoves_board|].
  intros p g1 Hstep1. wp_step.
  eapply ensures_mono; [apply updateCastlingRights_board|].
  intros [] g2 Hb2. simpl in Hb2.
  assert (Hstep : boardStep (board g)
            (setCell (setCell (board g2) (payload_to m).1 (payload_to m).2
               (Some {| type := type p; color := color p; id := id p; hasMoved := true;
                        row := (payload_to m).1; col := (payload_to m).2 |}))
               (payload_from m).1 (payload_from m).2 None)).
  { rewrite Hb2. eapply boardStep_trans; [exact Hstep1|].
    eapply boardStep_trans; [|apply boardStep_clear]. by apply boardStep_place. }
  wp.
  all: match goal with
       | |- context [updateGameStatus ?X] =>
           pose proof (board_updateGameStatus X) as HbY;
           pose proof (halfMoveClock_updateGameStatus X) as HcY;
           generalize dependent (updateGameStatus X); intros Y HbY HcY
       end.
  all: simpl in *; rewrite HbY, HcY; (split; [exact Hstep|]); try done.
  all: intros Hwf Hto Hne; exfalso.
  all: match goal with H : _ || _ = false |- _ =>
         apply orb_false_iff in H as [_ H];
         rewrite cell_setCell_ne, cell_setCell_eq in H;
         [done| rewrite Hb2; by apply Hstep1 | done
         | destruct (payload_from m), (payload_to m); simpl; congruence]
       end.
Qed.

Lemma applyMove_finishes m now g : exists g', applyMove m now g = (Finished tt, g').
Proof.
  destruct (applyMove_spec m now g) as ([] & g' & Hrun & _). eauto.
Qed.

(** ** The gate of [handleMove] *)

Lemma bind_get {A} (k : GameState -> Handler A) g : (get ≫= k) g = k g g.
Proof. reflexivity. Qed.

Ltac handleMove_cases :=
  unfold handleMove; rewrite !bind_get; unfold reject;
  repeat match goal with
         | |- context [if negb ?b then _ else _] => destruct b eqn:?; cbn [negb]
         | |- context [match ?o with Some _ => _ | None => _ end] => destruct o eqn:?
         end.

Lemma handleMove_not_playing m now g :
  status g <> playing -> handleMove m now g = (Returned NotInPlayingState, g).
Proof.
  intros Hs. unfold handleMove. rewrite bind_get.
  by rewrite bool_decide_eq_false_2.
Qed.

Lemma handleMove_playing m now g :
  status g = playing -> fst (handleMove m now g) <> Returned NotInPlayingState.
Proof.
  intros Hs. handleMove_cases; try done.
  - destruct (applyMove_finishes m now g) as [g' ->]. done.
  - by apply bool_decide_eq_false in Heqb.
Qed.

(** A rejected request, whatever the reason, hands back the session it
    was given; the reason does not depend on the clock of the server. *)
Lemma handleMove_returned_at m now now' g why g' :
  handleMove m now g = (Returned why, g') ->
  g' = g /\ handleMove m now' g = (Returned why, g).
Proof.
  handleMove_cases; try (intros [= <- <-]; done).
  destruct (applyMove_finishes m now g) as [g'' ->]. done.
Qed.

Lemma handleMove_returned m now g why g' :
  handleMove m now g = (Returned why, g') ->
  g' = g /\ forall now', handleMove m now' g = (Returned why, g).
Proof.
  intros Hrun. split.
  - by apply (handleMove_returned_at m now now g why g').
  - intros now'. by apply (handleMove_returned_at m now now' g why g').
Qed.

Lemma handleMove_finished m now g g' :
  handleMove m now g = (Finished tt, g') ->
  status g = playing /\
  ChessRules.isValidMove (board g) (payload_piece m)
    (payload_from m).1 (payload_from m).2 (payload_to m).1 (payload_to m).2 = true /\
  applyMove m now g = (Finished tt, g').
Proof.
  handleMove_cases; try done.
  intros Hrun. by apply bool_decide_eq_true in Heqb.
Qed.

Lemma isValidMove_target b p fr fc tr tc :
  ChessRules.isValidMove b p fr fc tr tc = true ->
  inBoard tr tc = true /\ (fr, fc) <> (tr, tc).
Proof.
  unfold ChessRules.isValidMove.
  destruct ((fr =? tr) && (fc =? tc)) eqn:Hsame; [done|].
  destruct ((tr <? 0) || (7 <? tr) || (tc <? 0) || (7 <? tc)) eqn:Hout; [done|].
  intros _. split.
  - apply inBoard_true. rewrite !orb_false_iff in Hout. lia.
  - intros [= -> ->]. rewrite !Z.eqb_refl in Hsame. done.
Qed.

(** Whatever the move, [handleMove] leaves the half-move clock at 0: the
    capture test reads the destination square after the piece has been
    put there. *)
Lemma handleMove_clock_zero m now g g' :
  wfGrid (board g) ->
  handleMove m now g = (Finished tt, g') -> halfMoveClock g' = 0.
Proof.
  intros Hwf Hrun. apply handleMove_finished in Hrun as (_ & Hvalid & Hrun).
  apply isValidMove_target in Hvalid as [Hin Hne].
  destruct (applyMove_spec m now g) as ([] & g'' & Hrun' & _ & Hclock).
  rewrite Hrun in Hrun'. injection Hrun' as <-.
  apply Hclock; [done..|].
  destruct (payload_from m), (payload_to m). done.
Qed.

Lemma handleMove_board m now g :
  boardStep (board g) (board (snd (handleMove m now g))).
Proof.
  destruct (handleMove m now g) as [[[]|why] g'] eqn:Hrun; simpl.
  - apply handleMove_finished in Hrun as (_ & _ & Hrun).
    destruct (applyMove_spec m now g) as ([] & g'' & Hrun' & Hstep & _).
    rewrite Hrun in Hrun'. by injection Hrun' as <-.
  - apply handleMove_returned in Hrun as [-> _]. apply boardStep_refl.
Qed.

Lemma handleCastling_turn from to k g :
  ensures (handleCastling from to k) g
          (fun _ g' => currentTurn g' = currentTurn g /\ winner g' = winner g).
Proof. unfold handleCastling. wp; done. Qed.

Lemma specialMoves_turn from to p promotion now g :
  ensures (specialMoves from to p promotion now) g
          (fun _ g' => currentTurn g' = currentTurn g /\ winner g' = winner g).
Proof.
  unfold specialMoves. wp; try done.
  eapply ensures_mono; [apply handleCastling_turn|].
  intros [] g' Hturn. by wp.
Qed.

Lemma updateCastlingRights_turn p from g :
  ensures (updateCastlingRights p from) g
          (fun _ g' => currentTurn g' = currentTurn g /\ winner g' = winner g).
Proof. unfold updateCastlingRights. wp; done. Qed.

(** The status and the winner an applied move leaves are the ones
    [updateGameStatus] computes on the board after the move, with the
    opponent of the mover to move. *)
Lemma applyMove_status m now g :
  ensures (applyMove m now) g
    (fun _ g' => exists g0,
       status g' = status (updateGameStatus g0)
       /\ winner g' = winner (updateGameStatus g0)
       /\ board g0 = board g' /\ halfMoveClock g0 = halfMoveClock g'
       /\ winner g0 = winner g
       /\ currentTurn g0 = opponent (currentTurn g)
       /\ currentTurn g' = currentTurn g0).
Proof.
  unfold applyMove. wp_step.
  eapply ensures_mono; [apply specialMoves_turn|].
  intros p g1 [Hturn1 Hwin1]. wp_step.
  eapply ensures_mono; [apply updateCastlingRights_turn|].
  intros [] g2 [Hturn2 Hwin2]. simpl in Hturn2, Hwin2.
  wp.
  all: match goal with
       | |- context [updateGameStatus ?X] =>
           exists X;
           pose proof (board_updateGameStatus X) as HbY;
           pose proof (halfMoveClock_updateGameStatus X) as HcY;
           pose proof (currentTurn_updateGameStatus X) as HtY;
           generalize dependent (updateGameStatus X); intros Y HbY HcY HtY
       end.
  all: simpl in *; rewrite HbY, HcY, HtY, Hturn2, Hturn1, Hwin2, Hwin1.
  all: split_and!; try done.
  all: by destruct (currentTurn g).
Qed.

Lemma handleMove_status m now g g' :
  handleMove m now g = (Finished tt, g') ->
  exists g0,
    status g' = status (updateGameStatus g0)
    /\ winner g' = winner (updateGameStatus g0)
    /\ board g0 = board g' /\ halfMoveClock g0 = halfMoveClock g'
    /\ winner g0 = winner g
    /\ currentTurn g0 = opponent (currentTurn g)
    /\ currentTurn g' = currentTurn g0.
Proof.
  intros Hrun. apply handleMove_finished in Hrun as (_ & _ & Hrun).
  destruct (applyMove_status m now g) as ([] & g'' & Hrun' & Hstatus).
  rewrite Hrun in Hrun'. by injection Hrun' as <-.
Qed.

Lemma status_updateGameStatus_draw g :
  status (updateGameStatus g) = draw -> 100 <= halfMoveClock g.
Proof.
  unfold updateGameStatus.
  repeat match goal with |- context [if ?b then _ else _] => destruct b eqn:? end;
    simpl; try done; intros _; by apply Z.leb_le.
Qed.

(** The legality engine never affirms a pawn step onto an empty square
    of a neighbouring column. *)
Lemma pawn_empty_diagonal_invalid b p fr fc tr tc :
  type p = pawn -> tc <> fc -> cell b tr tc = None ->
  ChessRules.isValidMove b p fr fc tr tc = false.
Proof.
  intros Hp Hc Hcell. unfold ChessRules.isValidMove.
  destruct ((fr =? tr) && (fc =? tc)); [done|].
  destruct ((tr <? 0) || (7 <? tr) || (tc <? 0) || (7 <? tc)); [done|].
  destruct (ChessRules.sameColor (cell b tr tc) p); [done|].
  rewrite Hp. unfold ChessRules.isValidPawnMove. rewrite Hcell.
  rewrite (proj2 (Z.eqb_neq tc fc)) by done. simpl.
  by rewrite andb_false_r.
Qed.

(** ** The session on concrete games *)

(** C9 (as amended).  [createGame] gives the standard starting arrangement
    with every piece not yet moved, all four castling rights, the
    half-move clock at 0, the full-move number at 1, white to move and the
    status [waiting]. *)
Theorem createGame_initial_session gameId :
  let g := createGame gameId in
  boardView (board g) =
    [ [Some (black, rook, false); Some (black, knight, false); Some (black, bishop, false);
       Some (black, queen, false); Some (black, king, false); Some (black, bishop, false);
       Some (black, knight, false); Some (black, rook, false)];
      replicate 8 (Some (black, pawn, false));
      replicate 8 None; replicate 8 None; replicate 8 None; replicate 8 None;
      replicate 8 (Some (white, pawn, false));
      [Some (white, rook, false); Some (white, knight, false); Some (white, bishop, false);
       Some (white, queen, false); Some (white, king, false); Some (white, bishop, false);
       Some (white, knight, false); Some (white, rook, false)] ]
  /\ castlingRights g = {| white_kingside := true; white_queenside := true;
                           black_kingside := true; black_queenside := true |}
  /\ halfMoveClock g = 0
  /\ fullMoveNumber g = 1
  /\ currentTurn g = white
  /\ status g = waiting.
Proof. repeat split. Qed.

(** C9, counterexample: the two counters of a new session are not both
    zero, the full-move number starts at 1. *)
Lemma createGame_counters_not_both_zero :
  ~ (halfMoveClock (createGame "default-game") = 0
     /\ fullMoveNumber (createGame "default-game") = 0).
Proof. intros [_ H]. discriminate H. Qed.

(** C1, the code at the failing input.  The session [checkedGame] was
    reached by three accepted moves and has the status [check]; black's
    reply c6, which the legality engine affirms, is turned away by the
    status test and the session stays as it is. *)
Theorem handleMove_rejects_in_check :
  status checkedGame = check
  /\ currentTurn checkedGame = black
  /\ ChessRules.isValidMove (board checkedGame)
       (payload_piece (requestOf checkedGame (1, 2) (2, 2))) 1 2 2 2 = true
  /\ handleMove (requestOf checkedGame (1, 2) (2, 2)) 0 checkedGame
     = (Returned NotInPlayingState, checkedGame).
Proof. vm_compute. repeat split. Qed.

(** C2, the code at the failing input.  From the start position white
    plays the knight to f3, a move of a piece that is no pawn onto an
    empty square, and black answers with the knight to f6: both are
    accepted and the half-move clock is 0 after each. *)
Theorem knight_moves_leave_clock_at_zero :
  let m1 := requestOf startedGame (7, 6) (5, 5) in
  let g1 := snd (handleMove m1 0 startedGame) in
  let m2 := requestOf g1 (0, 6) (2, 5) in
  let g2 := snd (handleMove m2 0 g1) in
  type (payload_piece m1) = knight /\ cell (board startedGame) 5 5 = None
  /\ fst (handleMove m1 0 startedGame) = Finished tt /\ halfMoveClock g1 = 0
  /\ type (payload_piece m2) = knight /\ cell (board g1) 2 5 = None
  /\ fst (handleMove m2 0 g1) = Finished tt /\ halfMoveClock g2 = 0.
Proof. vm_compute. repeat split. Qed.

(** C3, the code at the failing input.  In [enPassantGame] the last move
    is the two-square advance d7-d5 landing beside the white pawn on e5;
    the capture e5xd6 onto the empty square passed over is rejected. *)
Theorem en_passant_capture_rejected :
  status enPassantGame = playing /\ currentTurn enPassantGame = white
  /\ (from <$> lastMove enPassantGame) = Some (1, 3)
  /\ (to <$> lastMove enPassantGame) = Some (3, 3)
  /\ (type <$> cell (board enPassantGame) 3 3) = Some pawn
  /\ (color <$> cell (board enPassantGame) 3 3) = Some black
  /\ (type <$> cell (board enPassantGame) 3 4) = Some pawn
  /\ (color <$> cell (board enPassantGame) 3 4) = Some white
  /\ cell (board enPassantGame) 2 3 = None
  /\ handleMove (requestOf enPassantGame (3, 4) (2, 3)) 0 enPassantGame
     = (Returned InvalidMove, enPassantGame).
Proof. vm_compute. repeat split. Qed.

(** No request of a pawn towards an empty square of a neighbouring column
    is ever applied, whatever the session and its last move. *)
Lemma handleMove_never_en_passant m now g g' :
  type (payload_piece m) = pawn ->
  (payload_to m).2 <> (payload_from m).2 ->
  cell (board g) (payload_to m).1 (payload_to m).2 = None ->
  handleMove m now g <> (Finished tt, g').
Proof.
  intros Hp Hcol Hcell Hrun. apply handleMove_finished in Hrun as (_ & Hvalid & _).
  by rewrite pawn_empty_diagonal_invalid in Hvalid.
Qed.

(** C8.  A request that [handleMove] rejects leaves the session exactly
    as it was, and the same request is rejected again for the same reason
    and with the same session, whenever it is repeated. *)
Theorem handleMove_rejection_keeps_session m now g why g' :
  handleMove m now g = (Returned why, g') ->
  g' = g /\ forall now', handleMove m now' g' = (Returned why, g').
Proof.
  intros Hrun. destruct (handleMove_returned _ _ _ _ _ Hrun) as [-> Hagain]. done.
Qed.

Lemma handleMove_rejection_keeps_session_witness :
  let m := requestOf startedGame (6, 4) (3, 4) in
  handleMove m 0 startedGame = (Returned InvalidMove, startedGame)
  /\ forall now', handleMove m now' startedGame = (Returned InvalidMove, startedGame).
Proof.
  assert (H : handleMove (requestOf startedGame (6, 4) (3, 4)) 0 startedGame
              = (Returned InvalidMove, startedGame)) by (vm_compute; reflexivity).
  split; [exact H|].
  exact (proj2 (handleMove_rejection_keeps_session _ _ _ _ _ H)).
Defined.

(** ** The status after a move *)


Lemma foolsMate_status :
  status foolsMate = checkmate /\ winner foolsMate = Some black
  /\ currentTurn foolsMate = white.
Proof. vm_compute. repeat split. Qed.


(** ** A side without a king *)

Lemma isKingOf_true c o :
  ChessRules.isKingOf c o = true <-> exists p, o = Some p /\ type p = king /\ color p = c.
Proof.
  unfold ChessRules.isKingOf. destruct o as [p|].
  - rewrite andb_true_iff, !bool_decide_eq_true. split.
    + intros [Ht Hc]. eauto.
    + intros (q & [= <-] & Ht & Hc). done.
  - split; [done|]. intros (q & Hq & _). done.
Qed.

Lemma findKing_kingless b c : kingless b c -> ChessRules.findKing b c = (-1, -1).
Proof.
  intros Hno. unfold ChessRules.findKing.
  destruct (List.find _ squares) as [[r k]|] eqn:Hfind; [|done].
  apply find_some in Hfind as [_ Hking].
  apply isKingOf_true in Hking as (p & Hp & Ht & Hc). by destruct (Hno r k p).
Qed.

Lemma findKing_found b c r k :
  ChessRules.findKing b c = (r, k) -> r <> -1 ->
  inBoard r k = true /\ ChessRules.isKingOf c (cell b r k) = true.
Proof.
  unfold ChessRules.findKing.
  destruct (List.find _ squares) as [[r' k']|] eqn:Hfind.
  - intros [= -> ->] _. apply find_some in Hfind as [Hin Hking].
    by apply In_squares in Hin.
  - intros [= <- <-]. done.
Qed.

Lemma noValidMoves_true b c :
  ChessRules.noValidMoves b c = true <-> immobile b c.
Proof.
  unfold ChessRules.noValidMoves, immobile. rewrite forallb_forall. split.
  - intros Hall r k p Hp Hc.
    destruct (inBoard r k) eqn:Hin; [|by rewrite cell_outside in Hp].
    apply In_squares in Hin. specialize (Hall _ Hin). simpl in Hall.
    rewrite Hp, bool_decide_eq_true_2 in Hall by done.
    destruct (ChessRules.getValidMoves b p r k); [done|].
    simpl in Hall. lia.
  - intros Hall [r k] _. destruct (cell b r k) as [p|] eqn:Hp; [|done].
    case_bool_decide; [|done]. by rewrite (Hall r k p).
Qed.

(** The kingless test on a concrete board: the 64 squares are enough. *)
Lemma kingless_squares b c :
  forallb (fun '(r, k) => negb (ChessRules.isKingOf c (cell b r k))) squares = true ->
  kingless b c.
Proof.
  rewrite forallb_forall. intros Hall r k p Hp Ht Hc.
  destruct (inBoard r k) eqn:Hin; [|by rewrite cell_outside in Hp].
  apply In_squares in Hin. specialize (Hall _ Hin). simpl in Hall.
  apply negb_true_iff in Hall.
  assert (ChessRules.isKingOf c (cell b r k) = true); [|congruence].
  apply isKingOf_true. eauto.
Qed.

(** C10.  On a board without a king of a colour, [isKingInCheck] answers
    false for that colour (it does not fail), so [isCheckmate] answers
    false too; and when no piece of the colour has a valid move
    [isStalemate] answers true. *)
Theorem kingless_side_is_never_in_check b c :
  kingless b c ->
  ChessRules.isKingInCheck b c = false
  /\ ChessRules.isCheckmate b c = false
  /\ (immobile b c -> ChessRules.isStalemate b c = true).
Proof.
  intros Hno.
  assert (Hcheck : ChessRules.isKingInCheck b c = false).
  { unfold ChessRules.isKingInCheck. by rewrite findKing_kingless. }
  unfold ChessRules.isCheckmate, ChessRules.isStalemate. rewrite Hcheck.
  repeat split. simpl. intros Himm. by apply noValidMoves_true.
Qed.

Lemma kingless_side_is_never_in_check_witness :
  ChessRules.isKingInCheck kinglessBoard white = false
  /\ ChessRules.isCheckmate kinglessBoard white = false
  /\ ChessRules.isStalemate kinglessBoard white = true.
Proof.
  assert (Hno : kingless kinglessBoard white).
  { apply kingless_squares. vm_compute. reflexivity. }
  assert (Himm : immobile kinglessBoard white).
  { apply noValidMoves_true. vm_compute. reflexivity. }
  destruct (kingless_side_is_never_in_check kinglessBoard white Hno) as (H1 & H2 & H3).
  split; [exact H1|split; [exact H2|exact (H3 Himm)]].
Defined.

(** ** Castling *)

Lemma betweenEmpty_true b fromRow startCol endCol :
  wfGrid b -> 0 <= fromRow < 8 -> 0 <= startCol -> endCol < 8 ->
  ChessRules.betweenEmpty b fromRow startCol endCol = true
  <-> forall c, startCol <= c <= endCol -> cell b fromRow c = None.
Proof.
  intros Hwf Hrow Hs He. unfold ChessRules.betweenEmpty. rewrite forallb_forall.
  split.
  - intros Hall c Hc.
    assert (Hin : inBoard fromRow c = true) by (apply inBoard_true; lia).
    specialize (Hall c). rewrite notNull_cell in Hall by done.
    destruct (cell b fromRow c); [|done].
    discriminate Hall. apply list_elem_of_In, elem_of_seqZ. lia.
  - intros Hall c Hc. apply list_elem_of_In, elem_of_seqZ in Hc.
    rewrite notNull_cell; [|done|apply inBoard_true; lia].
    by rewrite Hall by lia.
Qed.

Lemma transitSafe_two a fromRow fromCol toCol :
  Z.abs (toCol - fromCol) = 2 ->
  let step := if fromCol <? toCol then 1 else -1 in
  ChessRules.transitSafe (Z.to_nat (Z.abs (toCol - fromCol))) a fromRow fromCol toCol step
  = negb (attackedAt a fromRow fromCol) && negb (attackedAt a fromRow (fromCol + step)).
Proof.
  intros Habs. rewrite Habs. change (Z.to_nat 2) with 2%nat. simpl.
  destruct (fromCol <? toCol) eqn:Hside.
  - apply Z.ltb_lt in Hside. assert (toCol = fromCol + 2) as -> by lia.
    rewrite (proj2 (Z.eqb_neq fromCol (fromCol + 2))) by lia.
    rewrite (proj2 (Z.eqb_neq (fromCol + 1) (fromCol + 2))) by lia. simpl.
    by destruct (attackedAt a fromRow fromCol), (attackedAt a fromRow (fromCol + 1)).
  - apply Z.ltb_ge in Hside. assert (toCol = fromCol - 2) as -> by lia.
    rewrite (proj2 (Z.eqb_neq fromCol (fromCol - 2))) by lia.
    rewrite (proj2 (Z.eqb_neq (fromCol + -1) (fromCol - 2))) by lia. simpl.
    by destruct (attackedAt a fromRow fromCol), (attackedAt a fromRow (fromCol + -1)).
Qed.

Lemma isValidCastling_true b k fromRow fromCol toCol :
  wfGrid b -> inBoard fromRow fromCol = true -> Z.abs (toCol - fromCol) = 2 ->
  ChessRules.isValidCastling b k fromRow fromCol toCol = true
  <-> ChessRules.isKingInCheck b (color k) = false
      /\ (exists r, cell b fromRow (if fromCol <? toCol then 7 else 0) = Some r
                    /\ type r = rook /\ color r = color k /\ hasMoved r = false)
      /\ (forall c, Z.min fromCol (if fromCol <? toCol then 7 else 0) < c
                    < Z.max fromCol (if fromCol <? toCol then 7 else 0) ->
                    cell b fromRow c = None)
      /\ (forall c, Z.min fromCol toCol <= c <= Z.max fromCol toCol ->
                    attackedAt (ChessRules.getAttackedSquares b (color k)) fromRow c = false).
Proof.
  intros Hwf Hin Habs. apply inBoard_true in Hin.
  unfold ChessRules.isValidCastling.
  rewrite transitSafe_two by done. cbv zeta.
  set (corner := if fromCol <? toCol then 7 else 0).
  set (a := ChessRules.getAttackedSquares b (color k)).
  assert (Hcorner : 0 <= corner < 8) by (subst corner; destruct (fromCol <? toCol); lia).
  destruct (ChessRules.isKingInCheck b (color k)); [split; [done|intros [? _]; done]|].
  destruct (cell b fromRow corner) as [r|] eqn:Hrook;
    [|split; [done|intros (_ & (r & ? & _) & _); done]].
  destruct (bool_decide (type r = rook)) eqn:Htype; simpl;
    [apply bool_decide_eq_true in Htype
    |apply bool_decide_eq_false in Htype;
     split; [done|intros (_ & (r' & [= <-] & ? & _) & _); done]].
  destruct (bool_decide (color r = color k)) eqn:Hcolor; simpl;
    [apply bool_decide_eq_true in Hcolor
    |apply bool_decide_eq_false in Hcolor;
     split; [done|intros (_ & (r' & [= <-] & _ & ? & _) & _); done]].
  destruct (hasMoved r) eqn:Hmoved; simpl;
    [split; [done|intros (_ & (r' & [= <-] & _ & _ & ?) & _); congruence]|].
  destruct (ChessRules.betweenEmpty b fromRow (Z.min fromCol corner + 1)
              (Z.max fromCol corner - 1)) eqn:Hbetween; simpl.
  2: { split; [done|]. intros (_ & _ & Hempty & _).
       assert (ChessRules.betweenEmpty b fromRow (Z.min fromCol corner + 1)
                 (Z.max fromCol corner - 1) = true); [|congruence].
       apply betweenEmpty_true; [done|lia|lia|lia|]. intros c Hc. apply Hempty. lia. }
  pose proof (proj1 (betweenEmpty_true b fromRow (Z.min fromCol corner + 1)
                       (Z.max fromCol corner - 1) Hwf ltac:(lia) ltac:(lia) ltac:(lia))
                Hbetween) as Hempty.
  assert (Hsteps : forall P : Z -> Prop,
             (forall c, Z.min fromCol toCol <= c <= Z.max fromCol toCol -> P c)
             <-> P fromCol /\ P (fromCol + (if fromCol <? toCol then 1 else -1)) /\ P toCol).
  { intros P. destruct (fromCol <? toCol) eqn:Hside;
      [apply Z.ltb_lt in Hside|apply Z.ltb_ge in Hside]; split.
    - intros HP. repeat split; apply HP; lia.
    - intros (H0 & H1 & H2) c Hc.
      assert (c = fromCol \/ c = fromCol + 1 \/ c = toCol) as [->|[->| ->]] by lia; done.
    - intros HP. repeat split; apply HP; lia.
    - intros (H0 & H1 & H2) c Hc.
      assert (c = fromCol \/ c = fromCol + -1 \/ c = toCol) as [->|[->| ->]] by lia; done. }
  rewrite (Hsteps (fun c => attackedAt a fromRow c = false)).
  destruct (attackedAt a fromRow fromCol),
    (attackedAt a fromRow (fromCol + (if fromCol <? toCol then 1 else -1))),
    (attackedAt a fromRow toCol); simpl;
    (split; [try done|try (intros (_ & _ & _ & ? & ? & ?); done)]).
  intros _. repeat split; eauto. intros c Hc. apply Hempty. lia.
Qed.

Lemma isValidKingMove_two_columns b k fromRow fromCol toCol :
  wfGrid b -> inBoard fromRow fromCol = true -> Z.abs (toCol - fromCol) = 2 ->
  ChessRules.isValidKingMove b k fromRow fromCol fromRow toCol = true
  <-> castlingPreconditions b k fromRow fromCol toCol.
Proof.
  intros Hwf Hin Habs. unfold ChessRules.isValidKingMove.
  rewrite Z.sub_diag, Habs. simpl.
  destruct (hasMoved k) eqn:Hmoved; simpl.
  - split; [done|]. intros [Hk _ _ _ _]. congruence.
  - rewrite isValidCastling_true by done. split.
    + intros (H1 & H2 & H3 & H4). by constructor.
    + intros [_ H1 H2 H3 H4]. done.
Qed.

(** C7.  For a king on the board asked to move two columns along its row,
    [isValidKingMove] answers true exactly when the five preconditions of
    castling hold together: the king has never moved, its side is not in
    check, a rook of its side that has never moved stands on the corner of
    its row, the squares between king and rook are empty, and none of the
    three squares from the king's square to its destination is in the
    attack map of the opponent. *)
Theorem castling_iff_preconditions b k fromRow fromCol toCol :
  wfGrid b -> inBoard fromRow fromCol = true -> Z.abs (toCol - fromCol) = 2 ->
  ChessRules.isValidKingMove b k fromRow fromCol fromRow toCol = true
  <-> castlingPreconditions b k fromRow fromCol toCol.
Proof. apply isValidKingMove_two_columns. Qed.

Lemma wfGrid_castleReadyGame : wfGrid (board castleReadyGame).
Proof. vm_compute. split; [reflexivity|repeat constructor]. Qed.

Lemma castleReadyGame_castling :
  ChessRules.isValidKingMove (board castleReadyGame) castleReadyKing 7 4 7 6 = true.
Proof. vm_compute. reflexivity. Qed.

Lemma castling_iff_preconditions_witness :
  castlingPreconditions (board castleReadyGame) castleReadyKing 7 4 6.
Proof.
  exact (proj1 (castling_iff_preconditions (board castleReadyGame) castleReadyKing 7 4 6
                  wfGrid_castleReadyGame eq_refl eq_refl)
               castleReadyGame_castling).
Defined.

(** ** The attack map covers what a piece can attack *)

Lemma attackedAt_markAt a r c : 
  wfGrid a -> inBoard r c = true -> attackedAt (markAt a r c) r c = true.
Proof. intros Hwf Hin. unfold attackedAt, markAt. by rewrite gridGet_gridSet_eq. Qed.

Lemma attackedAt_markAt_mono a r c r' c' :
  attackedAt a r' c' = true -> attackedAt (markAt a r c) r' c' = true.
Proof.
  unfold attackedAt, markAt.
  destruct (gridGet_gridSet_cases a r c true r' c') as [-> | ->]; done.
Qed.

Lemma wfGrid_markAt a r c : wfGrid a -> wfGrid (markAt a r c).
Proof. apply wfGrid_gridSet. Qed.

Lemma marking_id : marking (fun a => a).
Proof. intros a Hwf. done. Qed.

Lemma marking_markAt r c : marking (fun a => markAt a r c).
Proof.
  intros a Hwf. split; [by apply wfGrid_markAt|].
  intros r' c'. apply attackedAt_markAt_mono.
Qed.

Lemma marking_compose f g : marking f -> marking g -> marking (fun a => g (f a)).
Proof.
  intros Hf Hg a Hwf. destruct (Hf a Hwf) as [Hwf' Hmono].
  destruct (Hg (f a) Hwf') as [Hwf'' Hmono']. split; [done|]. eauto.
Qed.

Lemma marking_if (b : bool) f g :
  marking f -> marking g -> marking (fun a => if b then f a else g a).
Proof. by destruct b. Qed.

Lemma marking_fold {X} (step : AttackMap -> X -> AttackMap) (l : list X) :
  (forall x, marking (fun a => step a x)) -> marking (fun a => fold_left step l a).
Proof.
  intros Hstep. induction l as [|x l IH]; simpl; [apply marking_id|].
  apply (marking_compose (fun a => step a x) (fun a => fold_left step l a)); auto.
Qed.

Lemma marking_markRay fuel b r c dr dc :
  marking (ChessRules.markRay fuel b r c dr dc).
Proof.
  revert r c. induction fuel as [|fuel IH]; intros r c; simpl; [apply marking_id|].
  destruct (inBoard r c); [|apply marking_id].
  destruct (notNull b r c); [apply marking_markAt|].
  apply (marking_compose (fun a => markAt a r c)); [apply marking_markAt|apply IH].
Qed.

Lemma marking_markOffsets offsets r c :
  marking (ChessRules.markOffsets offsets r c).
Proof.
  unfold ChessRules.markOffsets. apply marking_fold. intros [dr dc].
  apply (marking_if (inBoard _ _) (fun a => markAt a _ _));
    [apply marking_markAt|apply marking_id].
Qed.

Lemma marking_four f1 f2 f3 f4 :
  marking f1 -> marking f2 -> marking f3 -> marking f4 ->
  marking (fun a => f4 (f3 (f2 (f1 a)))).
Proof.
  intros H1 H2 H3 H4.
  apply (marking_compose (fun a => f3 (f2 (f1 a))) f4); [|done].
  apply (marking_compose (fun a => f2 (f1 a)) f3); [|done].
  by apply (marking_compose f1 f2).
Qed.

Lemma marking_markRookAttacks b r c : marking (ChessRules.markRookAttacks b r c).
Proof.
  apply (marking_four (ChessRules.markRay 8 b (r - 1) c (-1) 0)
           (ChessRules.markRay 8 b (r + 1) c 1 0)
           (ChessRules.markRay 8 b r (c - 1) 0 (-1))
           (ChessRules.markRay 8 b r (c + 1) 0 1)); apply marking_markRay.
Qed.

Lemma marking_markBishopAttacks b r c : marking (ChessRules.markBishopAttacks b r c).
Proof.
  apply (marking_four (ChessRules.markRay 8 b (r - 1) (c - 1) (-1) (-1))
           (ChessRules.markRay 8 b (r - 1) (c + 1) (-1) 1)
           (ChessRules.markRay 8 b (r + 1) (c - 1) 1 (-1))
           (ChessRules.markRay 8 b (r + 1) (c + 1) 1 1)); apply marking_markRay.
Qed.

Lemma marking_markPawnAttacks p r c : marking (ChessRules.markPawnAttacks p r c).
Proof.
  unfold ChessRules.markPawnAttacks. cbv zeta.
  apply (marking_compose
           (fun a => if 0 <? c then
                       if inBoard (r + ChessRules.direction (color p)) (c - 1)
                       then markAt a (r + ChessRules.direction (color p)) (c - 1) else a
                     else a)
           (fun a => if c <? 7 then
                       if inBoard (r + ChessRules.direction (color p)) (c + 1)
                       then markAt a (r + ChessRules.direction (color p)) (c + 1) else a
                     else a)).
  - apply (marking_if (0 <? c)); [|apply marking_id].
    apply (marking_if (inBoard _ _) (fun a => markAt a _ _)); 
      [apply marking_markAt|apply marking_id].
  - apply (marking_if (c <? 7)); [|apply marking_id].
    apply (marking_if (inBoard _ _) (fun a => markAt a _ _));
      [apply marking_markAt|apply marking_id].
Qed.

Lemma marking_markAttackedSquares b p r c :
  marking (ChessRules.markAttackedSquares b p r c).
Proof.
  unfold ChessRules.markAttackedSquares. destruct (type p).
  - apply marking_markPawnAttacks.
  - apply marking_markRookAttacks.
  - apply marking_markOffsets.
  - apply marking_markBishopAttacks.
  - apply (marking_compose (ChessRules.markRookAttacks b r c)
             (ChessRules.markBishopAttacks b r c));
      [apply marking_markRookAttacks|apply marking_markBishopAttacks].
  - apply marking_markOffsets.
Qed.

Lemma wfGrid_noAttacks : wfGrid ChessRules.noAttacks.
Proof. split; [reflexivity|repeat constructor]. Qed.

(** *** Lines of empty squares *)

Lemma sign_cases a b :
  (a < b /\ ChessRules.sign a b = 1) \/ (b < a /\ ChessRules.sign a b = -1)
  \/ (a = b /\ ChessRules.sign a b = 0).
Proof.
  unfold ChessRules.sign.
  destruct (a <? b) eqn:H1; [apply Z.ltb_lt in H1; lia|apply Z.ltb_ge in H1].
  destruct (b <? a) eqn:H2; [apply Z.ltb_lt in H2; lia|apply Z.ltb_ge in H2]. lia.
Qed.

Lemma sign_step a d m : -1 <= d <= 1 -> 1 <= m -> ChessRules.sign a (a + m * d) = d.
Proof. intros Hd Hm. destruct (sign_cases a (a + m * d)) as [[? ->]|[[? ->]|[? ->]]]; nia. Qed.

Lemma pathLoop_true b dr dc tr tc fuel r c :
  ChessRules.pathLoop fuel b r c dr dc tr tc = true ->
  exists n, 0 <= n /\ tr = r + n * dr /\ tc = c + n * dc /\
    forall i, 0 <= i < n ->
      inBoard (r + i * dr) (c + i * dc) = true /\ cell b (r + i * dr) (c + i * dc) = None.
Proof.
  revert r c. induction fuel as [|fuel IH]; intros r c; cbn [ChessRules.pathLoop]; [done|].
  destruct ((r =? tr) && (c =? tc)) eqn:Harrived; cbn [negb].
  - intros _. apply andb_true_iff in Harrived as [Hr Hc].
    apply Z.eqb_eq in Hr, Hc. exists 0. repeat split; lia.
  - destruct (notNull b r c) eqn:Hnull; [done|]. intros Hrest.
    apply notNull_false in Hnull as [Hin Hempty].
    apply IH in Hrest as (n & Hn & -> & -> & Hclear).
    exists (n + 1). repeat split; try lia.
    + destruct (decide (i = 0)) as [->|Hi]; [by rewrite !Z.mul_0_l, !Z.add_0_r|].
      replace (r + i * dr) with (r + dr + (i - 1) * dr) by lia.
      replace (c + i * dc) with (c + dc + (i - 1) * dc) by lia.
      apply Hclear. lia.
    + destruct (decide (i = 0)) as [->|Hi]; [by rewrite !Z.mul_0_l, !Z.add_0_r|].
      replace (r + i * dr) with (r + dr + (i - 1) * dr) by lia.
      replace (c + i * dc) with (c + dc + (i - 1) * dc) by lia.
      apply Hclear. lia.
Qed.

Lemma pathLoop_clear b dr dc :
  wfGrid b -> unitStep dr dc ->
  forall (n : nat) fuel r c,
    (n < fuel)%nat ->
    (forall i, 0 <= i < Z.of_nat n ->
       inBoard (r + i * dr) (c + i * dc) = true /\ cell b (r + i * dr) (c + i * dc) = None) ->
    ChessRules.pathLoop fuel b r c dr dc (r + Z.of_nat n * dr) (c + Z.of_nat n * dc) = true.
Proof.
  intros Hwf (Hdr & Hdc & Hstep). induction n as [|n IH]; intros fuel r c Hfuel Hclear;
    (destruct fuel as [|fuel]; [lia|]); cbn [ChessRules.pathLoop].
  - change (Z.of_nat 0) with 0. rewrite !Z.mul_0_l, !Z.add_0_r, !Z.eqb_refl. done.
  - assert (Hmoving : (r =? r + Z.of_nat (S n) * dr)
                      && (c =? c + Z.of_nat (S n) * dc) = false).
    { apply andb_false_iff. rewrite !Z.eqb_neq. nia. }
    rewrite Hmoving. cbn [negb].
    destruct (Hclear 0) as [Hin Hempty]; [lia|].
    rewrite !Z.mul_0_l, !Z.add_0_r in Hin, Hempty.
    rewrite notNull_cell, Hempty by done. cbn [isEmptyCell negb].
    replace (r + Z.of_nat (S n) * dr) with (r + dr + Z.of_nat n * dr) by lia.
    replace (c + Z.of_nat (S n) * dc) with (c + dc + Z.of_nat n * dc) by lia.
    apply IH; [lia|]. intros i Hi.
    replace (r + dr + i * dr) with (r + (i + 1) * dr) by lia.
    replace (c + dc + i * dc) with (c + (i + 1) * dc) by lia.
    apply Hclear. lia.
Qed.

Lemma isPathClear_true b fr fc tr tc :
  ChessRules.isPathClear b fr fc tr tc = true ->
  exists m, 1 <= m /\ tr = fr + m * ChessRules.sign fr tr
            /\ tc = fc + m * ChessRules.sign fc tc
            /\ clearLine b fr fc (ChessRules.sign fr tr) (ChessRules.sign fc tc) m.
Proof.
  unfold ChessRules.isPathClear. cbv zeta. intros Hpath.
  apply pathLoop_true in Hpath as (n & Hn & Hr & Hc & Hclear).
  exists (n + 1). repeat split; try lia.
  - replace (fr + i * ChessRules.sign fr tr)
      with (fr + ChessRules.sign fr tr + (i - 1) * ChessRules.sign fr tr) by lia.
    replace (fc + i * ChessRules.sign fc tc)
      with (fc + ChessRules.sign fc tc + (i - 1) * ChessRules.sign fc tc) by lia.
    apply Hclear. lia.
  - replace (fr + i * ChessRules.sign fr tr)
      with (fr + ChessRules.sign fr tr + (i - 1) * ChessRules.sign fr tr) by lia.
    replace (fc + i * ChessRules.sign fc tc)
      with (fc + ChessRules.sign fc tc + (i - 1) * ChessRules.sign fc tc) by lia.
    apply Hclear. lia.
Qed.

Lemma isPathClear_clear b fr fc dr dc m :
  wfGrid b -> inBoard fr fc = true -> unitStep dr dc -> 1 <= m ->
  clearLine b fr fc dr dc m ->
  ChessRules.isPathClear b fr fc (fr + m * dr) (fc + m * dc) = true.
Proof.
  intros Hwf Hin Hstep Hm Hclear. unfold ChessRules.isPathClear. cbv zeta.
  destruct Hstep as (Hdr & Hdc & Hne).
  rewrite !sign_step by done.
  assert (Hshort : m <= 8).
  { destruct (decide (m <= 8)) as [|Hlong]; [done|].
    destruct (Hclear 8) as [Hin8 _]; [lia|].
    apply inBoard_true in Hin, Hin8. lia. }
  replace (fr + m * dr) with (fr + dr + Z.of_nat (Z.to_nat (m - 1)) * dr)
    by (rewrite Z2Nat.id by lia; lia).
  replace (fc + m * dc) with (fc + dc + Z.of_nat (Z.to_nat (m - 1)) * dc)
    by (rewrite Z2Nat.id by lia; lia).
  apply pathLoop_clear; [done|done|lia|].
  intros i Hi.
  replace (fr + dr + i * dr) with (fr + (i + 1) * dr) by lia.
  replace (fc + dc + i * dc) with (fc + (i + 1) * dc) by lia.
  apply Hclear. lia.
Qed.

(** *** Sliding pieces *)

Lemma slider_attack_true b p pr pc tr tc :
  slider (type p) = true ->
  ChessRules.canPieceAttackSquare b p pr pc tr tc = true ->
  attacksAlong b (type p) pr pc tr tc.
Proof.
  intros Hslider. unfold ChessRules.canPieceAttackSquare.
  destruct ((pr =? tr) && (pc =? tc)) eqn:Hsame; [done|].
  apply andb_false_iff in Hsame. rewrite !Z.eqb_neq in Hsame.
  assert (Hline : forall t,
             lineOf t (ChessRules.sign pr tr) (ChessRules.sign pc tc) ->
             ChessRules.isPathClear b pr pc tr tc = true ->
             attacksAlong b t pr pc tr tc).
  { intros t Ht Hpath. apply isPathClear_true in Hpath as (m & Hm & Hr & Hc & Hclear).
    exists (ChessRules.sign pr tr), (ChessRules.sign pc tc), m.
    unfold unitStep. split_and!; try done;
      destruct (sign_cases pr tr) as [[? ?]|[[? ?]|[? ?]]],
               (sign_cases pc tc) as [[? ?]|[[? ?]|[? ?]]]; lia. }
  destruct (type p) eqn:Ht; try done.
  - unfold ChessRules.canRookAttackSquare.
    destruct (negb (pr =? tr) && negb (pc =? tc)) eqn:Hrook; [done|].
    apply Hline. simpl.
    apply andb_false_iff in Hrook. rewrite !negb_false_iff, !Z.eqb_eq in Hrook.
    destruct (sign_cases pr tr) as [[? ?]|[[? ?]|[? ?]]],
             (sign_cases pc tc) as [[? ?]|[[? ?]|[? ?]]]; lia.
  - unfold ChessRules.canBishopAttackSquare.
    destruct (Z.abs (tr - pr) =? Z.abs (tc - pc)) eqn:Hdiag; [|done].
    apply Z.eqb_eq in Hdiag. apply Hline. simpl.
    destruct (sign_cases pr tr) as [[? ?]|[[? ?]|[? ?]]],
             (sign_cases pc tc) as [[? ?]|[[? ?]|[? ?]]]; lia.
  - unfold ChessRules.canQueenAttackSquare. cbv zeta.
    destruct (negb ((pr =? tr) || (pc =? tc)) && negb (Z.abs (tr - pr) =? Z.abs (tc - pc)));
      [done|].
    by apply Hline.
Qed.

Ltac unit_cases dr dc :=
  let H := fresh in
  assert (H : (dr = -1 \/ dr = 0 \/ dr = 1) /\ (dc = -1 \/ dc = 0 \/ dc = 1)) by lia;
  destruct H as [[->|[->| ->]] [->|[->| ->]]].

Lemma slider_attack_along b p pr pc tr tc :
  wfGrid b -> inBoard pr pc = true ->
  attacksAlong b (type p) pr pc tr tc ->
  ChessRules.canPieceAttackSquare b p pr pc tr tc = true.
Proof.
  intros Hwf Hin (dr & dc & m & Hstep & Hline & Hm & -> & -> & Hclear).
  pose proof (isPathClear_clear b pr pc dr dc m Hwf Hin Hstep Hm Hclear) as Hpath.
  destruct Hstep as (Hdr & Hdc & Hne).
  unfold ChessRules.canPieceAttackSquare.
  assert (Hsame : (pr =? pr + m * dr) && (pc =? pc + m * dc) = false).
  { apply andb_false_iff. rewrite !Z.eqb_neq. unit_cases dr dc; lia. }
  rewrite Hsame.
  destruct (type p); simpl in Hline; try done.
  - unfold ChessRules.canRookAttackSquare.
    assert (Hrook : negb (pr =? pr + m * dr) && negb (pc =? pc + m * dc) = false).
    { apply andb_false_iff. rewrite !negb_false_iff, !Z.eqb_eq. unit_cases dr dc; lia. }
    by rewrite Hrook.
  - unfold ChessRules.canBishopAttackSquare.
    assert (Hdiag : (Z.abs (pr + m * dr - pr) =? Z.abs (pc + m * dc - pc)) = true).
    { apply Z.eqb_eq. unit_cases dr dc; lia. }
    by rewrite Hdiag.
  - unfold ChessRules.canQueenAttackSquare. cbv zeta.
    assert (Hqueen : negb ((pr =? pr + m * dr) || (pc =? pc + m * dc))
                     && negb (Z.abs (pr + m * dr - pr) =? Z.abs (pc + m * dc - pc)) = false).
    { apply andb_false_iff. rewrite !negb_false_iff, orb_true_iff, !Z.eqb_eq.
      unit_cases dr dc; lia. }
    by rewrite Hqueen.
Qed.

Lemma stepper_attack_board b b' p pr pc tr tc :
  slider (type p) = false ->
  ChessRules.canPieceAttackSquare b p pr pc tr tc
  = ChessRules.canPieceAttackSquare b' p pr pc tr tc.
Proof.
  intros Hslider. unfold ChessRules.canPieceAttackSquare.
  destruct (type p); try discriminate Hslider; reflexivity.
Qed.

(** *** Every attacked square is marked *)

Lemma markRay_reaches b dr dc :
  wfGrid b ->
  forall (n : nat) fuel r c a,
    wfGrid a -> (n < fuel)%nat ->
    (forall i, 0 <= i <= Z.of_nat n -> inBoard (r + i * dr) (c + i * dc) = true) ->
    (forall i, 0 <= i < Z.of_nat n -> cell b (r + i * dr) (c + i * dc) = None) ->
    attackedAt (ChessRules.markRay fuel b r c dr dc a)
               (r + Z.of_nat n * dr) (c + Z.of_nat n * dc) = true.
Proof.
  intros Hwf. induction n as [|n IH]; intros fuel r c a Hwfa Hfuel Hin Hclear;
    (destruct fuel as [|fuel]; [lia|]); cbn [ChessRules.markRay].
  - change (Z.of_nat 0) with 0. rewrite !Z.mul_0_l, !Z.add_0_r.
    assert (Hrc : inBoard r c = true).
    { specialize (Hin 0). rewrite !Z.mul_0_l, !Z.add_0_r in Hin. apply Hin. lia. }
    rewrite Hrc. pose proof (attackedAt_markAt a r c Hwfa Hrc) as Hmark.
    destruct (notNull b r c); [done|].
    by apply (marking_markRay fuel b (r + dr) (c + dc) dr dc (markAt a r c));
      [apply wfGrid_markAt|].
  - assert (Hrc : inBoard r c = true).
    { specialize (Hin 0). rewrite !Z.mul_0_l, !Z.add_0_r in Hin. apply Hin. lia. }
    assert (Hempty : cell b r c = None).
    { specialize (Hclear 0). rewrite !Z.mul_0_l, !Z.add_0_r in Hclear. apply Hclear. lia. }
    rewrite Hrc, notNull_cell, Hempty by done. cbn [isEmptyCell negb].
    replace (r + Z.of_nat (S n) * dr) with (r + dr + Z.of_nat n * dr) by lia.
    replace (c + Z.of_nat (S n) * dc) with (c + dc + Z.of_nat n * dc) by lia.
    apply IH; [by apply wfGrid_markAt|lia|..]; intros i Hi.
    + replace (r + dr + i * dr) with (r + (i + 1) * dr) by lia.
      replace (c + dc + i * dc) with (c + (i + 1) * dc) by lia. apply Hin. lia.
    + replace (r + dr + i * dr) with (r + (i + 1) * dr) by lia.
      replace (c + dc + i * dc) with (c + (i + 1) * dc) by lia. apply Hclear. lia.
Qed.

(** The ray that starts beside [(pr, pc)] marks the end of a clear line. *)
Lemma markRay_marks_line b pr pc dr dc m a :
  wfGrid b -> wfGrid a -> inBoard pr pc = true -> unitStep dr dc -> 1 <= m ->
  inBoard (pr + m * dr) (pc + m * dc) = true ->
  clearLine b pr pc dr dc m ->
  attackedAt (ChessRules.markRay 8 b (pr + dr) (pc + dc) dr dc a)
             (pr + m * dr) (pc + m * dc) = true.
Proof.
  intros Hwf Hwfa Hin (Hdr & Hdc & Hne) Hm Hto Hclear.
  assert (Hshort : m <= 7).
  { apply inBoard_true in Hin, Hto. unit_cases dr dc; lia. }
  replace (pr + m * dr) with (pr + dr + Z.of_nat (Z.to_nat (m - 1)) * dr)
    by (rewrite Z2Nat.id by lia; lia).
  replace (pc + m * dc) with (pc + dc + Z.of_nat (Z.to_nat (m - 1)) * dc)
    by (rewrite Z2Nat.id by lia; lia).
  apply markRay_reaches; [done|done|lia|..]; rewrite Z2Nat.id by lia; intros i Hi.
  - replace (pr + dr + i * dr) with (pr + (i + 1) * dr) by lia.
    replace (pc + dc + i * dc) with (pc + (i + 1) * dc) by lia.
    destruct (decide (i + 1 = m)) as [->|]; [done|]. apply Hclear. lia.
  - replace (pr + dr + i * dr) with (pr + (i + 1) * dr) by lia.
    replace (pc + dc + i * dc) with (pc + (i + 1) * dc) by lia.
    apply Hclear. lia.
Qed.

Lemma markOffsets_marks offsets r c dr dc a :
  wfGrid a -> In (dr, dc) offsets -> inBoard (r + dr) (c + dc) = true ->
  attackedAt (ChessRules.markOffsets offsets r c a) (r + dr) (c + dc) = true.
Proof.
  intros Hwfa Hoff Hin. revert a Hwfa.
  induction offsets as [|[dr' dc'] offsets IH]; intros a Hwfa; [done|].
  change (ChessRules.markOffsets ((dr', dc') :: offsets) r c a)
    with (ChessRules.markOffsets offsets r c
            (if inBoard (r + dr') (c + dc') then markAt a (r + dr') (c + dc') else a)).
  destruct Hoff as [[= -> ->]|Hoff].
  - rewrite Hin.
    apply (marking_markOffsets offsets r c (markAt a (r + dr) (c + dc)));
      [by apply wfGrid_markAt|by apply attackedAt_markAt].
  - apply IH; [done|]. destruct (inBoard (r + dr') (c + dc')); [|done].
    by apply wfGrid_markAt.
Qed.

Lemma markAttackedSquares_complete b p pr pc tr tc a :
  wfGrid b -> wfGrid a -> inBoard pr pc = true -> inBoard tr tc = true ->
  ChessRules.canPieceAttackSquare b p pr pc tr tc = true ->
  attackedAt (ChessRules.markAttackedSquares b p pr pc a) tr tc = true.
Proof.
  intros Hwf Hwfa Hin Hto Hattack.
  destruct (slider (type p)) eqn:Hslider.
  - apply slider_attack_true in Hattack as (dr & dc & m & Hstep & Hline & Hm & -> & -> & Hclear);
      [|done].
    pose proof (fun a Hwfa => markRay_marks_line b pr pc dr dc m a Hwf Hwfa Hin Hstep Hm Hto Hclear)
      as Hray.
    destruct Hstep as (Hdr & Hdc & Hne).
    assert (Hrook : (dr = 0 \/ dc = 0) -> forall a, wfGrid a ->
              attackedAt (ChessRules.markRookAttacks b pr pc a) (pr + m * dr) (pc + m * dc) = true).
    { intros Hstraight a' Hwfa'. unfold ChessRules.markRookAttacks. cbv zeta.
      destruct (marking_markRay 8 b (pr - 1) pc (-1) 0 a' Hwfa') as [Hwf1 Hm1].
      destruct (marking_markRay 8 b (pr + 1) pc 1 0 _ Hwf1) as [Hwf2 Hm2].
      destruct (marking_markRay 8 b pr (pc - 1) 0 (-1) _ Hwf2) as [Hwf3 Hm3].
      destruct (marking_markRay 8 b pr (pc + 1) 0 1 _ Hwf3) as [Hwf4 Hm4].
      unit_cases dr dc; try lia; rewrite ?Z.add_0_r in Hray;
        first [by apply Hm4, Hm3, Hm2, Hray | by apply Hm4, Hm3, Hray
              | by apply Hm4, Hray | by apply Hray]. }
    assert (Hbishop : (dr <> 0 /\ dc <> 0) -> forall a, wfGrid a ->
              attackedAt (ChessRules.markBishopAttacks b pr pc a) (pr + m * dr) (pc + m * dc) = true).
    { intros Hdiag a' Hwfa'. unfold ChessRules.markBishopAttacks. cbv zeta.
      destruct (marking_markRay 8 b (pr - 1) (pc - 1) (-1) (-1) a' Hwfa') as [Hwf1 Hm1].
      destruct (marking_markRay 8 b (pr - 1) (pc + 1) (-1) 1 _ Hwf1) as [Hwf2 Hm2].
      destruct (marking_markRay 8 b (pr + 1) (pc - 1) 1 (-1) _ Hwf2) as [Hwf3 Hm3].
      destruct (marking_markRay 8 b (pr + 1) (pc + 1) 1 1 _ Hwf3) as [Hwf4 Hm4].
      unit_cases dr dc; try lia;
        first [by apply Hm4, Hm3, Hm2, Hray | by apply Hm4, Hm3, Hray
              | by apply Hm4, Hray | by apply Hray]. }
    unfold ChessRules.markAttackedSquares.
    destruct (type p); try discriminate Hslider; simpl in Hline.
    + by apply Hrook.
    + by apply Hbishop.
    + unfold ChessRules.markQueenAttacks.
      destruct (marking_markRookAttacks b pr pc a Hwfa) as [Hwf1 Hm1].
      destruct (marking_markBishopAttacks b pr pc _ Hwf1) as [Hwf2 Hm2].
      destruct (decide (dr = 0 \/ dc = 0)) as [Hstraight|Hdiag].
      * apply Hm2. by apply Hrook.
      * apply Hbishop; [lia|done].
  - unfold ChessRules.canPieceAttackSquare in Hattack.
    destruct ((pr =? tr) && (pc =? tc)) eqn:Hsame; [done|].
    unfold ChessRules.markAttackedSquares.
    destruct (type p); try discriminate Hslider.
    + unfold ChessRules.canPawnAttackSquare in Hattack.
      apply andb_true_iff in Hattack as [Hc Hr]. apply Z.eqb_eq in Hc, Hr. subst tr.
      unfold ChessRules.markPawnAttacks. cbv zeta.
      apply inBoard_true in Hin. pose proof Hto as Hto'. apply inBoard_true in Hto'.
      destruct (decide (tc = pc - 1)) as [->|Hright].
      * assert (H0 : (0 <? pc) = true) by (apply Z.ltb_lt; lia). rewrite H0, Hto.
        assert (Hmarked : attackedAt (markAt a (pr + ChessRules.direction (color p)) (pc - 1))
                            (pr + ChessRules.direction (color p)) (pc - 1) = true)
          by (by apply attackedAt_markAt).
        destruct (pc <? 7); [|done].
        destruct (inBoard (pr + ChessRules.direction (color p)) (pc + 1)); [|done].
        by apply attackedAt_markAt_mono.
      * assert (tc = pc + 1) as -> by lia.
        assert (H7 : (pc <? 7) = true) by (apply Z.ltb_lt; lia). rewrite H7, Hto.
        apply attackedAt_markAt; [|done].
        destruct (0 <? pc); [|done].
        destruct (inBoard (pr + ChessRules.direction (color p)) (pc - 1)); [|done].
        by apply wfGrid_markAt.
    + unfold ChessRules.canKnightAttackSquare in Hattack. cbv zeta in Hattack.
      replace tr with (pr + (tr - pr)) by lia. replace tc with (pc + (tc - pc)) by lia.
      apply markOffsets_marks; [done| |by replace (pr + (tr - pr)) with tr by lia;
                                       replace (pc + (tc - pc)) with tc by lia].
      rewrite orb_true_iff, !andb_true_iff, !Z.eqb_eq in Hattack.
      assert (Hcases : (tr - pr = -2 \/ tr - pr = -1 \/ tr - pr = 1 \/ tr - pr = 2)
                       /\ (tc - pc = -2 \/ tc - pc = -1 \/ tc - pc = 1 \/ tc - pc = 2)) by lia.
      destruct Hcases as [[Hr|[Hr|[Hr|Hr]]] [Hc|[Hc|[Hc|Hc]]]]; rewrite Hr, Hc in *;
        simpl; try lia; tauto.
    + unfold ChessRules.canKingAttackSquare in Hattack. cbv zeta in Hattack.
      replace tr with (pr + (tr - pr)) by lia. replace tc with (pc + (tc - pc)) by lia.
      apply markOffsets_marks; [done| |by replace (pr + (tr - pr)) with tr by lia;
                                       replace (pc + (tc - pc)) with tc by lia].
      rewrite andb_true_iff, !Z.leb_le in Hattack.
      apply andb_false_iff in Hsame. rewrite !Z.eqb_neq in Hsame.
      assert (Hcases : (tr - pr = -1 \/ tr - pr = 0 \/ tr - pr = 1)
                       /\ (tc - pc = -1 \/ tc - pc = 0 \/ tc - pc = 1)) by lia.
      destruct Hcases as [[Hr|[Hr|Hr]] [Hc|[Hc|Hc]]]; rewrite Hr, Hc in *;
        simpl; try lia; tauto.
Qed.

Lemma getAttackedSquares_complete b c p pr pc tr tc :
  wfGrid b -> cell b pr pc = Some p -> color p = opponent c ->
  inBoard tr tc = true ->
  ChessRules.canPieceAttackSquare b p pr pc tr tc = true ->
  attackedAt (ChessRules.getAttackedSquares b c) tr tc = true.
Proof.
  intros Hwf Hp Hcolor Hto Hattack.
  assert (Hin : inBoard pr pc = true).
  { destruct (inBoard pr pc) eqn:Hin; [done|]. by rewrite cell_outside in Hp. }
  unfold ChessRules.getAttackedSquares. cbv zeta.
  set (step := fun (attacked : AttackMap) '(r, k) =>
                 match cell b r k with
                 | Some piece =>
                     if bool_decide (color piece = opponent c)
                     then ChessRules.markAttackedSquares b piece r k attacked
                     else attacked
                 | None => attacked
                 end).
  assert (Hstep : forall x, marking (fun a => step a x)).
  { intros [r k]. unfold step. destruct (cell b r k) as [q|]; [|apply marking_id].
    destruct (bool_decide (color q = opponent c)); [|apply marking_id].
    apply marking_markAttackedSquares. }
  assert (Hfold : forall l a, wfGrid a ->
             attackedAt a tr tc = true \/ In (pr, pc) l ->
             attackedAt (fold_left step l a) tr tc = true).
  { induction l as [|x l IH]; intros a Hwfa Hcase; simpl.
    - by destruct Hcase.
    - destruct (Hstep x a Hwfa) as [Hwf' Hmono]. apply IH; [done|].
      destruct Hcase as [Hmarked|[->|Hlater]]; [left; auto| |by right].
      left. unfold step. rewrite Hp, bool_decide_eq_true_2 by done.
      by apply markAttackedSquares_complete. }
  apply Hfold; [apply wfGrid_noAttacks|]. right. by apply In_squares.
Qed.

(** *** The first king found *)

Lemma squares_sorted : StronglySorted (fun x y => scanIndex x < scanIndex y) squares.
Proof.
  apply Sorted_StronglySorted; [intros x y z; lia|].
  vm_compute. repeat (constructor; [|try (constructor; reflexivity)]). constructor.
Qed.

Lemma find_sorted {A} (key : A -> Z) (p : A -> bool) (l : list A) x :
  StronglySorted (fun a b => key a < key b) l ->
  List.find p l = Some x ->
  forall y, In y l -> key y < key x -> p y = false.
Proof.
  intros Hsorted. revert x.
  induction Hsorted as [|a l Hsorted IH Hall]; intros x; [done|]. simpl.
  rewrite List.Forall_forall in Hall.
  destruct (p a) eqn:Hpa.
  - intros [= <-] y [<-|Hy] Hlt; [lia|]. specialize (Hall y Hy). simpl in Hall. lia.
  - intros Hfind y [<-|Hy] Hlt; [done|]. by apply (IH x).
Qed.

Lemma findKing_first b c kr kc :
  ChessRules.findKing b c = (kr, kc) -> kr <> -1 ->
  inBoard kr kc = true
  /\ ChessRules.isKingOf c (cell b kr kc) = true
  /\ forall r k, inBoard r k = true -> 8 * r + k < 8 * kr + kc ->
                 ChessRules.isKingOf c (cell b r k) = false.
Proof.
  intros Hfind Hkr. destruct (findKing_found b c kr kc Hfind Hkr) as [Hin Hking].
  split_and!; [done..|]. intros r k Hrk Hlt.
  unfold ChessRules.findKing in Hfind.
  destruct (List.find _ squares) as [sq|] eqn:Hsq; [|by injection Hfind as <- <-].
  subst sq.
  apply (find_sorted scanIndex _ squares (kr, kc) squares_sorted Hsq (r, k));
    [by apply In_squares|done].
Qed.

Lemma findKing_exists b c r k :
  inBoard r k = true -> ChessRules.isKingOf c (cell b r k) = true ->
  exists kr kc, ChessRules.findKing b c = (kr, kc) /\ kr <> -1.
Proof.
  intros Hin Hking. unfold ChessRules.findKing.
  destruct (List.find _ squares) as [[kr kc]|] eqn:Hfind.
  - exists kr, kc. split; [done|]. apply find_some in Hfind as [Hsq _].
    apply In_squares, inBoard_true in Hsq. lia.
  - apply In_squares in Hin. pose proof (find_none _ _ Hfind _ Hin) as Hno.
    simpl in Hno. congruence.
Qed.

Lemma isKingInCheck_true b c :
  ChessRules.isKingInCheck b c = true ->
  exists kr kc pr pc p,
    ChessRules.findKing b c = (kr, kc) /\ kr <> -1
    /\ cell b pr pc = Some p /\ color p = opponent c
    /\ ChessRules.canPieceAttackSquare b p pr pc kr kc = true.
Proof.
  unfold ChessRules.isKingInCheck.
  destruct (ChessRules.findKing b c) as [kr kc] eqn:Hfind.
  destruct (kr =? -1) eqn:Hkr; [done|]. apply Z.eqb_neq in Hkr.
  intros Hex. apply existsb_exists in Hex as ([pr pc] & _ & Hp).
  destruct (cell b pr pc) as [p|] eqn:Hcell; [|done].
  apply andb_true_iff in Hp as [Hcolor Hattack]. apply bool_decide_eq_true in Hcolor.
  exists kr, kc, pr, pc, p. done.
Qed.

Lemma isKingInCheck_false b c kr kc pr pc p :
  ChessRules.isKingInCheck b c = false ->
  ChessRules.findKing b c = (kr, kc) -> kr <> -1 ->
  cell b pr pc = Some p -> color p = opponent c ->
  ChessRules.canPieceAttackSquare b p pr pc kr kc = false.
Proof.
  unfold ChessRules.isKingInCheck. intros Hcheck Hfind Hkr Hp Hcolor.
  rewrite Hfind in Hcheck. rewrite (proj2 (Z.eqb_neq kr (-1))) in Hcheck by done.
  destruct (ChessRules.canPieceAttackSquare b p pr pc kr kc) eqn:Hattack; [|done].
  assert (Hin : In (pr, pc) squares).
  { apply In_squares. destruct (inBoard pr pc) eqn:Hin; [done|].
    by rewrite cell_outside in Hp. }
  rewrite <- Hcheck. symmetry. apply existsb_exists. exists (pr, pc). split; [done|].
  simpl. rewrite Hp, Hattack, bool_decide_eq_true_2; done.
Qed.

(** *** The king after castling *)

Lemma cell_simulateMove b fr fc tr tc p r c :
  wfGrid b -> inBoard fr fc = true -> inBoard tr tc = true ->
  cell (ChessRules.simulateMove b fr fc tr tc p) r c
  = if decide ((r, c) = (fr, fc)) then None
    else if decide ((r, c) = (tr, tc)) then Some (ChessRules.movedTo p tr tc)
    else cell b r c.
Proof.
  intros Hwf Hfrom Hto. unfold ChessRules.simulateMove. cbv zeta.
  destruct (decide ((r, c) = (fr, fc))) as [[= -> ->]|Hne1].
  - rewrite cell_setCell_eq; [done|by apply wfGrid_setCell|done].
  - rewrite cell_setCell_ne by done.
    destruct (decide ((r, c) = (tr, tc))) as [[= -> ->]|Hne2].
    + by rewrite cell_setCell_eq.
    + by rewrite cell_setCell_ne.
Qed.


(** A piece that attacks a square on the board [b'], which differs from
    [b] on two squares only, the first empty and the second occupied in
    [b'], attacks that square on [b] as well, or attacks, on [b], the first
    of the two squares. *)
Lemma attack_through b b' p pr pc tr tc r c r2 c2 :
  wfGrid b -> inBoard pr pc = true ->
  (forall x y, (x, y) <> (r, c) -> (x, y) <> (r2, c2) -> cell b' x y = cell b x y) ->
  is_Some (cell b' r2 c2) ->
  ChessRules.canPieceAttackSquare b' p pr pc tr tc = true ->
  ChessRules.canPieceAttackSquare b p pr pc tr tc = true
  \/ ChessRules.canPieceAttackSquare b p pr pc r c = true.
Proof.
  intros Hwf Hin Hsame Hocc Hattack.
  destruct (slider (type p)) eqn:Hslider;
    [|left; by rewrite (stepper_attack_board b b')].
  apply slider_attack_true in Hattack as (dr & dc & m & Hstep & Hline & Hm & -> & -> & Hclear);
    [|done].
  assert (Hkeep : forall i, 1 <= i < m -> (pr + i * dr, pc + i * dc) <> (r, c) ->
            cell b (pr + i * dr) (pc + i * dc) = None).
  { intros i Hi Hne. destruct (Hclear i Hi) as [_ Hempty].
    rewrite <- Hsame; [done|done|]. intros [= Hr Hc]. rewrite Hr, Hc in Hempty.
    rewrite Hempty in Hocc. by destruct Hocc. }
  set (i0 := if decide (dr = 0) then (c - pc) * dc else (r - pr) * dr).
  destruct (decide (1 <= i0 < m /\ pr + i0 * dr = r /\ pc + i0 * dc = c))
    as [(Hi0 & Hr & Hc)|Hmiss].
  - right. apply slider_attack_along; [done..|].
    exists dr, dc, i0. split_and!; try done; try lia.
    intros i Hi. destruct (Hclear i) as [Hon _]; [lia|]. split; [done|].
    apply Hkeep; [lia|]. destruct Hstep as (Hdr & Hdc & Hne).
    intros [= Hr' Hc']. unit_cases dr dc; lia.
  - left. apply slider_attack_along; [done..|].
    exists dr, dc, m. split_and!; try done.
    intros i Hi. destruct (Hclear i Hi) as [Hon _]. split; [done|].
    apply Hkeep; [done|]. destruct Hstep as (Hdr & Hdc & Hne).
    intros [= Hr' Hc']. apply Hmiss. subst i0.
    unit_cases dr dc; simpl; lia.
Qed.

Lemma castling_leaves_king_safe b k r c tc :
  wfGrid b -> cell b r c = Some k -> type k = king ->
  inBoard r tc = true -> Z.abs (tc - c) = 2 ->
  ChessRules.isValidCastling b k r c tc = true ->
  ChessRules.isKingInCheck (ChessRules.simulateMove b r c r tc k) (color k) = false.
Proof.
  intros Hwf Hk Hking Hto Habs Hcastle.
  assert (Hfrom : inBoard r c = true).
  { destruct (inBoard r c) eqn:Hin; [done|]. by rewrite cell_outside in Hk. }
  apply isValidCastling_true in Hcastle as (Hcheck & (rk & Hrook & Hrt & _) & Hempty & Hsafe);
    [|done..].
  set (b' := ChessRules.simulateMove b r c r tc k).
  destruct (ChessRules.isKingInCheck b' (color k)) eqn:Hcheck'; [exfalso|done].
  apply isKingInCheck_true in Hcheck'
    as (kr & kc & pr & pc & p & Hfind' & Hkr & Hp' & Hcolor & Hattack').
  assert (Hcell : forall x y, cell b' x y
            = if decide ((x, y) = (r, c)) then None
              else if decide ((x, y) = (r, tc)) then Some (ChessRules.movedTo k r tc)
              else cell b x y)
    by (intros x y; by apply cell_simulateMove).
  assert (Hne : (r, tc) <> (r, c)) by (intros [= ->]; lia).
  (* the attacker is no piece of the move *)
  assert (Hp : cell b pr pc = Some p).
  { rewrite Hcell in Hp'. destruct (decide ((pr, pc) = (r, c))); [done|].
    destruct (decide ((pr, pc) = (r, tc))); [|done].
    injection Hp' as <-. simpl in Hcolor. by destruct (color k). }
  assert (Hpin : inBoard pr pc = true).
  { destruct (inBoard pr pc) eqn:Hin; [done|]. by rewrite cell_outside in Hp. }
  (* an attack on the new board comes from an attack on the old one *)
  assert (Hold : forall x y,
             ChessRules.canPieceAttackSquare b' p pr pc x y = true ->
             ChessRules.canPieceAttackSquare b p pr pc x y = true
             \/ ChessRules.canPieceAttackSquare b p pr pc r c = true).
  { intros x y. apply (attack_through b b' p pr pc x y r c r tc); [done..| |].
    - intros x' y' H1 H2. rewrite Hcell. by repeat case_decide.
    - rewrite Hcell. repeat case_decide; done. }
  (* the squares the king crosses are not attacked *)
  assert (Hcross : forall y, Z.min c tc <= y <= Z.max c tc ->
             ChessRules.canPieceAttackSquare b p pr pc r y = false).
  { intros y Hy.
    destruct (ChessRules.canPieceAttackSquare b p pr pc r y) eqn:Hattack; [|done].
    assert (Hiny : inBoard r y = true).
    { apply inBoard_true in Hfrom, Hto. apply inBoard_true. lia. }
    pose proof (getAttackedSquares_complete b (color k) p pr pc r y Hwf Hp Hcolor Hiny Hattack).
    rewrite Hsafe in H by done. done. }
  assert (Hnotfrom : ChessRules.canPieceAttackSquare b p pr pc r c = false)
    by (apply Hcross; lia).
  destruct (findKing_first b' (color k) kr kc Hfind' Hkr) as (Hkin & Hking' & Hfirst').
  destruct (decide ((kr, kc) = (r, tc))) as [[= -> ->]|Hother].
  - (* the king that castled is the first king *)
    destruct (Hold _ _ Hattack') as [Hattack|Hattack]; [|congruence].
    rewrite Hcross in Hattack by lia. done.
  - (* another king comes first *)
    assert (Hkc : (kr, kc) <> (r, c)).
    { intros [= -> ->]. rewrite Hcell in Hking'. by case_decide. }
    assert (Hsamecell : cell b' kr kc = cell b kr kc).
    { rewrite Hcell. by repeat case_decide. }
    assert (Hkingb : ChessRules.isKingOf (color k) (cell b kr kc) = true) by congruence.
    destruct (findKing_exists b (color k) kr kc Hkin Hkingb) as (kr0 & kc0 & Hfind & Hkr0).
    destruct (findKing_first b (color k) kr0 kc0 Hfind Hkr0) as (Hkin0 & Hking0 & Hfirst).
    assert (Hsamesq : (kr0, kc0) = (kr, kc)).
    { apply inBoard_true in Hkin, Hkin0, Hfrom, Hto.
      destruct (Z.lt_trichotomy (8 * kr0 + kc0) (8 * kr + kc)) as [Hlt|[Heq|Hgt]].
      - exfalso. pose proof (Hfirst' kr0 kc0 ltac:(by apply inBoard_true) Hlt) as Hno.
        rewrite Hcell in Hno. destruct (decide ((kr0, kc0) = (r, c))) as [[= -> ->]|].
        + (* the castling king stood before the first king of the new board *)
          assert (Hat : ChessRules.isKingOf (color k) (cell b' r tc) = true).
          { rewrite Hcell. repeat case_decide; try done. simpl.
            rewrite Hking. by rewrite !bool_decide_eq_true_2. }
          destruct (Z.lt_trichotomy (8 * kr + kc) (8 * r + tc)) as [Hlt'|[Heq'|Hgt']].
          * assert (kr = r /\ kc = c + 1 /\ tc = c + 2) as (-> & -> & ->) by lia.
            rewrite Hsamecell, Hempty in Hking'; [done|].
            rewrite (proj2 (Z.ltb_lt c (c + 2))) by lia. lia.
          * apply Hother. f_equal; lia.
          * rewrite Hfirst' in Hat; [done|by apply inBoard_true|lia].
        + destruct (decide ((kr0, kc0) = (r, tc))) as [[= -> ->]|]; [|congruence].
          destruct (decide (tc = if c <? tc then 7 else 0)) as [Hcorner|Hinner].
          * rewrite <- Hcorner in Hrook. rewrite Hrook in Hking0. simpl in Hking0.
            rewrite Hrt in Hking0. done.
          * rewrite Hempty in Hking0; [done|].
            destruct (c <? tc) eqn:Hside;
              [apply Z.ltb_lt in Hside|apply Z.ltb_ge in Hside]; lia.
      - f_equal; lia.
      - exfalso. rewrite Hfirst in Hkingb; [done|by apply inBoard_true|lia]. }
    injection Hsamesq as -> ->.
    pose proof (isKingInCheck_false b (color k) kr kc pr pc p Hcheck Hfind Hkr Hp Hcolor)
      as Hnot.
    destruct (Hold _ _ Hattack'); congruence.
Qed.

(** ** The move enumerator and the legality engine *)

Lemma In_kingOffsets r c tr tc :
  In (tr, tc) (map (fun '(rowDiff, colDiff) => (r + rowDiff, c + colDiff))
                   ChessRules.kingOffsets)
  <-> Z.abs (tr - r) <= 1 /\ Z.abs (tc - c) <= 1 /\ (tr, tc) <> (r, c).
Proof.
  rewrite in_map_iff. split.
  - intros ([dr dc] & [= <- <-] & Hoff). simpl in Hoff.
    assert (Hne : (dr, dc) <> (0, 0)) by (intros [= -> ->]; intuition congruence).
    split_and!.
    + repeat destruct Hoff as [[= <- <-]|Hoff]; try done; lia.
    + repeat destruct Hoff as [[= <- <-]|Hoff]; try done; lia.
    + intros [= Hr Hc]. apply Hne. f_equal; lia.
  - intros (Hr & Hc & Hne). exists (tr - r, tc - c). split; [f_equal; lia|].
    assert (Hcases : (tr - r = -1 \/ tr - r = 0 \/ tr - r = 1)
                     /\ (tc - c = -1 \/ tc - c = 0 \/ tc - c = 1)) by lia.
    destruct Hcases as [[Hdr|[Hdr|Hdr]] [Hdc|[Hdc|Hdc]]]; rewrite Hdr, Hdc; simpl;
      try tauto.
    exfalso. apply Hne. f_equal; lia.
Qed.



(** What [isValidMove] answers for a king. *)
Lemma isValidMove_king b k r c tr tc :
  type k = king ->
  ChessRules.isValidMove b k r c tr tc = true
  <-> (tr, tc) <> (r, c) /\ inBoard tr tc = true
      /\ ChessRules.sameColor (cell b tr tc) k = false
      /\ ChessRules.isKingInCheck (ChessRules.simulateMove b r c tr tc k) (color k) = false
      /\ ((Z.abs (tr - r) <= 1 /\ Z.abs (tc - c) <= 1
           /\ attackedAt (ChessRules.getAttackedSquares b (color k)) tr tc = false)
          \/ (hasMoved k = false /\ tr = r /\ Z.abs (tc - c) = 2
              /\ ChessRules.isValidCastling b k r c tc = true)).
Proof.
  intros Hking. unfold ChessRules.isValidMove. rewrite Hking.
  destruct ((r =? tr) && (c =? tc)) eqn:Hsame.
  { apply andb_true_iff in Hsame as [Hr Hc]. apply Z.eqb_eq in Hr, Hc. subst.
    split; [done|]. intros (Hne & _). done. }
  assert (Hne : (tr, tc) <> (r, c)).
  { intros [= -> ->]. by rewrite !Z.eqb_refl in Hsame. }
  destruct ((tr <? 0) || (7 <? tr) || (tc <? 0) || (7 <? tc)) eqn:Hout.
  { split; [done|]. intros (_ & Hin & _). apply inBoard_true in Hin.
    rewrite !orb_true_iff, !Z.ltb_lt in Hout. lia. }
  assert (Hin : inBoard tr tc = true).
  { apply inBoard_true. rewrite !orb_false_iff, !Z.ltb_ge in Hout. lia. }
  destruct (ChessRules.sameColor (cell b tr tc) k) eqn:Hfriend.
  { split; [done|]. intros (_ & _ & ? & _). done. }
  cbv zeta. unfold ChessRules.isValidKingMove. cbv zeta. rewrite Hfriend.
  destruct (ChessRules.isKingInCheck (ChessRules.simulateMove b r c tr tc k) (color k))
    eqn:Hcheck.
  { split; [|intros (_ & _ & _ & ? & _); done].
    match goal with |- (if negb ?v then _ else _) = _ -> _ => by destruct v end. }
  destruct ((Z.abs (tr - r) <=? 1) && (Z.abs (tc - c) <=? 1)) eqn:Hnear.
  - apply andb_true_iff in Hnear as [Hr Hc]. apply Z.leb_le in Hr, Hc.
    destruct (attackedAt (ChessRules.getAttackedSquares b (color k)) tr tc) eqn:Hatt; simpl.
    + split; [done|]. intros (_ & _ & _ & _ & [(_ & _ & ?)|(_ & _ & ? & _)]); [done|lia].
    + split; [|done]. intros _. split_and!; try done. left. done.
  - apply andb_false_iff in Hnear. rewrite !Z.leb_gt in Hnear.
    destruct ((Z.abs (tr - r) =? 0) && (Z.abs (tc - c) =? 2) && negb (hasMoved k)) eqn:Hfar.
    + apply andb_true_iff in Hfar as [Hfar Hmoved].
      apply andb_true_iff in Hfar as [Hr Hc]. apply Z.eqb_eq in Hr, Hc.
      apply negb_true_iff in Hmoved.
      destruct (ChessRules.isValidCastling b k r c tc) eqn:Hcastle; simpl.
      * split; [|done]. intros _. split_and!; try done. right. split_and!; try done. lia.
      * split; [done|]. intros (_ & _ & _ & _ & [(? & ? & _)|(_ & _ & _ & ?)]); [lia|done].
    + simpl. split; [done|].
      intros (_ & _ & _ & _ & [(? & ? & _)|(Hmoved & -> & Habs & _)]); [lia|].
      rewrite Hmoved, Z.sub_diag, Habs in Hfar. done.
Qed.


(** For a king on column 4 the whole legality engine agrees: its final
    self-check simulation never turns down a castling that the five
    preconditions allow. *)
Lemma isValidMove_castling b k r tc :
  wfGrid b -> cell b r 4 = Some k -> type k = king -> Z.abs (tc - 4) = 2 ->
  ChessRules.isValidMove b k r 4 r tc = true <-> castlingPreconditions b k r 4 tc.
Proof.
  intros Hwf Hk Hking Habs.
  assert (Hfrom : inBoard r 4 = true).
  { destruct (inBoard r 4) eqn:Hin; [done|]. by rewrite cell_outside in Hk. }
  rewrite <- (isValidKingMove_two_columns b k r 4 tc) by done.
  rewrite isValidMove_king by done. unfold ChessRules.isValidKingMove. cbv zeta.
  rewrite Z.sub_diag, Habs. simpl.
  destruct (hasMoved k) eqn:Hmoved; simpl.
  { split; [|done]. intros (_ & _ & _ & _ & [(_ & ? & _)|(? & _)]); [lia|done]. }
  split.
  - intros (_ & _ & _ & _ & [(_ & ? & _)|(_ & _ & _ & ?)]); [lia|done].
  - intros Hcastle.
    assert (Hin : inBoard r tc = true).
    { apply inBoard_true in Hfrom. apply inBoard_true. lia. }
    pose proof (castling_leaves_king_safe b k r 4 tc Hwf Hk Hking Hin Habs Hcastle) as Hsafe.
    pose proof Hcastle as Hpre.
    apply isValidCastling_true in Hpre as (_ & _ & Hempty & _); [|done..].
    split_and!; try done.
    + intros [= ->]. lia.
    + rewrite Hempty; [done|].
      destruct (4 <? tc) eqn:Hside; [apply Z.ltb_lt in Hside|apply Z.ltb_ge in Hside]; lia.
    + right. done.
Qed.

(** ** Reachable sessions *)

Lemma wfGrid_createInitialBoard : wfGrid createInitialBoard.
Proof. split; [reflexivity|]. repeat constructor. Qed.

Lemma kingsAtHome_initial : kingsAtHome createInitialBoard.
Proof.
  split; [apply wfGrid_createInitialBoard|]. intros r c p Hp Hking _.
  assert (Hall : forallb (fun '(r, c) =>
                     match cell createInitialBoard r c with
                     | Some p => negb (bool_decide (type p = king)) || (c =? 4)
                     | None => true
                     end) squares = true) by (vm_compute; reflexivity).
  rewrite forallb_forall in Hall.
  destruct (inBoard r c) eqn:Hin; [|by rewrite cell_outside in Hp].
  apply In_squares in Hin. specialize (Hall _ Hin). simpl in Hall.
  rewrite Hp, bool_decide_eq_true_2 in Hall by done. by apply Z.eqb_eq.
Qed.

Lemma kingsAtHome_boardStep b b' : kingsAtHome b -> boardStep b b' -> kingsAtHome b'.
Proof.
  intros [Hwf Hhome] [Hwf' Hstep]. split; [auto|].
  intros r c p Hp Hking Hmoved.
  destruct (Hstep r c p Hp) as [Hold|[Hnew|Hnew]]; [eauto|congruence|done].
Qed.

Lemma board_handleJoin newPlayerId playerName now g :
  board (snd (handleJoin newPlayerId playerName now g)) = board g.
Proof.
  unfold handleJoin. rewrite bind_get.
  destruct (2 <=? Z.of_nat (length (players g))); reflexivity.
Qed.

Lemma handlePromotion_board r c promotionType now g :
  In promotionType ChessRules.getPromotionOptions ->
  boardStep (board g) (board (snd (handlePromotion r c promotionType now g))).
Proof.
  intros Hoption.
  assert (Hnoking : promotionType <> king).
  { intros ->. simpl in Hoption. intuition congruence. }
  unfold handlePromotion. rewrite bind_get.
  destruct (negb (onBoardRow r)); [apply boardStep_refl|].
  destruct (cell (board g) r c) as [p|]; [|apply boardStep_refl].
  destruct (bool_decide (type p = pawn)); [|apply boardStep_refl].
  unfold mbind, Handler_bind, modify. cbn [snd].
  rewrite board_updateGameStatus. cbn [board set_board].
  by apply boardStep_promote.
Qed.

Lemma reachable_kingsAtHome g : reachable g -> kingsAtHome (board g).
Proof.
  induction 1 as [gameId|g pid nm now _ IH|g m now _ IH|g r c t now _ IH Hoption].
  - apply kingsAtHome_initial.
  - by rewrite board_handleJoin.
  - eapply kingsAtHome_boardStep; [exact IH|apply handleMove_board].
  - eapply kingsAtHome_boardStep; [exact IH|by apply handlePromotion_board].
Qed.

Lemma reachable_playMoves g moves : reachable g -> reachable (playMoves g moves).
Proof.
  revert g. induction moves as [|[from to] moves IH]; intros g Hg; [done|].
  simpl. apply IH. by apply reachable_move.
Qed.

Lemma reachable_startedGame : reachable startedGame.
Proof. unfold startedGame. do 2 apply reachable_join. apply reachable_created. Qed.

(** The half-move clock of a reachable session is 0, and its status is
    never [draw]. *)
Lemma reachable_clock_zero g :
  reachable g -> halfMoveClock g = 0 /\ status g <> draw.
Proof.
  induction 1 as [gameId|g pid nm now Hg IH|g m now Hg IH|g r c t now Hg IH Hoption].
  - done.
  - destruct IH as [Hclock Hstatus]. unfold handleJoin. rewrite bind_get.
    destruct (2 <=? Z.of_nat (length (players g))); [done|].
    unfold mbind, Handler_bind, modify, get. cbn [snd halfMoveClock set_status set_players status].
    split; [done|]. by destruct (_ =? 2).
  - destruct IH as [Hclock Hstatus].
    destruct (handleMove m now g) as [[[]|why] g'] eqn:Hrun; cbn [snd].
    + assert (Hzero : halfMoveClock g' = 0).
      { eapply handleMove_clock_zero; [|exact Hrun]. by apply reachable_kingsAtHome. }
      split; [done|]. apply handleMove_status in Hrun as (g0 & -> & _ & _ & Hc & _).
      intros Hdraw. apply status_updateGameStatus_draw in Hdraw. lia.
    + by apply handleMove_returned in Hrun as [-> _].
  - destruct IH as [Hclock Hstatus]. unfold handlePromotion. rewrite bind_get.
    destruct (negb (onBoardRow r)); [done|].
    destruct (cell (board g) r c) as [p|]; [|done].
    destruct (bool_decide (type p = pawn)); [|done].
    unfold mbind, Handler_bind, modify. cbn [snd].
    rewrite halfMoveClock_updateGameStatus. cbn [halfMoveClock set_board].
    split; [done|]. intros Hdraw. apply status_updateGameStatus_draw in Hdraw.
    cbn [halfMoveClock set_board] in Hdraw. lia.
Qed.


Lemma reachable_castleReadyGame : reachable castleReadyGame.
Proof. apply reachable_playMoves, reachable_startedGame. Qed.

Lemma castleReadyGame_king :
  cell (board castleReadyGame) 7 4 = Some castleReadyKing.
Proof. vm_compute. reflexivity. Qed.



Lemma isValidMove_no_self_check b p r c tr tc :
  ChessRules.isValidMove b p r c tr tc = true ->
  ChessRules.isKingInCheck (ChessRules.simulateMove b r c tr tc p) (color p) = false.
Proof.
  unfold ChessRules.isValidMove.
  repeat match goal with
         | |- (if ?v then _ else _) = true -> _ => destruct v; try done
         end.
Qed.



(** Outside the reachable sessions the two can differ.  [handlePromotion]
    checks neither the rank of the pawn nor the kind asked for: with the
    kind [king], which is none of [getPromotionOptions], it turns the
    unmoved pawn g2 of the start position into an unmoved king, and with
    h2 turned into a rook [getValidMoves] offers that king the castling
    square [(6, 8)], off the board, which [isValidMove] rejects. *)
Lemma getValidMoves_off_board_after_promotion :
  let b := board unguardedPromotions in
  let k := default noPiece (cell b 6 6) in
  type k = king /\ hasMoved k = false
  /\ In (6, 8) (ChessRules.getValidMoves b k 6 6)
  /\ ChessRules.isValidMove b k 6 6 6 8 = false.
Proof. vm_compute. tauto. Qed.

(** * Further properties of the code *)

(** ** Concrete sessions *)


Lemma reachable_foolsMate : reachable foolsMate.
Proof. apply reachable_playMoves, reachable_startedGame. Qed.

Lemma reachable_checkedGame : reachable checkedGame.
Proof. apply reachable_playMoves, reachable_startedGame. Qed.

Lemma wfGrid_startedGame : wfGrid (board startedGame).
Proof. exact (proj1 (reachable_kingsAtHome _ reachable_startedGame)). Qed.

Lemma openingRequest_run :
  handleMove openingRequest 0 startedGame
  = (Finished tt, snd (handleMove openingRequest 0 startedGame)).
Proof. vm_compute. reflexivity. Qed.

Lemma castlingRequest_run :
  handleMove castlingRequest 0 castleReadyGame
  = (Finished tt, snd (handleMove castlingRequest 0 castleReadyGame)).
Proof. vm_compute. reflexivity. Qed.


(** ** Lines of sight *)

Lemma aligned_steps fr fc tr tc :
  (fr, fc) <> (tr, tc) ->
  fr = tr \/ fc = tc \/ Z.abs (tr - fr) = Z.abs (tc - fc) ->
  let m := Z.max (Z.abs (tr - fr)) (Z.abs (tc - fc)) in
  1 <= m /\ tr = fr + m * ChessRules.sign fr tr /\ tc = fc + m * ChessRules.sign fc tc
  /\ unitStep (ChessRules.sign fr tr) (ChessRules.sign fc tc).
Proof.
  intros Hne Hline. simpl.
  assert (fr <> tr \/ fc <> tc) as Hne'.
  { destruct (decide (fr = tr)) as [->|]; [|by left].
    right. intros ->. by apply Hne. }
  unfold unitStep.
  destruct (sign_cases fr tr) as [[? ->]|[[? ->]|[? ->]]],
           (sign_cases fc tc) as [[? ->]|[[? ->]|[? ->]]]; lia.
Qed.

(** X1.  Between two different squares of the board that share a row, a column
    or a diagonal, [isPathClear] holds exactly when every square strictly
    between them is empty; the destination itself is not looked at. *)
Theorem isPathClear_iff_between_empty b fr fc tr tc :
  wfGrid b -> inBoard fr fc = true -> inBoard tr tc = true ->
  (fr, fc) <> (tr, tc) ->
  fr = tr \/ fc = tc \/ Z.abs (tr - fr) = Z.abs (tc - fc) ->
  ChessRules.isPathClear b fr fc tr tc = true
  <-> forall i, 1 <= i < Z.max (Z.abs (tr - fr)) (Z.abs (tc - fc)) ->
        cell b (fr + i * ChessRules.sign fr tr) (fc + i * ChessRules.sign fc tc) = None.
Proof.
  intros Hwf Hfrom Hto Hne Hline.
  destruct (aligned_steps fr fc tr tc Hne Hline) as (Hm & Hr & Hc & Hunit).
  set (m := Z.max (Z.abs (tr - fr)) (Z.abs (tc - fc))) in *.
  set (dr := ChessRules.sign fr tr) in *. set (dc := ChessRules.sign fc tc) in *.
  split.
  - intros Hclear i Hi. apply isPathClear_true in Hclear as (m' & Hm' & Hr' & Hc' & Hline').
    fold dr dc in Hr', Hc', Hline'.
    assert (m' = m) as ->.
    { destruct Hunit as (? & ? & [?|?]); nia. }
    by apply Hline'.
  - intros Hempty. rewrite Hr, Hc at 1.
    apply isPathClear_clear; [done..|].
    intros i Hi. split; [|by apply Hempty].
    apply inBoard_true in Hfrom, Hto. apply inBoard_true.
    destruct Hunit as (? & ? & _). nia.
Qed.

Lemma isPathClear_iff_between_empty_witness :
  ChessRules.isPathClear createInitialBoard 6 0 3 0 = true
  <-> forall i, 1 <= i < Z.max (Z.abs (3 - 6)) (Z.abs (0 - 0)) ->
        cell createInitialBoard (6 + i * ChessRules.sign 6 3) (0 + i * ChessRules.sign 0 0)
        = None.
Proof.
  apply (isPathClear_iff_between_empty createInitialBoard 6 0 3 0);
    [exact wfGrid_createInitialBoard|reflexivity|reflexivity|discriminate
    |right; left; reflexivity].
Defined.

(** ** The attack map is exact *)

Lemma cell_inBoard b r c p : cell b r c = Some p -> inBoard r c = true.
Proof.
  intros Hcell. destruct (inBoard r c) eqn:Hin; [done|].
  by rewrite cell_outside in Hcell.
Qed.

Lemma attackedAt_inBoard a r c : attackedAt a r c = true -> inBoard r c = true.
Proof.
  unfold attackedAt. destruct (inBoard r c) eqn:Hin; [done|].
  by rewrite gridGet_outside.
Qed.

Lemma attackedAt_markAt_inv a r c r' c' :
  attackedAt (markAt a r c) r' c' = true ->
  (r', c') = (r, c) \/ attackedAt a r' c' = true.
Proof.
  intros Hmarked. destruct (decide ((r, c) = (r', c'))) as [Heq|Hne]; [by left|right].
  unfold attackedAt, markAt in *. by rewrite gridGet_gridSet_ne in Hmarked.
Qed.

Lemma attackedAt_noAttacks r c : attackedAt ChessRules.noAttacks r c = false.
Proof.
  unfold attackedAt, gridGet, ChessRules.noAttacks.
  destruct (inBoard r c); [|done].
  destruct (replicate 8 (replicate 8 false) !! Z.to_nat r) as [cells|] eqn:Hrow; [|done].
  apply lookup_replicate in Hrow as [-> _].
  destruct (replicate 8 false !! Z.to_nat c) as [v|] eqn:Hcell; [|done].
  by apply lookup_replicate in Hcell as [-> _].
Qed.

(** A square that a ray marks lies on the ray, behind empty squares. *)
Lemma markRay_sound b dr dc tr tc fuel :
  forall r c a,
    attackedAt (ChessRules.markRay fuel b r c dr dc a) tr tc = true ->
    attackedAt a tr tc = true
    \/ exists n, 0 <= n /\ tr = r + n * dr /\ tc = c + n * dc /\
         forall i, 0 <= i < n ->
           inBoard (r + i * dr) (c + i * dc) = true
           /\ cell b (r + i * dr) (c + i * dc) = None.
Proof.
  induction fuel as [|fuel IH]; intros r c a; cbn [ChessRules.markRay]; [by left|].
  destruct (inBoard r c) eqn:Hin; [|by left].
  destruct (notNull b r c) eqn:Hnull.
  - intros Hmarked. apply attackedAt_markAt_inv in Hmarked as [Heq|Hold]; [|by left].
    right. exists 0. injection Heq as -> ->. split_and!; [lia..|]. intros i Hi. lia.
  - intros Hmarked. apply IH in Hmarked as [Hmarked|(n & Hn & -> & -> & Hclear)].
    + apply attackedAt_markAt_inv in Hmarked as [Heq|Hold]; [|by left].
      right. exists 0. injection Heq as -> ->. split_and!; [lia..|]. intros i Hi. lia.
    + right. exists (n + 1). split_and!; [lia..|].
      intros i Hi. destruct (decide (i = 0)) as [->|Hi0].
      * rewrite !Z.mul_0_l, !Z.add_0_r. by apply notNull_false in Hnull.
      * replace (r + i * dr) with (r + dr + (i - 1) * dr) by lia.
        replace (c + i * dc) with (c + dc + (i - 1) * dc) by lia.
        apply Hclear. lia.
Qed.

Lemma markRay_sound_line b pr pc dr dc tr tc fuel a :
  attackedAt (ChessRules.markRay fuel b (pr + dr) (pc + dc) dr dc a) tr tc = true ->
  attackedAt a tr tc = true
  \/ exists m, 1 <= m /\ tr = pr + m * dr /\ tc = pc + m * dc /\ clearLine b pr pc dr dc m.
Proof.
  intros Hmarked. apply markRay_sound in Hmarked as [?|(n & Hn & -> & -> & Hclear)]; [by left|].
  right. exists (n + 1). split_and!; [lia..|].
  intros i Hi.
  replace (pr + i * dr) with (pr + dr + (i - 1) * dr) by lia.
  replace (pc + i * dc) with (pc + dc + (i - 1) * dc) by lia.
  apply Hclear. lia.
Qed.

Lemma markOffsets_sound offsets r c tr tc :
  forall a,
    attackedAt (ChessRules.markOffsets offsets r c a) tr tc = true ->
    attackedAt a tr tc = true
    \/ exists dr dc, In (dr, dc) offsets /\ tr = r + dr /\ tc = c + dc.
Proof.
  unfold ChessRules.markOffsets.
  induction offsets as [|[dr dc] offsets IH]; intros a; cbn [fold_left]; [by left|].
  intros Hmarked. apply IH in Hmarked as [Hmarked|(dr' & dc' & Hin & -> & ->)].
  - destruct (inBoard (r + dr) (c + dc)); [|by left].
    apply attackedAt_markAt_inv in Hmarked as [Heq|?]; [|by left].
    right. exists dr, dc. injection Heq as -> ->. split_and!; [by left|done..].
  - right. exists dr', dc'. split_and!; [by right|done..].
Qed.

Lemma markPawnAttacks_sound p r c a tr tc :
  attackedAt (ChessRules.markPawnAttacks p r c a) tr tc = true ->
  attackedAt a tr tc = true
  \/ (Z.abs (tc - c) = 1 /\ tr = r + ChessRules.direction (color p)).
Proof.
  unfold ChessRules.markPawnAttacks.
  repeat match goal with |- context [if ?v then _ else _] => destruct v end;
    intros Hmarked;
    repeat match goal with
           | H : attackedAt (markAt _ _ _) _ _ = true |- _ =>
               apply attackedAt_markAt_inv in H as [H|H]; [injection H as -> ->; right; lia|]
           end; by left.
Qed.

Lemma attacksAlong_intro b t pr pc dr dc m :
  unitStep dr dc -> lineOf t dr dc -> 1 <= m -> clearLine b pr pc dr dc m ->
  attacksAlong b t pr pc (pr + m * dr) (pc + m * dc).
Proof. intros. exists dr, dc, m. done. Qed.

(** What a piece marks it attacks. *)
Lemma markAttackedSquares_sound b p pr pc a tr tc :
  wfGrid b -> inBoard pr pc = true ->
  attackedAt (ChessRules.markAttackedSquares b p pr pc a) tr tc = true ->
  attackedAt a tr tc = true
  \/ ChessRules.canPieceAttackSquare b p pr pc tr tc = true.
Proof.
  intros Hwf Hin. unfold ChessRules.markAttackedSquares.
  assert (Hray : forall r0 c0 dr dc a',
            attackedAt (ChessRules.markRay 8 b r0 c0 dr dc a') tr tc = true ->
            r0 = pr + dr -> c0 = pc + dc ->
            unitStep dr dc -> lineOf (type p) dr dc ->
            attackedAt a' tr tc = true
            \/ ChessRules.canPieceAttackSquare b p pr pc tr tc = true).
  { intros r0 c0 dr dc a' Hmarked -> -> Hunit Hline.
    apply markRay_sound_line in Hmarked as [?|(m & Hm & -> & -> & Hclear)]; [by left|].
    right. apply slider_attack_along; [done..|]. by apply attacksAlong_intro. }
  assert (Hstep : forall offsets a',
            (forall dr dc, In (dr, dc) offsets ->
               ChessRules.canPieceAttackSquare b p pr pc (pr + dr) (pc + dc) = true) ->
            attackedAt (ChessRules.markOffsets offsets pr pc a') tr tc = true ->
            attackedAt a' tr tc = true
            \/ ChessRules.canPieceAttackSquare b p pr pc tr tc = true).
  { intros offsets a' Hall Hmarked.
    apply markOffsets_sound in Hmarked as [?|(dr & dc & Hoff & -> & ->)]; [by left|].
    right. by apply Hall. }
  destruct (type p) eqn:Htype in |- *.
  - intros Hmarked. apply markPawnAttacks_sound in Hmarked as [?|[Hcol ->]]; [by left|].
    right. unfold ChessRules.canPieceAttackSquare, ChessRules.canPawnAttackSquare.
    rewrite Htype.
    replace (pc =? tc) with false by (symmetry; apply Z.eqb_neq; lia).
    rewrite andb_false_r. apply andb_true_iff. split; [by apply Z.eqb_eq|apply Z.eqb_refl].
  - unfold ChessRules.markRookAttacks. intros Hmarked.
    repeat (apply Hray in Hmarked as [Hmarked|?];
            [|by right|lia|lia|unfold unitStep; lia|rewrite Htype; simpl; lia]).
    by left.
  - intros Hmarked. apply Hstep in Hmarked; [done|].
    intros dr dc Hoff. unfold ChessRules.canPieceAttackSquare. rewrite Htype.
    unfold ChessRules.canKnightAttackSquare.
    cbn in Hoff.
    repeat (destruct Hoff as [Hoff|Hoff]; [injection Hoff as <- <-|]); try done.
    all: replace (pr =? pr + _) with false by (symmetry; apply Z.eqb_neq; lia).
    all: cbn [andb].
    all: apply orb_true_iff; rewrite !andb_true_iff, !Z.eqb_eq; lia.
  - unfold ChessRules.markBishopAttacks. intros Hmarked.
    repeat (apply Hray in Hmarked as [Hmarked|?];
            [|by right|lia|lia|unfold unitStep; lia|rewrite Htype; simpl; lia]).
    by left.
  - unfold ChessRules.markQueenAttacks, ChessRules.markBishopAttacks,
      ChessRules.markRookAttacks. intros Hmarked.
    repeat (apply Hray in Hmarked as [Hmarked|?];
            [|by right|lia|lia|unfold unitStep; lia|by rewrite Htype]).
    by left.
  - intros Hmarked. apply Hstep in Hmarked; [done|].
    intros dr dc Hoff. unfold ChessRules.canPieceAttackSquare. rewrite Htype.
    unfold ChessRules.canKingAttackSquare.
    cbn in Hoff.
    repeat (destruct Hoff as [Hoff|Hoff]; [injection Hoff as <- <-|]); try done.
    all: match goal with
         | |- (if ?v then _ else _) = _ =>
             replace v with false by (symmetry; apply andb_false_iff; rewrite !Z.eqb_neq; lia)
         end.
    all: rewrite !andb_true_iff, !Z.leb_le; lia.
Qed.

(** Every marked square of the attack map is attacked by a piece of the
    opponent. *)
Lemma getAttackedSquares_sound b c tr tc :
  wfGrid b ->
  attackedAt (ChessRules.getAttackedSquares b c) tr tc = true ->
  exists pr pc p,
    cell b pr pc = Some p /\ color p = opponent c
    /\ ChessRules.canPieceAttackSquare b p pr pc tr tc = true.
Proof.
  intros Hwf. unfold ChessRules.getAttackedSquares.
  assert (Hfold : forall l a,
    attackedAt
      (fold_left (fun attacked '(r, k) =>
                    match cell b r k with
                    | Some piece =>
                        if bool_decide (color piece = opponent c)
                        then ChessRules.markAttackedSquares b piece r k attacked
                        else attacked
                    | None => attacked
                    end) l a) tr tc = true ->
    attackedAt a tr tc = true
    \/ exists pr pc p,
         cell b pr pc = Some p /\ color p = opponent c
         /\ ChessRules.canPieceAttackSquare b p pr pc tr tc = true).
  { induction l as [|[r k] l IH]; intros a; cbn [fold_left]; [by left|].
    intros Hmarked. apply IH in Hmarked as [Hmarked|?]; [|by right].
    destruct (cell b r k) as [p|] eqn:Hcell; [|by left].
    case_bool_decide as Hcolor; [|by left].
    apply markAttackedSquares_sound in Hmarked as [?|Hattack];
      [by left| |done|by eapply cell_inBoard].
    right. by exists r, k, p. }
  intros Hmarked. apply Hfold in Hmarked as [Hmarked|?]; [|done].
  by rewrite attackedAt_noAttacks in Hmarked.
Qed.

(** X2.  On an 8 by 8 board the attack map of [getAttackedSquares] marks a
    square exactly when the square is on the board and some piece of the
    opponent attacks it in the sense of [canPieceAttackSquare]. *)
Theorem getAttackedSquares_exact b c tr tc :
  wfGrid b ->
  attackedAt (ChessRules.getAttackedSquares b c) tr tc = true
  <-> inBoard tr tc = true
      /\ exists pr pc p,
           cell b pr pc = Some p /\ color p = opponent c
           /\ ChessRules.canPieceAttackSquare b p pr pc tr tc = true.
Proof.
  intros Hwf. split.
  - intros Hmarked. split; [by eapply attackedAt_inBoard|].
    by apply getAttackedSquares_sound.
  - intros (Hin & pr & pc & p & Hcell & Hcolor & Hattack).
    by eapply getAttackedSquares_complete.
Qed.

Lemma getAttackedSquares_exact_witness :
  attackedAt (ChessRules.getAttackedSquares createInitialBoard white) 2 0 = true
  <-> inBoard 2 0 = true
      /\ exists pr pc p,
           cell createInitialBoard pr pc = Some p /\ color p = opponent white
           /\ ChessRules.canPieceAttackSquare createInitialBoard p pr pc 2 0 = true.
Proof. exact (getAttackedSquares_exact createInitialBoard white 2 0 wfGrid_createInitialBoard). Defined.

(** Check is the attack map read on the king's square. *)
Lemma isKingInCheck_attacked b c kr kc :
  wfGrid b -> ChessRules.findKing b c = (kr, kc) -> kr <> -1 ->
  ChessRules.isKingInCheck b c
  = attackedAt (ChessRules.getAttackedSquares b c) kr kc.
Proof.
  intros Hwf Hking Hfound.
  destruct (findKing_found _ _ _ _ Hking Hfound) as [Hin _].
  destruct (ChessRules.isKingInCheck b c) eqn:Hcheck; symmetry.
  - apply isKingInCheck_true in Hcheck
      as (kr' & kc' & pr & pc & p & Hking' & _ & Hcell & Hcolor & Hattack).
    rewrite Hking in Hking'. injection Hking' as <- <-.
    by eapply getAttackedSquares_complete.
  - apply not_true_is_false. intros Hmarked.
    apply getAttackedSquares_sound in Hmarked as (pr & pc & p & Hcell & Hcolor & Hattack);
      [|done].
    by rewrite (isKingInCheck_false _ _ _ _ _ _ _ Hcheck Hking Hfound Hcell Hcolor)
      in Hattack.
Qed.

(** X3.  When the colour has a king, [isKingInCheck] says what the attack map
    says of the square of its first king in the scan of the board. *)
Theorem isKingInCheck_iff_king_square_attacked b c kr kc :
  wfGrid b -> ChessRules.findKing b c = (kr, kc) -> kr <> -1 ->
  ChessRules.isKingInCheck b c
  = attackedAt (ChessRules.getAttackedSquares b c) kr kc.
Proof. apply isKingInCheck_attacked. Qed.

Lemma isKingInCheck_iff_king_square_attacked_witness :
  ChessRules.isKingInCheck (board checkedGame) black
  = attackedAt (ChessRules.getAttackedSquares (board checkedGame) black) 0 4.
Proof.
  apply (isKingInCheck_iff_king_square_attacked (board checkedGame) black 0 4);
    [exact (proj1 (reachable_kingsAtHome _ reachable_checkedGame))
    |vm_compute; reflexivity|discriminate].
Defined.

(** ** Simulated moves, castling and kings *)

(** X4.  [simulateMove] gives a board whose origin square is empty, whose
    destination holds the piece with [row] and [col] set to it, and whose
    other squares are those of the board it was given; a move from a square
    to itself leaves the square empty. *)
Theorem simulateMove_moves_one_piece b fr fc tr tc p r c :
  wfGrid b -> inBoard fr fc = true -> inBoard tr tc = true ->
  cell (ChessRules.simulateMove b fr fc tr tc p) r c
  = if decide ((r, c) = (fr, fc)) then None
    else if decide ((r, c) = (tr, tc)) then Some (ChessRules.movedTo p tr tc)
    else cell b r c.
Proof. apply cell_simulateMove. Qed.

Lemma simulateMove_moves_one_piece_witness :
  cell (ChessRules.simulateMove createInitialBoard 6 4 4 4 noPiece) 4 4
  = if decide ((4, 4) = (6, 4)) then None
    else if decide ((4, 4) = (4, 4)) then Some (ChessRules.movedTo noPiece 4 4)
    else cell createInitialBoard 4 4.
Proof.
  exact (simulateMove_moves_one_piece createInitialBoard 6 4 4 4 noPiece 4 4
           wfGrid_createInitialBoard eq_refl eq_refl).
Defined.



(** X6.  A move that [isValidMove] accepts ends on the board, on another square
    than it starts from, never on a piece of the mover's colour, and leaves
    the mover's king out of check on the simulated board. *)
Theorem isValidMove_necessary_conditions b p fr fc tr tc :
  ChessRules.isValidMove b p fr fc tr tc = true ->
  inBoard tr tc = true /\ (fr, fc) <> (tr, tc)
  /\ (forall q, cell b tr tc = Some q -> color q <> color p)
  /\ ChessRules.isKingInCheck (ChessRules.simulateMove b fr fc tr tc p) (color p) = false.
Proof.
  intros Hvalid. destruct (isValidMove_target _ _ _ _ _ _ Hvalid) as [Hin Hne].
  split_and!; [done|done| |by apply isValidMove_no_self_check].
  intros q Hq Hcolor. revert Hvalid. unfold ChessRules.isValidMove.
  destruct ((fr =? tr) && (fc =? tc)); [done|].
  destruct (_ || _); [done|].
  rewrite Hq. cbn. by rewrite bool_decide_eq_true_2.
Qed.

Lemma isValidMove_necessary_conditions_witness :
  inBoard 7 5 = true /\ (7, 4) <> (7, 5)
  /\ (forall q, cell (board castleReadyGame) 7 5 = Some q -> color q <> color castleReadyKing)
  /\ ChessRules.isKingInCheck
       (ChessRules.simulateMove (board castleReadyGame) 7 4 7 5 castleReadyKing)
       (color castleReadyKing) = false.
Proof.
  apply (isValidMove_necessary_conditions (board castleReadyGame) castleReadyKing 7 4 7 5).
  vm_compute; reflexivity.
Defined.

(** The destination of a king, by a step or by castling, is not marked in
    the attack map. *)
Lemma king_target_not_attacked b k r c tr tc :
  wfGrid b -> cell b r c = Some k -> type k = king ->
  ChessRules.isValidMove b k r c tr tc = true ->
  attackedAt (ChessRules.getAttackedSquares b (color k)) tr tc = false.
Proof.
  intros Hwf Hcell Hking Hvalid.
  apply isValidMove_king in Hvalid as (_ & _ & _ & _ & Hmove); [|done].
  destruct Hmove as [(_ & _ & Hsafe)|(_ & -> & Htwo & Hcastle)]; [done|].
  apply isValidCastling_true in Hcastle as (_ & _ & _ & Htransit);
    [|done|by eapply cell_inBoard|done].
  apply Htransit. lia.
Qed.

(** X7.  [isValidMove] never lets a king go, by a step or by castling, to a
    square that a piece of the opponent attacks on the board as it stands. *)
Theorem king_never_moves_into_attack b k r c tr tc p pr pc :
  wfGrid b -> cell b r c = Some k -> type k = king ->
  ChessRules.isValidMove b k r c tr tc = true ->
  cell b pr pc = Some p -> color p = opponent (color k) ->
  ChessRules.canPieceAttackSquare b p pr pc tr tc = false.
Proof.
  intros Hwf Hcell Hking Hvalid Hp Hcolor. apply not_true_is_false. intros Hattack.
  pose proof (king_target_not_attacked _ _ _ _ _ _ Hwf Hcell Hking Hvalid) as Hsafe.
  apply isValidMove_target in Hvalid as [Hin _].
  by rewrite (getAttackedSquares_complete _ _ _ _ _ _ _ Hwf Hp Hcolor Hin Hattack) in Hsafe.
Qed.

Lemma king_never_moves_into_attack_witness :
  ChessRules.canPieceAttackSquare (board castleReadyGame)
    (default noPiece (cell (board castleReadyGame) 3 2)) 3 2 7 5 = false.
Proof.
  apply (king_never_moves_into_attack (board castleReadyGame) castleReadyKing 7 4 7 5
           (default noPiece (cell (board castleReadyGame) 3 2)) 3 2);
    [exact wfGrid_castleReadyGame|exact castleReadyGame_king
    |vm_compute; reflexivity|vm_compute; reflexivity
    |vm_compute; reflexivity|vm_compute; reflexivity].
Defined.

(** ** The enumerator and the terminal positions *)

Lemma NoDup_squares : List.NoDup squares.
Proof.
  assert (Hsorted := squares_sorted).
  induction Hsorted as [|sq l Hsorted IH Hall]; constructor; [|done].
  intros Hin. rewrite List.Forall_forall in Hall. specialize (Hall _ Hin). lia.
Qed.

Lemma NoDup_snoc {A} (l : list A) x :
  List.NoDup l -> ~ In x l -> List.NoDup (l ++ [x]).
Proof.
  intros Hl Hx. induction Hl as [|y l Hy Hl IH]; cbn.
  - constructor; [by intros []|constructor].
  - constructor.
    + rewrite in_app_iff. intros [?|[->|[]]]; [done|]. apply Hx. by left.
    + apply IH. intros Hin. apply Hx. by right.
Qed.

(** X8.  [getValidMoves] never returns a square twice, for a king (its castling
    squares included) as for any other piece. *)
Theorem getValidMoves_NoDup b p r c : List.NoDup (ChessRules.getValidMoves b p r c).
Proof.
  unfold ChessRules.getValidMoves. case_bool_decide as Hking.
  - unfold ChessRules.getKingValidMoves.
    set (f := fun '(toRow, toCol) => _).
    set (near := List.filter f _).
    assert (Hnear : List.NoDup near).
    { apply List.NoDup_filter. unfold ChessRules.kingOffsets. cbn [map].
      repeat (constructor;
              [cbn; intros Hin;
               repeat (destruct Hin as [Hin|Hin]; [injection Hin; lia|]); done|]).
      constructor. }
    assert (Hfar : forall tc, Z.abs (tc - c) = 2 -> ~ In (r, tc) near).
    { intros tc Htwo Hin. apply List.filter_In in Hin as [Hin _].
      apply In_kingOffsets in Hin. lia. }
    destruct (negb (hasMoved p) && negb (ChessRules.isKingInCheck b (color p))); [|done].
    destruct (ChessRules.isValidCastling b p r c (c + 2)),
             (ChessRules.isValidCastling b p r c (c - 2)); try done.
    + apply NoDup_snoc; [apply NoDup_snoc; [done|apply Hfar; lia]|].
      rewrite in_app_iff. intros [Hin|[[=]|[]]]; [|lia]. revert Hin. apply Hfar. lia.
    + apply NoDup_snoc; [done|apply Hfar; lia].
    + apply NoDup_snoc; [done|apply Hfar; lia].
  - apply List.NoDup_filter, NoDup_squares.
Qed.




(** ** What [handleMove] accepts and what it does *)

Lemma ensures_run {A} (h : Handler A) g a g' (Q : A -> GameState -> Prop) :
  h g = (Finished a, g') -> Q a g' -> ensures h g Q.
Proof. intros. by exists a, g'. Qed.

Lemma ensures_inv {A} (h : Handler A) g a g' (Q : A -> GameState -> Prop) :
  ensures h g Q -> h g = (Finished a, g') -> Q a g'.
Proof. intros (a' & g'' & Hrun & HQ) Hrun'. rewrite Hrun in Hrun'. by injection Hrun' as <- <-. Qed.

Lemma sameTable_refl g : sameTable g g.
Proof. unfold sameTable. by split_and!. Qed.

Lemma sameTable_trans g1 g2 g3 : sameTable g1 g2 -> sameTable g2 g3 -> sameTable g1 g3.
Proof. unfold sameTable. intuition congruence. Qed.

Lemma handleCastling_table from to k g :
  ensures (handleCastling from to k) g
    (fun _ g' => sameTable g g' /\ castlingRights g' = castlingRights g).
Proof. unfold handleCastling. wp; unfold sameTable; by split_and!. Qed.

Lemma specialMoves_table from to p promotion now g :
  ensures (specialMoves from to p promotion now) g
    (fun p1 g' => sameTable g g' /\ castlingRights g' = castlingRights g
                  /\ color p1 = color p /\ hasMoved p1 = hasMoved p).
Proof.
  unfold specialMoves. wp; try (unfold sameTable; by split_and!).
  eapply ensures_mono; [apply handleCastling_table|].
  intros [] g' [Htable Hrights]. wp. by split_and!.
Qed.

Lemma updateCastlingRights_table p from g :
  ensures (updateCastlingRights p from) g
    (fun _ g' => sameTable g g' /\ board g' = board g /\ lastMove g' = lastMove g).
Proof. unfold updateCastlingRights. wp; unfold sameTable; by split_and!. Qed.

Lemma players_updateGameStatus g : players (updateGameStatus g) = players g.
Proof.
  unfold updateGameStatus.
  repeat match goal with |- context [if ?b then _ else _] => destruct b end; done.
Qed.

Lemma gameId_updateGameStatus g : gameId (updateGameStatus g) = gameId g.
Proof.
  unfold updateGameStatus.
  repeat match goal with |- context [if ?b then _ else _] => destruct b end; done.
Qed.

Lemma fullMoveNumber_updateGameStatus g :
  fullMoveNumber (updateGameStatus g) = fullMoveNumber g.
Proof.
  unfold updateGameStatus.
  repeat match goal with |- context [if ?b then _ else _] => destruct b end; done.
Qed.

Lemma castlingRights_updateGameStatus g :
  castlingRights (updateGameStatus g) = castlingRights g.
Proof.
  unfold updateGameStatus.
  repeat match goal with |- context [if ?b then _ else _] => destruct b end; done.
Qed.

Lemma lastMove_updateGameStatus g : lastMove (updateGameStatus g) = lastMove g.
Proof.
  unfold updateGameStatus.
  repeat match goal with |- context [if ?b then _ else _] => destruct b end; done.
Qed.

Lemma enPassantTarget_updateGameStatus g :
  enPassantTarget (updateGameStatus g) = enPassantTarget g.
Proof.
  unfold updateGameStatus.
  repeat match goal with |- context [if ?b then _ else _] => destruct b end; done.
Qed.

Lemma updateCastlingRights_rights p from g :
  ensures (updateCastlingRights p from) g
    (fun _ g' => castlingRights g' = rightsAfter p from.2 (castlingRights g)).
Proof.
  unfold ensures, updateCastlingRights, rightsAfter.
  destruct g as [? ? ? ? ? ? ? ? ? ? [wk wq bk bq] ? ? ?].
  destruct (type p), (color p); repeat (case_bool_decide; try congruence).
  all: destruct (from.2 =? 0), (from.2 =? 7), wk, wq, bk, bq; cbn.
  all: eexists _, _; split; reflexivity.
Qed.

(** What [applyMove] leaves of the session, in terms of the session [g1]
    and the piece [p1] its special moves have produced. *)
Lemma applyMove_effect m now g :
  ensures (applyMove m now) g
    (fun _ g' => exists p1 g1 g0,
       specialMoves (payload_from m) (payload_to m) (payload_piece m)
                    (payload_promotion m) now g = (Finished p1, g1)
       /\ board g' = setCell (setCell (board g1) (payload_to m).1 (payload_to m).2
                                (Some (arrived p1 (payload_to m))))
                             (payload_from m).1 (payload_from m).2 None
       /\ gameId g' = gameId g /\ players g' = players g
       /\ currentTurn g' = opponent (currentTurn g)
       /\ fullMoveNumber g'
          = (if bool_decide (currentTurn g = black)
             then fullMoveNumber g + 1 else fullMoveNumber g)
       /\ castlingRights g'
          = rightsAfter p1 (payload_from m).2 (castlingRights g)
       /\ g' = set_lastMove (fun _ => Some
                 {| from := payload_from m; to := payload_to m;
                    piece := arrived p1 (payload_to m);
                    movePlayerId := message_playerId m; timestamp := now;
                    promotion := payload_promotion m;
                    isCastle := None; isEnPassant := None |})
               (updateGameStatus g0)
       /\ board g0 = board g' /\ currentTurn g0 = currentTurn g'
       /\ halfMoveClock g0 = halfMoveClock g'
       /\ enPassantTarget g' = enPassantTarget g).
Proof.
  destruct (specialMoves_table (payload_from m) (payload_to m) (payload_piece m)
              (payload_promotion m) now g) as (p1 & g1 & Hrun & Htable & Hrights1 & _).
  destruct (updateCastlingRights_table (arrived p1 (payload_to m)) (payload_from m) g1)
    as ([] & g2 & Hrun2 & Htable2 & Hboard2 & _).
  pose proof (ensures_inv _ _ _ _ _
                (updateCastlingRights_rights (arrived p1 (payload_to m)) (payload_from m) g1)
                Hrun2) as Hrights2.
  cbv beta in Hrights2. rewrite Hrights1 in Hrights2.
  pose proof (sameTable_trans _ _ _ Htable Htable2)
    as (Hid & Hplayers & Hturn & _ & _ & _ & Hfull & Hpassant).
  unfold applyMove. apply ensures_bind. eapply ensures_run; [exact Hrun|].
  apply ensures_bind. eapply ensures_run; [exact Hrun2|].
  wp.
  all: match goal with
       | |- context [updateGameStatus ?X] =>
           exists p1, g1, X;
           pose proof (board_updateGameStatus X) as HbY;
           pose proof (gameId_updateGameStatus X) as HiY;
           pose proof (players_updateGameStatus X) as HpY;
           pose proof (currentTurn_updateGameStatus X) as HtY;
           pose proof (fullMoveNumber_updateGameStatus X) as HfY;
           pose proof (castlingRights_updateGameStatus X) as HrY;
           pose proof (halfMoveClock_updateGameStatus X) as HcY;
           pose proof (enPassantTarget_updateGameStatus X) as HeY;
           generalize dependent (updateGameStatus X);
           intros Y HbY HiY HpY HtY HfY HrY HcY HeY
       end.
  all: simpl in *.
  all: rewrite HbY, HiY, HpY, HtY, HfY, HrY, HcY, HeY, Hboard2, Hid, Hplayers, Hturn, Hfull,
         Hrights2, Hpassant.
  all: repeat case_bool_decide; try congruence.
  all: split_and!; try done.
  all: by destruct (currentTurn g).
Qed.

Lemma specialMoves_plain from to p promotion now g p1 g1 :
  bool_decide (type p = king) && (Z.abs (to.2 - from.2) =? 2) = false ->
  bool_decide (type p = pawn) && negb (from.2 =? to.2)
    && isEmptyCell (cell (board g) to.1 to.2) = false ->
  specialMoves from to p promotion now g = (Finished p1, g1) ->
  board g1 = board g /\ p1 = promoted p to promotion now.
Proof.
  intros Hcastle Hpassant. unfold specialMoves, promoted. rewrite bind_get, Hcastle, Hpassant.
  destruct (bool_decide (type p = pawn) && ChessRules.canPromotePawn p to.1).
  - intros [= <- <-]. done.
  - intros [= <- <-]. done.
Qed.

Lemma specialMoves_castling from to p promotion now g p1 g1 rk :
  bool_decide (type p = king) && (Z.abs (to.2 - from.2) =? 2) = true ->
  cell (board g) from.1 (if from.2 <? to.2 then 7 else 0) = Some rk ->
  type rk = rook ->
  specialMoves from to p promotion now g = (Finished p1, g1) ->
  p1 = p
  /\ board g1
     = setCell (setCell (board g) from.1 (if from.2 <? to.2 then to.2 - 1 else to.2 + 1)
                  (Some {| type := type rk; color := color rk; id := id rk;
                           hasMoved := true; row := from.1;
                           col := if from.2 <? to.2 then to.2 - 1 else to.2 + 1 |}))
               from.1 (if from.2 <? to.2 then 7 else 0) None.
Proof.
  intros Hcastle Hrook Htype. unfold specialMoves. rewrite bind_get, Hcastle.
  unfold handleCastling. unfold mbind at 1, Handler_bind at 1. rewrite bind_get, Hrook.
  rewrite bool_decide_eq_true_2 by done.
  intros [= <- <-]. done.
Qed.

Lemma isValidMove_castling_rook b k fr fc tr tc :
  type k = king -> Z.abs (tc - fc) = 2 ->
  ChessRules.isValidMove b k fr fc tr tc = true ->
  tr = fr /\ hasMoved k = false
  /\ exists rk, cell b fr (if fc <? tc then 7 else 0) = Some rk
                /\ type rk = rook /\ color rk = color k /\ hasMoved rk = false
                /\ (fr, if fc <? tc then 7 else 0) <> (tr, tc).
Proof.
  intros Hking Htwo Hvalid.
  pose proof Hvalid as Hvalid'. apply isValidMove_king in Hvalid' as (_ & Hin & Hown & _ & Hmove);
    [|done].
  destruct Hmove as [(_ & Hcol & _)|(Hunmoved & -> & _ & Hcastle)]; [lia|].
  split; [done|]. split; [done|].
  unfold ChessRules.isValidCastling in Hcastle.
  destruct (ChessRules.isKingInCheck b (color k)); [done|].
  destruct (cell b fr (if fc <? tc then 7 else 0)) as [rk|] eqn:Hrook; [|done].
  exists rk.
  destruct (bool_decide (type rk = rook)) eqn:Htype; [|done].
  destruct (bool_decide (color rk = color k)) eqn:Hcolor; [|done].
  destruct (hasMoved rk) eqn:Hmoved; [done|].
  apply bool_decide_eq_true in Htype, Hcolor.
  split_and!; try done.
  intros [= Heq]. rewrite <- Heq, Hrook in Hown. simpl in Hown.
  by rewrite bool_decide_eq_true_2 in Hown.
Qed.

Lemma onBoardRow_inBoard r c : inBoard r c = true -> onBoardRow r = true.
Proof. unfold inBoard, onBoardRow. rewrite !andb_true_iff. tauto. Qed.

Lemma handleMove_accepts m now g :
  fst (handleMove m now g) = Finished tt <-> acceptable m g.
Proof.
  unfold acceptable. split.
  - handleMove_cases; try done. intros _.
    repeat match goal with
           | H : bool_decide _ = true |- _ => apply bool_decide_eq_true in H
           end.
    eauto 10.
  - intros (Hstatus & Hturn & (actual & Hcell & Hid) & Hvalid).
    unfold handleMove. rewrite bind_get.
    rewrite (bool_decide_eq_true_2 _ Hstatus), (bool_decide_eq_true_2 _ Hturn).
    rewrite (onBoardRow_inBoard _ _ (cell_inBoard _ _ _ _ Hcell)), Hcell.
    rewrite (bool_decide_eq_true_2 _ Hid), Hvalid. cbn [negb].
    by destruct (applyMove_finishes m now g) as [g' ->].
Qed.

Lemma handleMove_applied m now g g' :
  handleMove m now g = (Finished tt, g') ->
  acceptable m g /\ applyMove m now g = (Finished tt, g').
Proof.
  intros Hrun. split.
  - apply (handleMove_accepts m now g). by rewrite Hrun.
  - by apply handleMove_finished in Hrun as (_ & _ & Hrun).
Qed.

(** The special moves of an accepted request: a castling, or nothing but
    a promotion; the en-passant branch is never taken. *)
Lemma accepted_specialMoves m now g p1 g1 :
  acceptable m g ->
  specialMoves (payload_from m) (payload_to m) (payload_piece m)
               (payload_promotion m) now g = (Finished p1, g1) ->
  p1 = promoted (payload_piece m) (payload_to m) (payload_promotion m) now
  /\ (bool_decide (type (payload_piece m) = king)
      && (Z.abs ((payload_to m).2 - (payload_from m).2) =? 2) = false ->
      board g1 = board g).
Proof.
  intros (_ & _ & _ & Hvalid) Hrun.
  assert (Hpassant :
    bool_decide (type (payload_piece m) = pawn)
    && negb ((payload_from m).2 =? (payload_to m).2)
    && isEmptyCell (cell (board g) (payload_to m).1 (payload_to m).2) = false).
  { apply not_true_is_false. rewrite !andb_true_iff, negb_true_iff, Z.eqb_neq.
    intros [[Hpawn Hdiag] Hempty]. apply bool_decide_eq_true in Hpawn.
    destruct (cell (board g) (payload_to m).1 (payload_to m).2) eqn:Hcell; [done|].
    rewrite pawn_empty_diagonal_invalid in Hvalid; [done|done| |done].
    congruence. }
  destruct (bool_decide (type (payload_piece m) = king)
            && (Z.abs ((payload_to m).2 - (payload_from m).2) =? 2)) eqn:Hcastle.
  - split; [|done].
    apply andb_true_iff in Hcastle as [Hking Htwo].
    apply bool_decide_eq_true in Hking. apply Z.eqb_eq in Htwo.
    destruct (isValidMove_castling_rook _ _ _ _ _ _ Hking Htwo Hvalid)
      as (_ & _ & rk & Hrook & Htype & _).
    eapply specialMoves_castling in Hrun as [-> _]; [|by rewrite Hking, Htwo|done..].
    unfold promoted. by rewrite Hking.
  - apply specialMoves_plain in Hrun as [Hboard ->]; done.
Qed.

(** X10.  [handleMove] applies a request exactly when the status is ['playing'],
    the piece of the message has the colour to move, the origin square
    holds a piece with the id of the message, and [isValidMove] accepts the
    move for the piece of the message; the sender and the players of the
    session play no part. *)
Theorem handleMove_accepts_iff m now g :
  fst (handleMove m now g) = Finished tt <-> acceptable m g.
Proof. apply handleMove_accepts. Qed.



(** The board an accepted request leaves, square by square, when it is
    no castling. *)
Lemma accepted_plain_cells m now g g' :
  wfGrid (board g) ->
  handleMove m now g = (Finished tt, g') ->
  ~ (type (payload_piece m) = king
     /\ Z.abs ((payload_to m).2 - (payload_from m).2) = 2) ->
  forall r c,
    cell (board g') r c
    = if decide ((r, c) = payload_from m) then None
      else if decide ((r, c) = payload_to m)
           then Some (arrived (promoted (payload_piece m) (payload_to m)
                                        (payload_promotion m) now) (payload_to m))
           else cell (board g) r c.
Proof.
  intros Hwf Hrun Hnocastle r c. apply handleMove_applied in Hrun as [Hok Hrun].
  pose proof (ensures_inv _ _ _ _ _ (applyMove_effect m now g) Hrun)
    as (p1 & g1 & g0 & Hspecial & Hboard & _).
  apply accepted_specialMoves in Hspecial as [-> Hplain]; [|done].
  pose proof Hok as (_ & _ & (actual & Hactual & _) & Hvalid).
  apply isValidMove_target in Hvalid as [Hto Hne].
  apply cell_inBoard in Hactual as Hfrom.
  rewrite Hboard, Hplain.
  2:{ apply not_true_is_false. rewrite andb_true_iff, Z.eqb_eq.
      intros [Hking Htwo]. apply bool_decide_eq_true in Hking. by apply Hnocastle. }
  clear Hboard Hrun Hok Hactual Hplain.
  destruct (payload_from m) as [fr fc], (payload_to m) as [tr tc]. simpl in *.
  repeat case_decide.
  - injection H as -> ->. by apply cell_setCell_eq; [apply wfGrid_setCell|].
  - injection H0 as -> ->. rewrite cell_setCell_ne by congruence.
    by apply cell_setCell_eq.
  - by rewrite !cell_setCell_ne by congruence.
Qed.

(** The board an accepted castling leaves, square by square. *)
Lemma accepted_castling_cells m now g g' :
  wfGrid (board g) ->
  handleMove m now g = (Finished tt, g') ->
  type (payload_piece m) = king ->
  Z.abs ((payload_to m).2 - (payload_from m).2) = 2 ->
  let from := payload_from m in
  let to := payload_to m in
  let corner := if from.2 <? to.2 then 7 else 0 in
  let beside := if from.2 <? to.2 then to.2 - 1 else to.2 + 1 in
  to.1 = from.1 /\ hasMoved (payload_piece m) = false
  /\ exists rk,
       cell (board g) from.1 corner = Some rk
       /\ type rk = rook /\ color rk = color (payload_piece m) /\ hasMoved rk = false
       /\ from <> to /\ (from.1, corner) <> from /\ (from.1, corner) <> to
       /\ (from.1, beside) <> from /\ (from.1, beside) <> to
       /\ (from.1, beside) <> (from.1, corner)
       /\ inBoard from.1 beside = true
       /\ forall r c,
            cell (board g') r c
            = if decide ((r, c) = from) then None
              else if decide ((r, c) = to) then Some (arrived (payload_piece m) to)
              else if decide ((r, c) = (from.1, corner)) then None
              else if decide ((r, c) = (from.1, beside))
                   then Some {| type := rook; color := color rk; id := id rk;
                                hasMoved := true; row := from.1; col := beside |}
                   else cell (board g) r c.
Proof.
  intros Hwf Hrun Hking Htwo. cbv zeta. apply handleMove_applied in Hrun as [Hok Hrun].
  pose proof (ensures_inv _ _ _ _ _ (applyMove_effect m now g) Hrun)
    as (p1 & g1 & g0 & Hspecial & Hboard & _).
  pose proof Hok as (_ & _ & (actual & Hactual & _) & Hvalid).
  pose proof (isValidMove_target _ _ _ _ _ _ Hvalid) as [Hto Hne].
  apply cell_inBoard in Hactual as Hfrom.
  destruct (isValidMove_castling_rook _ _ _ _ _ _ Hking Htwo Hvalid)
    as (Hrow & Hunmovedk & rk & Hrook & Htype & Hcolor & Hunmoved & Hcorner).
  eapply specialMoves_castling in Hspecial as [-> Hboard1];
    [|by rewrite Hking, Htwo, bool_decide_eq_true_2|done..].
  rewrite Hboard, Hboard1. clear Hboard Hboard1 Hrun Hok Hactual Hvalid.
  split; [done|]. split; [done|]. exists rk. rewrite Htype.
  apply cell_inBoard in Hrook as Hcornerin.
  destruct (payload_from m) as [fr fc], (payload_to m) as [tr tc]. simpl in *. subst tr.
  apply inBoard_true in Hfrom, Hto, Hcornerin.
  assert (Hfc : fc <> (if fc <? tc then 7 else 0)
                /\ tc <> (if fc <? tc then 7 else 0)
                /\ (if fc <? tc then tc - 1 else tc + 1) <> fc
                /\ (if fc <? tc then tc - 1 else tc + 1) <> tc
                /\ (if fc <? tc then tc - 1 else tc + 1) <> (if fc <? tc then 7 else 0)
                /\ 0 <= (if fc <? tc then tc - 1 else tc + 1) < 8).
  { assert (tc <> (if fc <? tc then 7 else 0)) by congruence.
    destruct (fc <? tc) eqn:Hside; [apply Z.ltb_lt in Hside|apply Z.ltb_ge in Hside]; lia. }
  destruct Hfc as (H1 & H2 & H3 & H4 & H5 & H6).
  split_and!; try done; try congruence.
  - apply inBoard_true. lia.
  - intros r c. repeat case_decide.
    + injection H as -> ->. apply cell_setCell_eq; [by do 3 apply wfGrid_setCell|].
      apply inBoard_true. lia.
    + injection H0 as -> ->. rewrite cell_setCell_ne by congruence.
      apply cell_setCell_eq; [by do 2 apply wfGrid_setCell|]. apply inBoard_true. lia.
    + injection H7 as -> ->. rewrite !cell_setCell_ne by congruence.
      apply cell_setCell_eq; [by apply wfGrid_setCell|]. apply inBoard_true. lia.
    + injection H8 as -> ->. rewrite !cell_setCell_ne by congruence.
      apply cell_setCell_eq; [done|]. apply inBoard_true. lia.
    + by rewrite !cell_setCell_ne by congruence.
Qed.

(** X12.  An applied move goes to another square; when it is no castling, the
    origin is empty afterwards, the destination holds the piece of the
    message marked as moved, with the coordinates of the destination,
    promoted to the kind of the message (a queen by default) when it is a
    pawn that reaches its last row, and every other square is as before. *)
Theorem handleMove_accepted_board m now g g' :
  wfGrid (board g) ->
  handleMove m now g = (Finished tt, g') ->
  let from := payload_from m in
  let to := payload_to m in
  from <> to
  /\ (~ (type (payload_piece m) = king /\ Z.abs (to.2 - from.2) = 2) ->
      forall r c,
        cell (board g') r c
        = if decide ((r, c) = from) then None
          else if decide ((r, c) = to)
               then Some (arrived (promoted (payload_piece m) to (payload_promotion m) now)
                                  to)
               else cell (board g) r c).
Proof.
  intros Hwf Hrun. cbv zeta. split.
  - apply handleMove_applied in Hrun as [(_ & _ & _ & Hvalid) _].
    apply isValidMove_target in Hvalid as [_ Hne].
    by destruct (payload_from m), (payload_to m).
  - intros Hnocastle. by apply accepted_plain_cells.
Qed.

Lemma handleMove_accepted_board_witness :
  let m := openingRequest in
  let g' := snd (handleMove m 0 startedGame) in
  let from := payload_from m in
  let to := payload_to m in
  from <> to
  /\ (~ (type (payload_piece m) = king /\ Z.abs (to.2 - from.2) = 2) ->
      forall r c,
        cell (board g') r c
        = if decide ((r, c) = from) then None
          else if decide ((r, c) = to)
               then Some (arrived (promoted (payload_piece m) to (payload_promotion m) 0)
                                  to)
               else cell (board startedGame) r c).
Proof.
  exact (handleMove_accepted_board openingRequest 0 startedGame _
           wfGrid_startedGame openingRequest_run).
Defined.

(** X13.  An applied castling stays on the king's row and moves two pieces: the
    king of the message to its destination and the unmoved rook of its
    colour from the corner on that side to the square the king has
    crossed, marked as moved; both origins are empty and every other
    square is as before. *)
Theorem handleMove_castling_moves_rook m now g g' :
  wfGrid (board g) ->
  handleMove m now g = (Finished tt, g') ->
  type (payload_piece m) = king ->
  Z.abs ((payload_to m).2 - (payload_from m).2) = 2 ->
  let from := payload_from m in
  let to := payload_to m in
  let corner := if from.2 <? to.2 then 7 else 0 in
  let beside := if from.2 <? to.2 then to.2 - 1 else to.2 + 1 in
  to.1 = from.1
  /\ exists rk,
       cell (board g) from.1 corner = Some rk
       /\ type rk = rook /\ color rk = color (payload_piece m) /\ hasMoved rk = false
       /\ forall r c,
            cell (board g') r c
            = if decide ((r, c) = from) then None
              else if decide ((r, c) = to) then Some (arrived (payload_piece m) to)
              else if decide ((r, c) = (from.1, corner)) then None
              else if decide ((r, c) = (from.1, beside))
                   then Some {| type := rook; color := color rk; id := id rk;
                                hasMoved := true; row := from.1; col := beside |}
                   else cell (board g) r c.
Proof.
  intros Hwf Hrun Hking Htwo.
  destruct (accepted_castling_cells m now g g' Hwf Hrun Hking Htwo)
    as (Hrow & _ & rk & Hrook & Htype & Hcolor & Hunmoved & _ & _ & _ & _ & _ & _ & _ & Hcells).
  cbv zeta. split; [done|]. exists rk. by split_and!.
Qed.

Lemma handleMove_castling_moves_rook_witness :
  let m := castlingRequest in
  let g' := snd (handleMove m 0 castleReadyGame) in
  let from := payload_from m in
  let to := payload_to m in
  let corner := if from.2 <? to.2 then 7 else 0 in
  let beside := if from.2 <? to.2 then to.2 - 1 else to.2 + 1 in
  to.1 = from.1
  /\ exists rk,
       cell (board castleReadyGame) from.1 corner = Some rk
       /\ type rk = rook /\ color rk = color (payload_piece m) /\ hasMoved rk = false
       /\ forall r c,
            cell (board g') r c
            = if decide ((r, c) = from) then None
              else if decide ((r, c) = to) then Some (arrived (payload_piece m) to)
              else if decide ((r, c) = (from.1, corner)) then None
              else if decide ((r, c) = (from.1, beside))
                   then Some {| type := rook; color := color rk; id := id rk;
                                hasMoved := true; row := from.1; col := beside |}
                   else cell (board castleReadyGame) r c.
Proof.
  apply (handleMove_castling_moves_rook castlingRequest 0 castleReadyGame _
           wfGrid_castleReadyGame castlingRequest_run);
    vm_compute; reflexivity.
Defined.

Lemma revokedOnly_rightsAfter p c cr : revokedOnly cr (rightsAfter p c cr).
Proof.
  unfold revokedOnly, rightsAfter.
  destruct (type p), (color p); simpl; rewrite ?andb_true_iff; intuition discriminate.
Qed.

(** X14.  An applied move of a king clears both castling rights of its colour,
    one of a rook that leaves column 0 or column 7 clears the queen-side or
    the king-side right of its colour, any other move keeps the rights;
    the kind is the one the piece has after a promotion, and no right is
    ever granted. *)
Theorem handleMove_castlingRights m now g g' :
  handleMove m now g = (Finished tt, g') ->
  let moved := promoted (payload_piece m) (payload_to m) (payload_promotion m) now in
  castlingRights g' = rightsAfter moved (payload_from m).2 (castlingRights g)
  /\ revokedOnly (castlingRights g) (castlingRights g').
Proof.
  intros Hrun moved. apply handleMove_applied in Hrun as [Hok Hrun].
  pose proof (ensures_inv _ _ _ _ _ (applyMove_effect m now g) Hrun)
    as (p1 & g1 & g0 & Hspecial & _ & _ & _ & _ & _ & Hrights & _).
  apply accepted_specialMoves in Hspecial as [-> _]; [|done].
  rewrite Hrights. split; [done|]. apply revokedOnly_rightsAfter.
Qed.

Lemma handleMove_castlingRights_witness :
  let m := castlingRequest in
  let g' := snd (handleMove m 0 castleReadyGame) in
  let moved := promoted (payload_piece m) (payload_to m) (payload_promotion m) 0 in
  castlingRights g' = rightsAfter moved (payload_from m).2 (castlingRights castleReadyGame)
  /\ revokedOnly (castlingRights castleReadyGame) (castlingRights g').
Proof.
  exact (handleMove_castlingRights castlingRequest 0 castleReadyGame _ castlingRequest_run).
Defined.

(** ** What [handlePromotion] accepts and what it does *)

Lemma handlePromotion_run r c t now g p :
  cell (board g) r c = Some p -> type p = pawn ->
  handlePromotion r c t now g
  = (Finished tt,
     updateGameStatus
       (set_board (fun b => setCell b r c (Some
          {| type := t; color := color p; id := promotedId (color p) t now;
             hasMoved := hasMoved p; row := row p; col := col p |})) g)).
Proof.
  intros Hcell Hpawn. unfold handlePromotion. rewrite bind_get.
  rewrite (onBoardRow_inBoard _ _ (cell_inBoard _ _ _ _ Hcell)), Hcell.
  by rewrite bool_decide_eq_true_2.
Qed.

Lemma handlePromotion_returned r c t now g why g' :
  handlePromotion r c t now g = (Returned why, g') -> g' = g.
Proof.
  unfold handlePromotion. rewrite bind_get.
  destruct (negb (onBoardRow r)); [by intros [= <- <-]|].
  destruct (cell (board g) r c) as [p|]; [|by intros [= <- <-]].
  destruct (bool_decide (type p = pawn)); [done|by intros [= <- <-]].
Qed.

(** X15.  [handlePromotion] promotes the pawn of any square, whatever its row
    and colour, the side to move, the status and the kind asked for: the
    square then holds a piece of that kind with the colour, the moved
    flag and the coordinates of the pawn and a new id; the other squares,
    the players, the turn, the two counters, the castling rights and the
    last move are kept. *)
Theorem handlePromotion_promotes_any_pawn r c t now g p :
  wfGrid (board g) ->
  cell (board g) r c = Some p -> type p = pawn ->
  exists g',
    handlePromotion r c t now g = (Finished tt, g')
    /\ cell (board g') r c
       = Some {| type := t; color := color p; id := promotedId (color p) t now;
                 hasMoved := hasMoved p; row := row p; col := col p |}
    /\ (forall r' c', (r', c') <> (r, c) -> cell (board g') r' c' = cell (board g) r' c')
    /\ players g' = players g /\ currentTurn g' = currentTurn g
    /\ halfMoveClock g' = halfMoveClock g /\ fullMoveNumber g' = fullMoveNumber g
    /\ castlingRights g' = castlingRights g /\ lastMove g' = lastMove g.
Proof.
  intros Hwf Hcell Hpawn. eexists. split; [by apply handlePromotion_run|].
  rewrite board_updateGameStatus, players_updateGameStatus, currentTurn_updateGameStatus,
    halfMoveClock_updateGameStatus, fullMoveNumber_updateGameStatus,
    castlingRights_updateGameStatus, lastMove_updateGameStatus.
  cbn [board set_board players currentTurn halfMoveClock fullMoveNumber castlingRights lastMove].
  split_and!; try done.
  - apply cell_setCell_eq; [done|by eapply cell_inBoard].
  - intros r' c' Hne. by apply cell_setCell_ne.
Qed.

Lemma handlePromotion_promotes_any_pawn_witness :
  let p := default noPiece (cell (board startedGame) 6 0) in
  exists g',
    handlePromotion 6 0 queen 0 startedGame = (Finished tt, g')
    /\ cell (board g') 6 0
       = Some {| type := queen; color := color p; id := promotedId (color p) queen 0;
                 hasMoved := hasMoved p; row := row p; col := col p |}
    /\ (forall r' c', (r', c') <> (6, 0) ->
                      cell (board g') r' c' = cell (board startedGame) r' c')
    /\ players g' = players startedGame /\ currentTurn g' = currentTurn startedGame
    /\ halfMoveClock g' = halfMoveClock startedGame
    /\ fullMoveNumber g' = fullMoveNumber startedGame
    /\ castlingRights g' = castlingRights startedGame
    /\ lastMove g' = lastMove startedGame.
Proof.
  apply (handlePromotion_promotes_any_pawn 6 0 queen 0 startedGame
           (default noPiece (cell (board startedGame) 6 0)));
    [exact wfGrid_startedGame|vm_compute; reflexivity|vm_compute; reflexivity].
Defined.

(** X16.  On a square that holds no pawn (it is empty, off the board or holds
    another piece) [handlePromotion] returns at once and the session is
    unchanged. *)
Theorem handlePromotion_rejects_other_squares r c t now g :
  (forall p, cell (board g) r c = Some p -> type p <> pawn) ->
  exists why, handlePromotion r c t now g = (Returned why, g).
Proof.
  intros Hnone. unfold handlePromotion. rewrite bind_get.
  destruct (negb (onBoardRow r)); [by eexists|].
  destruct (cell (board g) r c) as [p|] eqn:Hcell; [|by eexists].
  rewrite bool_decide_eq_false_2 by by apply Hnone. by eexists.
Qed.

Lemma handlePromotion_rejects_other_squares_witness :
  exists why, handlePromotion 4 4 queen 0 startedGame = (Returned why, startedGame).
Proof.
  apply (handlePromotion_rejects_other_squares 4 4 queen 0 startedGame).
  intros p Hcell. vm_compute in Hcell. discriminate.
Defined.

(** ** What every reachable session keeps *)

Lemma players_handleMove m now g : players (snd (handleMove m now g)) = players g.
Proof.
  destruct (handleMove m now g) as [[[]|why] g'] eqn:Hrun; cbn [snd].
  - apply handleMove_finished in Hrun as (_ & _ & Hrun).
    by pose proof (ensures_inv _ _ _ _ _ (applyMove_effect m now g) Hrun)
      as (p1 & g1 & g0 & _ & _ & _ & ? & _).
  - by apply handleMove_returned in Hrun as [-> _].
Qed.

Lemma players_handlePromotion r c t now g :
  players (snd (handlePromotion r c t now g)) = players g.
Proof.
  unfold handlePromotion. rewrite bind_get.
  destruct (negb (onBoardRow r)); [done|].
  destruct (cell (board g) r c) as [p|]; [|done].
  destruct (bool_decide (type p = pawn)); [|done].
  unfold mbind, Handler_bind, modify. cbn [snd]. by rewrite players_updateGameStatus.
Qed.

Lemma reachable_seats g :
  reachable g ->
  map playerColor (players g) = take (length (players g)) [white; black].
Proof.
  induction 1 as [gameId|g pid nm now Hg IH|g m now Hg IH|g r c t now Hg IH Hoption].
  - done.
  - unfold handleJoin. rewrite bind_get.
    destruct (2 <=? Z.of_nat (length (players g))) eqn:Hfull; [done|].
    unfold mbind, Handler_bind, modify, get. cbn [snd players set_status set_players].
    apply Z.leb_gt in Hfull.
    destruct (players g) as [|p1 [|p2 [|p3 ps]]]; simpl in *; try lia; congruence.
  - by rewrite players_handleMove.
  - by rewrite players_handlePromotion.
Qed.

(** X17.  A reachable session has at most two players; the first to have joined
    plays white and the second black. *)
Theorem reachable_two_players g :
  reachable g ->
  (length (players g) <= 2)%nat
  /\ map playerColor (players g) = take (length (players g)) [white; black].
Proof.
  intros Hreach. pose proof (reachable_seats g Hreach) as Hseats. split; [|done].
  apply (f_equal length) in Hseats. rewrite length_map, length_take in Hseats.
  simpl in Hseats. lia.
Qed.

Lemma reachable_two_players_witness :
  (length (players startedGame) <= 2)%nat
  /\ map playerColor (players startedGame)
     = take (length (players startedGame)) [white; black].
Proof. exact (reachable_two_players _ reachable_startedGame). Defined.

Lemma cell_setCell_inv b r c v r' c' p :
  cell (setCell b r c v) r' c' = Some p ->
  cell b r' c' = Some p \/ (v = Some p /\ r' = r /\ c' = c).
Proof.
  intros Hcell. destruct (decide ((r, c) = (r', c'))) as [[= <- <-]|Hne].
  - unfold cell, setCell in *.
    destruct (gridGet_gridSet_cases b r c v r c) as [Heq|Heq]; rewrite Heq in Hcell.
    + by left.
    + right. done.
  - left. by rewrite cell_setCell_ne in Hcell.
Qed.

Lemma squareStep_refl b : squareStep b b.
Proof. split; [done|]. intros r c p Hcell. by left. Qed.

Lemma squareStep_trans b1 b2 b3 : squareStep b1 b2 -> squareStep b2 b3 -> squareStep b1 b3.
Proof.
  intros [Hwf12 H12] [Hwf23 H23]. split; [by auto|].
  intros r c p Hcell. destruct (H23 _ _ _ Hcell) as [Hsame|[Hmoved|(q & Hq & Hpawn & Hrest)]].
  - by apply H12.
  - by right; left.
  - destruct (H12 _ _ _ Hq) as [Hsame|[(Hm & Hr & Hc)|(q' & Hq' & Hpawn' & _ & Hrest')]].
    + right; right. by exists q.
    + right; left. destruct Hrest as (_ & _ & -> & -> & ->). done.
    + right; right. exists q'. destruct Hrest as (Hnoking & -> & -> & -> & ->). done.
Qed.

Lemma squareStep_clear b r c : squareStep b (setCell b r c None).
Proof.
  split; [apply wfGrid_setCell|]. intros r' c' p Hcell.
  apply cell_setCell_inv in Hcell as [?|(? & _)]; [by left|done].
Qed.

Lemma squareStep_place b r c p :
  hasMoved p = true -> row p = r -> col p = c ->
  squareStep b (setCell b r c (Some p)).
Proof.
  intros Hmoved Hrow Hcol. split; [apply wfGrid_setCell|]. intros r' c' p' Hcell.
  apply cell_setCell_inv in Hcell as [?|([= <-] & -> & ->)]; [by left|by right; left].
Qed.

Lemma squareStep_promote b r c q p :
  cell b r c = Some q -> type q = pawn -> type p <> king -> color p = color q ->
  hasMoved p = hasMoved q -> row p = row q -> col p = col q ->
  squareStep b (setCell b r c (Some p)).
Proof.
  intros Hq Hpawn Hnoking Hcolor Hmoved Hrow Hcol. split; [apply wfGrid_setCell|].
  intros r' c' p' Hcell.
  apply cell_setCell_inv in Hcell as [?|([= <-] & -> & ->)]; [by left|].
  right; right. by exists q.
Qed.

Lemma handleCastling_squares from to k g :
  ensures (handleCastling from to k) g
          (fun _ g' => squareStep (board g) (board g')).
Proof.
  unfold handleCastling. wp; simpl; try apply squareStep_refl.
  eapply squareStep_trans; [|apply squareStep_clear]. by apply squareStep_place.
Qed.

Lemma specialMoves_squares from to p promotion now g :
  ensures (specialMoves from to p promotion now) g
          (fun _ g' => squareStep (board g) (board g')).
Proof.
  unfold specialMoves. wp; simpl; try apply squareStep_refl.
  - eapply ensures_mono; [apply handleCastling_squares|].
    intros [] g' Hstep. by wp.
  - apply squareStep_clear.
Qed.

Lemma handleMove_squares m now g :
  squareStep (board g) (board (snd (handleMove m now g))).
Proof.
  destruct (handleMove m now g) as [[[]|why] g'] eqn:Hrun; simpl.
  - apply handleMove_finished in Hrun as (_ & _ & Hrun).
    pose proof (ensures_inv _ _ _ _ _ (applyMove_effect m now g) Hrun)
      as (p1 & g1 & g0 & Hspecial & -> & _).
    eapply squareStep_trans;
      [exact (ensures_inv _ _ _ _ _ (specialMoves_squares _ _ _ _ _ g) Hspecial)|].
    eapply squareStep_trans; [|apply squareStep_clear]. by apply squareStep_place.
  - apply handleMove_returned in Hrun as [-> _]. apply squareStep_refl.
Qed.

Lemma handlePromotion_squares r c t now g :
  In t ChessRules.getPromotionOptions ->
  squareStep (board g) (board (snd (handlePromotion r c t now g))).
Proof.
  intros Hoption.
  destruct (handlePromotion r c t now g) as [[[]|why] g'] eqn:Hrun; simpl.
  - revert Hrun. unfold handlePromotion. rewrite bind_get.
    destruct (negb (onBoardRow r)); [done|].
    destruct (cell (board g) r c) as [p|] eqn:Hcell; [|done].
    destruct (bool_decide (type p = pawn)) eqn:Hpawn; [|done].
    apply bool_decide_eq_true in Hpawn.
    intros [= <-]. rewrite board_updateGameStatus. simpl.
    eapply squareStep_promote; try done. simpl.
    cbn in Hoption. intuition congruence.
  - apply handlePromotion_returned in Hrun as ->. apply squareStep_refl.
Qed.

Lemma reachable_squares g :
  reachable g -> squareStep createInitialBoard (board g).
Proof.
  induction 1 as [gameId|g pid nm now Hg IH|g m now Hg IH|g r c t now Hg IH Hoption].
  - apply squareStep_refl.
  - by rewrite board_handleJoin.
  - eapply squareStep_trans; [exact IH|apply handleMove_squares].
  - eapply squareStep_trans; [exact IH|by apply handlePromotion_squares].
Qed.

Lemma placed_createInitialBoard : placed createInitialBoard.
Proof.
  intros r c p Hcell. apply cell_inBoard in Hcell as Hin.
  apply In_squares in Hin. revert p Hcell.
  assert (Hall : forallb (fun '(r, c) =>
                    match cell createInitialBoard r c with
                    | Some p => (row p =? r) && (col p =? c)
                    | None => true
                    end) squares = true) by (vm_compute; reflexivity).
  rewrite forallb_forall in Hall. specialize (Hall _ Hin). simpl in Hall.
  intros p Hcell. rewrite Hcell in Hall. apply andb_true_iff in Hall. lia.
Qed.

Lemma reachable_placed g : reachable g -> placed (board g).
Proof.
  intros Hreach r c p Hcell. apply reachable_squares in Hreach as [_ Hstep].
  destruct (Hstep _ _ _ Hcell) as [Hsame|[(_ & ? & ?)|(q & Hq & _ & _ & _ & _ & -> & ->)]].
  - by apply placed_createInitialBoard.
  - done.
  - by apply placed_createInitialBoard.
Qed.

(** X18.  On the board of a reachable session the fields [row] and [col] of
    every piece are the coordinates of the square it stands on. *)
Theorem reachable_pieces_know_their_square g : reachable g -> placed (board g).
Proof. apply reachable_placed. Qed.

Lemma reachable_pieces_know_their_square_witness : placed (board castleReadyGame).
Proof. exact (reachable_pieces_know_their_square _ reachable_castleReadyGame). Defined.

Lemma reachable_unmovedAtStart g : reachable g -> unmovedAtStart (board g).
Proof.
  intros Hreach r c p Hcell Hunmoved. apply reachable_squares in Hreach as [_ Hstep].
  destruct (Hstep _ _ _ Hcell)
    as [Hsame|[(Hmoved & _)|(q & Hq & Hpawn & Hnoking & Hcolor & _)]].
  - exists p. by split_and!; [| |left].
  - congruence.
  - exists q. by split_and!; [| |right].
Qed.

(** X19.  On the board of a reachable session a piece that is marked unmoved
    stands on the square [createInitialBoard] gave it: it is that very
    piece, or the pawn of that square promoted on the spot to a piece that
    is no king. *)
Theorem reachable_unmoved_pieces_at_start g : reachable g -> unmovedAtStart (board g).
Proof. apply reachable_unmovedAtStart. Qed.

Lemma reachable_unmoved_pieces_at_start_witness : unmovedAtStart (board castleReadyGame).
Proof. exact (reachable_unmoved_pieces_at_start _ reachable_castleReadyGame). Defined.

Lemma updateGameStatus_sound g :
  halfMoveClock g < 100 -> statusSound (updateGameStatus g).
Proof.
  intros Hclock. unfold statusSound.
  rewrite board_updateGameStatus, currentTurn_updateGameStatus.
  assert (Hleb : (100 <=? halfMoveClock g) = false) by (apply Z.leb_gt; lia).
  unfold updateGameStatus.
  destruct (ChessRules.isCheckmate (board g) white) eqn:Hwm;
    [cbn; rewrite Hleb; cbn; split_and!; try done;
     first [by exists white|by intros _; exists white]|].
  destruct (ChessRules.isCheckmate (board g) black) eqn:Hbm;
    [cbn; rewrite Hleb; cbn; split_and!; try done;
     first [by exists black|by intros _; exists black]|].
  destruct (ChessRules.isStalemate (board g) white) eqn:Hws;
    [cbn; rewrite Hleb; cbn; split_and!; try done;
     first [by exists white|by intros _; exists white]|].
  destruct (ChessRules.isStalemate (board g) black) eqn:Hbs;
    [cbn; rewrite Hleb; cbn; split_and!; try done;
     first [by exists black|by intros _; exists black]|].
  cbn [orb].
  destruct (ChessRules.isKingInCheck (board g) white) eqn:Hwc,
           (ChessRules.isKingInCheck (board g) black) eqn:Hbc,
           (currentTurn g) eqn:Hturn;
    repeat (case_bool_decide; try congruence); cbn; rewrite Hleb; cbn; split_and!; done.
Qed.

Lemma statusSound_lastMove f g : statusSound g -> statusSound (set_lastMove f g).
Proof. done. Qed.

Lemma reachable_statusSound g : reachable g -> statusSound g.
Proof.
  induction 1 as [gameId|g pid nm now Hg IH|g m now Hg IH|g r c t now Hg IH Hoption].
  - unfold statusSound. by cbn.
  - unfold handleJoin. rewrite bind_get.
    destruct (2 <=? Z.of_nat (length (players g))); [done|].
    unfold mbind, Handler_bind, modify, get. cbn [snd].
    destruct IH as (_ & Hflags). unfold statusSound.
    cbn [status set_status set_players board checkmate_ stalemate_ check_ currentTurn winner].
    split; [by destruct (_ =? 2)|done].
  - destruct (handleMove m now g) as [[[]|why] g'] eqn:Hrun; cbn [snd].
    + assert (Hzero : halfMoveClock g' = 0).
      { eapply handleMove_clock_zero; [|exact Hrun]. by apply reachable_kingsAtHome. }
      apply handleMove_finished in Hrun as (_ & _ & Hrun).
      pose proof (ensures_inv _ _ _ _ _ (applyMove_effect m now g) Hrun)
        as (p1 & g1 & g0 & _ & _ & _ & _ & _ & _ & _ & Hshape & _ & _ & Hclock).
      rewrite Hshape. apply statusSound_lastMove, updateGameStatus_sound. lia.
    + by apply handleMove_returned in Hrun as [-> _].
  - destruct (handlePromotion r c t now g) as [[[]|why] g'] eqn:Hrun; cbn [snd].
    + revert Hrun. unfold handlePromotion. rewrite bind_get.
      destruct (negb (onBoardRow r)); [done|].
      destruct (cell (board g) r c) as [p|]; [|done].
      destruct (bool_decide (type p = pawn)); [|done].
      intros [= <-]. apply updateGameStatus_sound.
      cbn [halfMoveClock set_board]. apply reachable_clock_zero in Hg as [-> _]. lia.
    + by apply handlePromotion_returned in Hrun as ->.
Qed.

(** X20.  In a reachable session the status is never ['draw'] nor ['finished'];
    when it is ['checkmate'] some side is checkmated on the board and the
    winner is the other side, when it is ['stalemate'] some side is
    stalemated and there is no winner, when it is ['check'] the side to
    move is in check; and a flag [checkmate], [stalemate] or [check] that
    is set is true of the board. *)
Theorem reachable_status_matches_board g : reachable g -> statusSound g.
Proof. apply reachable_statusSound. Qed.

Lemma reachable_status_matches_board_witness : statusSound foolsMate.
Proof. exact (reachable_status_matches_board _ reachable_foolsMate). Defined.

(** X21.  In every reachable session the half-move clock is 0: no applied move
    increments it, so the status never becomes ['draw']; nor is it ever
    ['finished']. *)
Theorem reachable_clock_never_runs g :
  reachable g -> halfMoveClock g = 0 /\ status g <> draw /\ status g <> finished.
Proof.
  intros Hreach. destruct (reachable_clock_zero g Hreach) as [Hclock Hdraw].
  split_and!; [done..|].
  pose proof (reachable_statusSound g Hreach) as [Hstatus _].
  intros Hfinished. by rewrite Hfinished in Hstatus.
Qed.

Lemma reachable_clock_never_runs_witness :
  halfMoveClock castleReadyGame = 0
  /\ status castleReadyGame <> draw /\ status castleReadyGame <> finished.
Proof. exact (reachable_clock_never_runs _ reachable_castleReadyGame). Defined.

Lemma lastMove_fresh g :
  reachable g ->
  enPassantTarget g = None
  /\ forall lm, lastMove g = Some lm -> isCastle lm = None /\ isEnPassant lm = None.
Proof.
  induction 1 as [gameId|g pid nm now Hg [IHp IHl]|g m now Hg [IHp IHl]
                  |g r c t now Hg [IHp IHl] Hoption].
  - done.
  - unfold handleJoin. rewrite bind_get.
    destruct (2 <=? Z.of_nat (length (players g))); [done|].
    unfold mbind, Handler_bind, modify, get. by cbn [snd].
  - destruct (handleMove m now g) as [[[]|why] g'] eqn:Hrun; cbn [snd].
    + apply handleMove_finished in Hrun as (_ & _ & Hrun).
      pose proof (ensures_inv _ _ _ _ _ (applyMove_effect m now g) Hrun)
        as (p1 & g1 & g0 & _ & _ & _ & _ & _ & _ & _ & Hshape & _ & _ & _ & Hpassant).
      split; [by rewrite Hpassant|]. rewrite Hshape. cbn [lastMove set_lastMove].
      by intros lm [= <-].
    + by apply handleMove_returned in Hrun as [-> _].
  - destruct (handlePromotion r c t now g) as [[[]|why] g'] eqn:Hrun; cbn [snd].
    + revert Hrun. unfold handlePromotion. rewrite bind_get.
      destruct (negb (onBoardRow r)); [done|].
      destruct (cell (board g) r c) as [p|]; [|done].
      destruct (bool_decide (type p = pawn)); [|done].
      intros [= <-]. by rewrite enPassantTarget_updateGameStatus, lastMove_updateGameStatus.
    + by apply handlePromotion_returned in Hrun as ->.
Qed.

(** X27.  No reachable session has an en-passant target, and the last move of a
    reachable session never carries the flag [isCastle] nor the flag
    [isEnPassant]: the flag [handleCastling] sets is put on the move before
    and is lost when [handleMove] records the castling itself. *)
Theorem reachable_never_records_special_moves g :
  reachable g ->
  enPassantTarget g = None
  /\ forall lm, lastMove g = Some lm -> isCastle lm = None /\ isEnPassant lm = None.
Proof. apply lastMove_fresh. Qed.

Lemma reachable_never_records_special_moves_witness :
  let g := snd (handleMove castlingRequest 0 castleReadyGame) in
  enPassantTarget g = None
  /\ forall lm, lastMove g = Some lm -> isCastle lm = None /\ isEnPassant lm = None.
Proof.
  exact (reachable_never_records_special_moves _
           (reachable_move castleReadyGame castlingRequest 0 reachable_castleReadyGame)).
Defined.

(** ** The mover's king after an applied move *)


















(** ** The client is shown the moves the server accepts *)






(** ** The chat history of the client *)

(** X26.  [addChatMessage] keeps the last twenty messages: the list it leaves
    is the old list with the new message at its end, cut to its last
    twenty entries. *)
Theorem addChatMessage_keeps_the_last_twenty chatMessages time text :
  let kept := ChessBoardComponent.addChatMessage chatMessages time text in
  length kept = Nat.min (length chatMessages + 1) 20
  /\ kept = drop (length chatMessages + 1 - 20) (chatMessages ++ [(time, text)])
  /\ last kept = Some (time, text).
Proof.
  unfold ChessBoardComponent.addChatMessage. cbv zeta. rewrite length_app. cbn [length].
  destruct (20 <? Z.of_nat (length chatMessages + 1)) eqn:Hlong.
  - apply Z.ltb_lt in Hlong. split_and!.
    + rewrite length_drop, length_app. cbn [length]. lia.
    + done.
    + rewrite drop_app_le by lia. by rewrite last_snoc.
  - apply Z.ltb_ge in Hlong. split_and!.
    + rewrite length_app. cbn [length]. lia.
    + replace (length chatMessages + 1 - 20)%nat with 0%nat by lia. done.
    + by rewrite last_snoc.
Qed.
